(** * cloud-support-mcp: resilient execution and failure classification

    A shallow embedding of
      - [src/types/errors.ts]            (error taxonomy, [ErrorClassifier],
                                          [ErrorCollector]),
      - [src/utils/retry.ts]             ([RetryMechanism], [TimeoutManager],
                                          [CircuitBreaker], [RobustExecutor]),
      - [src/utils/graceful-shutdown.ts] ([GracefulShutdownManager]),
      - [src/handlers/base-handler.ts]   ([formatErrorResponse]),
    together with the properties stated about them.

    Conventions.  A JavaScript [number] that the code only ever uses as an
    integer (status codes, attempt counters, millisecond clock readings) is a
    [Z]; the delays of the retry mechanism, which are multiplied by a
    fractional jitter factor, are IEEE 754 doubles (module [Doubles]): a
    finite double is given by its value, a rational, and every product and
    sum is rounded to the nearest double, ties to even, or overflows to an
    infinity; [Math.pow], which ECMAScript leaves to the implementation, is
    a parameter.  Reads of the environment ([Date.now()], [Math.random()],
    the wrapped operation) are made explicit: the environment is a function
    of the number of reads so far, and the count lives in the state that is
    threaded through. *)

From Stdlib Require Import ZArith QArith Qround Qminmax Bool List String Ascii Lia.
From Stdlib Require Import DecimalString Lqa Qpower Qreduction Qabs Qfield.
Import ListNotations.

Local Open Scope Z_scope.

(* ================================================================== *)
(** * Error taxonomy ([src/types/errors.ts]) *)
(* ================================================================== *)

Module Errors.

Local Open Scope string_scope.
Local Open Scope Z_scope.

Inductive ErrorCategory :=
  | AUTHENTICATION | AUTHORIZATION | VALIDATION
  | NETWORK | API_CLIENT | TIMEOUT
  | CONFIGURATION | RESOURCE | UNKNOWN.

Inductive ErrorSeverity := LOW | MEDIUM | HIGH | CRITICAL.

(** Values stored in a log context. *)
Inductive LogValue :=
  | LNum (n : Z)
  | LStr (s : string)
  | LUndefined.

Definition LogContext := list (string * LogValue).

Record ErrorMetadata := mkMetadata {
  category : ErrorCategory;
  severity : ErrorSeverity;
  code : string;
  retryable : bool;
  timestamp : string;
  correlationId : option string;
  context : option LogContext
}.

(** What [typeof value === 'object' ? JSON.stringify(value) : String(value)]
    does with a value: it gives a string, it gives [undefined]
    ([JSON.stringify] of an object whose [toJSON] returns [undefined]), or it
    throws a [TypeError] (a cyclic structure, a BigInt inside). *)
Inductive Rendering :=
  | Rendered (s : string)
  | RenderedUndefined
  | RenderThrows.

(** A call that returns a value or throws. *)
Inductive Completion (A : Type) :=
  | Returns (a : A)
  | Throws.
Arguments Returns {A} a.
Arguments Throws {A}.

(** A plain JavaScript [Error]: the two fields the classifier looks at, and
    what [JSON.stringify] does with the object (which depends on its own
    enumerable properties: ["{}"] for a bare [new Error(...)]). *)
Record JsError := mkJsError {
  err_name : string;
  err_message : string;
  err_json : Rendering
}.

(** An instance of (a subclass of) [BaseError].  [name] is the constructor
    name; [statusCode] and [responseBody] are the extra fields of
    [ApiClientError] and are absent on the other subclasses. *)
Record BaseError := mkBaseError {
  name : string;
  message : string;
  metadata : ErrorMetadata;
  cause : option JsError;
  statusCode : option Z;
  responseBody : option string
}.

(** What a [catch] clause can receive (type [unknown]). *)
Inductive unknown :=
  | UBase (e : BaseError)          (* error instanceof BaseError *)
  | UError (e : JsError)           (* error instanceof Error, not BaseError *)
  | UString (s : string)           (* typeof error === 'string' *)
  | UOther (rendered : Rendering). (* anything else, with what
                                      [typeof error === 'object' ?
                                      JSON.stringify(error) : String(error)]
                                      does with it *)

(** [`${n}`] for an integer [n]. *)
Definition numToString (n : Z) : string :=
  NilZero.string_of_int (Z.to_int n).

(** [String.prototype.includes]. *)
Fixpoint includes (s sub : string) : bool :=
  if String.prefix sub s then true
  else match s with
       | EmptyString => false
       | String _ s' => includes s' sub
       end.

(** [String(value)] as used by the [safeContext] computation of
    [ValidationError] on numbers, strings and [undefined]. *)
Definition renderLogValue (v : LogValue) : string :=
  match v with
  | LNum n => numToString n
  | LStr s => s
  | LUndefined => "undefined"
  end.

(** The [safeContext] computation of [GenericError] on entries whose values
    are given with their renderings: the first rendering that throws makes
    the whole computation throw. *)
Fixpoint safeEntries (entries : list (string * Rendering))
    : Completion LogContext :=
  match entries with
  | [] => Returns []
  | (key, r) :: rest =>
      match r with
      | RenderThrows => Throws
      | Rendered s =>
          match safeEntries rest with
          | Returns c => Returns ((key, LStr s) :: c)
          | Throws => Throws
          end
      | RenderedUndefined =>
          match safeEntries rest with
          | Returns c => Returns ((key, LUndefined) :: c)
          | Throws => Throws
          end
      end
  end.

(** [String(context)] for the optional context string. *)
Definition renderContext (ctx : option string) : Rendering :=
  match ctx with
  | Some c => Rendered c
  | None => Rendered "undefined"
  end.

Definition optNum (o : option Z) : LogValue :=
  match o with Some n => LNum n | None => LUndefined end.

Definition optStr (o : option string) : LogValue :=
  match o with Some s => LStr s | None => LUndefined end.

Definition safeContext (c : option LogContext) : option LogContext :=
  option_map (map (fun kv => (fst kv, LStr (renderLogValue (snd kv))))) c.

Section Constructors.

(** [new Date().toISOString()] at construction time. *)
Variable now : string.

(** [BaseError]'s constructor: the metadata is the argument plus the
    timestamp. *)
Definition mkError (cls msg : string) (cat : ErrorCategory)
    (sev : ErrorSeverity) (cd : string) (retry : bool)
    (ctx : option LogContext) (cs : option JsError)
    (sc : option Z) (rb : option string) : BaseError :=
  {| name := cls; message := msg;
     metadata := {| category := cat; severity := sev; code := cd;
                    retryable := retry; timestamp := now;
                    correlationId := None; context := ctx |};
     cause := cs; statusCode := sc; responseBody := rb |}.

Definition AuthenticationError (msg cd : string) (cs : option JsError) :=
  mkError "AuthenticationError" msg AUTHENTICATION HIGH cd false None cs None None.

Definition AuthorizationError (msg cd : string) (cs : option JsError) :=
  mkError "AuthorizationError" msg AUTHORIZATION HIGH cd false None cs None None.

Definition ValidationError (msg cd : string) (ctx : option LogContext)
    (cs : option JsError) :=
  mkError "ValidationError" msg VALIDATION LOW cd false (safeContext ctx) cs None None.

Definition NetworkError (msg cd : string) (cs : option JsError) :=
  mkError "NetworkError" msg NETWORK MEDIUM cd true None cs None None.

(** [statusCode && statusCode >= 500] and
    [statusCode ? statusCode >= 500 || statusCode === 429 : true]:
    an absent status code and the status code 0 are both falsy. *)
Definition truthy (sc : option Z) : bool :=
  match sc with
  | Some n => negb (n =? 0)
  | None => false
  end.

Definition apiSeverity (sc : option Z) : ErrorSeverity :=
  match sc with
  | Some n => if truthy sc && (500 <=? n) then HIGH else MEDIUM
  | None => MEDIUM
  end.

Definition apiRetryable (sc : option Z) : bool :=
  match sc with
  | Some n => if truthy sc then (500 <=? n) || (n =? 429) else true
  | None => true
  end.

Definition ApiClientError (msg : string) (sc : option Z) (rb : option string)
    (cd : string) (cs : option JsError) :=
  mkError "ApiClientError" msg API_CLIENT (apiSeverity sc) cd (apiRetryable sc)
    (Some [("statusCode", optNum sc); ("responseBody", optStr rb)]) cs sc rb.

Definition TimeoutError (msg : string) (timeout : Z) (cd : string)
    (cs : option JsError) :=
  mkError "TimeoutError" msg TIMEOUT MEDIUM cd true
    (Some [("timeout", LNum timeout)]) cs None None.

Definition ConfigurationError (msg cd : string) (cs : option JsError) :=
  mkError "ConfigurationError" msg CONFIGURATION CRITICAL cd false None cs None None.

Definition ResourceError (msg cd : string) (cs : option JsError) :=
  mkError "ResourceError" msg RESOURCE HIGH cd true None cs None None.

(** [GenericError]'s constructor computes [safeContext] before it calls
    [super]: when a rendering throws, no error is built. *)
Definition GenericError (msg cd : string)
    (ctx : option (list (string * Rendering))) (cs : option JsError)
    : Completion BaseError :=
  match ctx with
  | None =>
      Returns (mkError "GenericError" msg UNKNOWN MEDIUM cd false None cs
                 None None)
  | Some entries =>
      match safeEntries entries with
      | Returns c =>
          Returns (mkError "GenericError" msg UNKNOWN MEDIUM cd false (Some c)
                     cs None None)
      | Throws => Throws
      end
  end.

(** [ErrorClassifier.fromHttpResponse]. *)
Definition fromHttpResponse (status : Z) (statusText : string)
    (body : option string) (originalError : option JsError) : BaseError :=
  let msg := "HTTP " ++ numToString status ++ ": " ++ statusText in
  let http := "HTTP_" ++ numToString status in
  if status =? 401 then AuthenticationError msg "HTTP_401" originalError
  else if status =? 403 then AuthorizationError msg "HTTP_403" originalError
  else if (status =? 400) || (status =? 422) then
    ValidationError msg http
      (Some [("statusCode", LNum status); ("responseBody", optStr body)])
      originalError
  else if status =? 429 then
    ApiClientError msg (Some status) body "HTTP_429" originalError
  else if (status =? 408) || (status =? 504) then
    TimeoutError msg 30000 http originalError
  else if status =? 404 then ResourceError msg "HTTP_404" originalError
  else if 500 <=? status then
    ApiClientError msg (Some status) body http originalError
  else
    ApiClientError msg (Some status) body http originalError.

(** [ErrorClassifier.fromGenericError]. *)
Definition fromGenericError (error : unknown) (ctx : option string)
    : Completion BaseError :=
  match error with
  | UBase e => Returns e
  | UError e =>
      let msg := err_message e in
      if (err_name e =? "TypeError")%string && includes msg "fetch" then
        Returns (NetworkError ("Network error: " ++ msg) "FETCH_ERROR" (Some e))
      else if (err_name e =? "AbortError")%string || includes msg "timeout" then
        Returns (TimeoutError ("Operation timed out: " ++ msg) 30000
                   "TIMEOUT_ERROR" (Some e))
      else
        let contextMessage :=
          match ctx with
          | Some c => if (c =? "")%string then msg else c ++ ": " ++ msg
          | None => msg
          end in
        GenericError contextMessage "UNKNOWN_001"
          (Some [("originalError", err_json e);
                 ("context", renderContext ctx)])
          (Some e)
  | UString s =>
      let contextMessage :=
        match ctx with
        | Some c => if (c =? "")%string then s else c ++ ": " ++ s
        | None => s
        end in
      GenericError contextMessage "UNKNOWN_001"
        (Some [("originalError", Rendered s);
               ("context", renderContext ctx)])
        None
  | UOther rendered =>
      let msg := "Unknown error occurred" in
      let contextMessage :=
        match ctx with
        | Some c => if (c =? "")%string then msg else c ++ ": " ++ msg
        | None => msg
        end in
      GenericError contextMessage "UNKNOWN_001"
        (Some [("originalError", rendered);
               ("context", renderContext ctx)])
        None
  end.

End Constructors.

(** [BaseError.getSafeMessage]. *)
Definition getSafeMessage (e : BaseError) : string :=
  match category (metadata e) with
  | AUTHENTICATION => "Authentication is required. Please check your credentials."
  | AUTHORIZATION => "You do not have permission to perform this action."
  | VALIDATION => "The provided data is invalid. Please check your input."
  | NETWORK | TIMEOUT => "A temporary network issue occurred. Please try again later."
  | API_CLIENT => "External service is temporarily unavailable. Please try again later."
  | CONFIGURATION => "System configuration error. Please contact support."
  | RESOURCE => "Required resource is not available. Please try again later."
  | UNKNOWN => "An unexpected error occurred. Please try again later."
  end.

(** The status codes the [switch] of [fromHttpResponse] names. *)
Definition namedStatus (s : Z) : bool :=
  existsb (Z.eqb s) [400; 401; 403; 404; 408; 422; 429; 504].

(** ** Error collector *)

(** [`${category}`]: the value of the string enum. *)
Definition categoryName (c : ErrorCategory) : string :=
  match c with
  | AUTHENTICATION => "AUTHENTICATION"
  | AUTHORIZATION => "AUTHORIZATION"
  | VALIDATION => "VALIDATION"
  | NETWORK => "NETWORK"
  | API_CLIENT => "API_CLIENT"
  | TIMEOUT => "TIMEOUT"
  | CONFIGURATION => "CONFIGURATION"
  | RESOURCE => "RESOURCE"
  | UNKNOWN => "UNKNOWN"
  end.

(** The interface [ErrorMetrics]. *)
Record ErrorMetrics := mkMetrics {
  metricCategory : ErrorCategory;
  metricCode : string;
  count : Z;
  firstOccurrence : string;
  lastOccurrence : string
}.

(** The private [metrics] map of [ErrorCollector]: a JavaScript [Map],
    which keeps its keys distinct and in insertion order. *)
Definition Metrics := list (string * ErrorMetrics).

(** [Map.prototype.get]. *)
Fixpoint mapGet (key : string) (m : Metrics) : option ErrorMetrics :=
  match m with
  | [] => None
  | (k, v) :: rest => if (k =? key)%string then Some v else mapGet key rest
  end.

(** Writing through the reference [Map.prototype.get] returned: the entry
    keeps its place. *)
Fixpoint mapUpdate (key : string) (f : ErrorMetrics -> ErrorMetrics)
    (m : Metrics) : Metrics :=
  match m with
  | [] => []
  | (k, v) :: rest =>
      if (k =? key)%string then (k, f v) :: rest
      else (k, v) :: mapUpdate key f rest
  end.

(** [`${error.metadata.category}:${error.metadata.code}`]. *)
Definition metricsKey (error : BaseError) : string :=
  categoryName (category (metadata error)) ++ ":" ++ code (metadata error).

(** [ErrorCollector.recordError]. *)
Definition recordError (error : BaseError) (m : Metrics) : Metrics :=
  let key := metricsKey error in
  let ts := timestamp (metadata error) in
  match mapGet key m with
  | Some _ =>
      mapUpdate key
        (fun existing =>
           {| metricCategory := metricCategory existing;
              metricCode := metricCode existing;
              count := count existing + 1;
              firstOccurrence := firstOccurrence existing;
              lastOccurrence := ts |}) m
  | None =>
      (m ++ [(key, {| metricCategory := category (metadata error);
                      metricCode := code (metadata error);
                      count := 1;
                      firstOccurrence := ts;
                      lastOccurrence := ts |})])%list
  end.

(** [ErrorCollector.getMetrics]: [Array.from(this.metrics.values())]. *)
Definition getMetrics (m : Metrics) : list ErrorMetrics := map snd m.

(** [ErrorCollector.reset]. *)
Definition reset (m : Metrics) : Metrics := [].

(** A fresh collector after [recordError] was called on each element of
    [errors], in order. *)
Definition recordAll (errors : list BaseError) (m : Metrics) : Metrics :=
  fold_left (fun acc e => recordError e acc) errors m.

(** The errors of a list that are counted under [key]. *)
Definition countedUnder (key : string) (errors : list BaseError)
    : list BaseError :=
  filter (fun e => (metricsKey e =? key)%string) errors.

(** What the collector should hold for the errors counted under one key,
    oldest first: nothing for none, else the category and code of the first,
    their number, and the timestamps of the first and of the last. *)
Definition summary (errors : list BaseError) : option ErrorMetrics :=
  match errors with
  | [] => None
  | e0 :: _ =>
      Some {| metricCategory := category (metadata e0);
              metricCode := code (metadata e0);
              count := Z.of_nat (List.length errors);
              firstOccurrence := timestamp (metadata e0);
              lastOccurrence := timestamp (metadata (last errors e0)) |}
  end.

(** The sum of the [count] fields. *)
Definition totalCount (m : Metrics) : Z :=
  fold_right (fun kv acc => count (snd kv) + acc) 0 m.

(** Every entry is stored under the key of its own category and code. *)
Definition wellKeyed (m : Metrics) : Prop :=
  forall k v, In (k, v) m ->
    k = categoryName (metricCategory v) ++ ":" ++ metricCode v.

(** [error instanceof BaseError]. *)
Definition isBaseError (u : unknown) : bool :=
  match u with UBase _ => true | _ => false end.

End Errors.

(* ================================================================== *)
(** * JavaScript numbers: IEEE 754 binary64 *)
(* ================================================================== *)

Module Doubles.

Local Open Scope Q_scope.

(** A [number]: a finite double, given by its value, an infinity or [NaN].
    The sign of zero is not kept: nothing in the code modelled here divides
    by a delay or otherwise tells [-0] from [0]. *)
Inductive Double :=
  | Num (q : Q)
  | PosInfinity
  | NegInfinity
  | NaN.

Definition pow2 (k : Z) : Q := 2 ^ k.

(** The exponent of the binade of a positive rational:
    [pow2 (ilog2 q) <= q < pow2 (ilog2 q + 1)]. *)
Definition ilog2 (q : Q) : Z :=
  let k := (Z.log2 (Qnum q) - Z.log2 (Zpos (Qden q)))%Z in
  if Qle_bool (pow2 k) q then k else (k - 1)%Z.

(** The nearest integer, the even one of the two when they are equally
    near. *)
Definition nearestEven (x : Q) : Z :=
  let f := Qfloor x in
  match Qcompare (x - inject_Z f) (1 # 2) with
  | Lt => f
  | Gt => (f + 1)%Z
  | Eq => if Z.even f then f else (f + 1)%Z
  end.

(** The exponent a positive rational is rounded at (that of its binade, and
    -1022 for the subnormal numbers), and the distance between the doubles
    there: a significand has 53 bits. *)
Definition expo (q : Q) : Z := Z.max (ilog2 q) (-1022).

Definition quantum (q : Q) : Q := pow2 (expo q - 52).

Definition roundPos (q : Q) : Q :=
  inject_Z (nearestEven (q / quantum q)) * quantum q.

(** The double that an exact result is rounded to: round to nearest, ties
    to even, overflow to an infinity. *)
Definition ofQ (q : Q) : Double :=
  match Qcompare q 0 with
  | Eq => Num 0
  | Gt => let r := roundPos q in
          if Qle_bool (pow2 1024) r then PosInfinity else Num (Qred r)
  | Lt => let r := roundPos (- q) in
          if Qle_bool (pow2 1024) r then NegInfinity else Num (Qred (- r))
  end.

(** [a * b]. *)
Definition mul (a b : Double) : Double :=
  match a, b with
  | NaN, _ | _, NaN => NaN
  | Num x, Num y => ofQ (x * y)
  | Num x, PosInfinity | PosInfinity, Num x =>
      match Qcompare x 0 with
      | Eq => NaN
      | Gt => PosInfinity
      | Lt => NegInfinity
      end
  | Num x, NegInfinity | NegInfinity, Num x =>
      match Qcompare x 0 with
      | Eq => NaN
      | Gt => NegInfinity
      | Lt => PosInfinity
      end
  | PosInfinity, PosInfinity | NegInfinity, NegInfinity => PosInfinity
  | PosInfinity, NegInfinity | NegInfinity, PosInfinity => NegInfinity
  end.

(** [a + b]. *)
Definition add (a b : Double) : Double :=
  match a, b with
  | NaN, _ | _, NaN => NaN
  | Num x, Num y => ofQ (x + y)
  | PosInfinity, NegInfinity | NegInfinity, PosInfinity => NaN
  | PosInfinity, _ | _, PosInfinity => PosInfinity
  | NegInfinity, _ | _, NegInfinity => NegInfinity
  end.

(** [Math.min(a, b)]. *)
Definition min (a b : Double) : Double :=
  match a, b with
  | NaN, _ | _, NaN => NaN
  | NegInfinity, _ | _, NegInfinity => NegInfinity
  | PosInfinity, d | d, PosInfinity => d
  | Num x, Num y => if Qle_bool x y then a else b
  end.

(** [Math.floor(d)]. *)
Definition floor (d : Double) : Double :=
  match d with
  | Num q => Num (inject_Z (Qfloor q))
  | _ => d
  end.

(** [a <= b]: false as soon as one side is [NaN]. *)
Definition leb (a b : Double) : bool :=
  match a, b with
  | NaN, _ | _, NaN => false
  | NegInfinity, _ | _, PosInfinity => true
  | Num x, Num y => Qle_bool x y
  | _, _ => false
  end.

Definition le (a b : Double) : Prop := leb a b = true.

(** [Math.pow(base, exponent)] for an integer exponent: 1 when the exponent
    is 0, whatever the base; otherwise what the implementation's
    approximation [pow] gives. *)
Definition mathPow (pow : Double -> Z -> Double) (base : Double)
    (exponent : Z) : Double :=
  if (exponent =? 0)%Z then Num 1 else pow base exponent.

(** An implementation of [Math.pow] that rounds the exact power of a finite
    base correctly (the cases of a negative infinity and of a zero base
    with a negative exponent are not needed here). *)
Definition exactPow (base : Double) (exponent : Z) : Double :=
  match base with
  | Num b => ofQ (b ^ exponent)
  | PosInfinity =>
      match exponent with
      | Z0 => Num 1
      | Zpos _ => PosInfinity
      | Zneg _ => Num 0
      end
  | _ => NaN
  end.

(** The sum of a list of delays, when every one of them is finite. *)
Fixpoint total (delays : list Double) : option Q :=
  match delays with
  | [] => Some 0
  | Num d :: rest =>
      match total rest with
      | Some t => Some (d + t)
      | None => None
      end
  | _ :: _ => None
  end.

End Doubles.

(* ================================================================== *)
(** * Retry mechanism ([src/utils/retry.ts], [RetryMechanism]) *)
(* ================================================================== *)

Module Retry.

Local Open Scope Q_scope.

(** What one invocation of the wrapped operation settles to. *)
Inductive Outcome (T E : Type) :=
  | Ok (v : T)
  | Err (e : E).
Arguments Ok {T E} v.
Arguments Err {T E} e.

(** What [execute] settles to.  [throw lastError] throws [undefined] when
    the loop body never ran, hence the option. *)
Inductive Settled (T E : Type) :=
  | Resolved (v : T)
  | Rejected (e : option E).
Arguments Resolved {T E} v.
Arguments Rejected {T E} e.

Record RetryConfig (E : Type) := mkRetryConfig {
  maxAttempts : Z;
  initialDelay : Doubles.Double;
  maxDelay : Doubles.Double;
  backoffFactor : Doubles.Double;
  jitter : bool;
  retryableErrors : E -> bool
}.
Arguments mkRetryConfig {E}.
Arguments maxAttempts {E}.
Arguments initialDelay {E}.
Arguments maxDelay {E}.
Arguments backoffFactor {E}.
Arguments jitter {E}.
Arguments retryableErrors {E}.

(** The state threaded through a run: how often the operation was invoked,
    how often [Math.random()] was read, and the delays passed to [sleep] so
    far (most recent first). *)
Record World := mkWorld {
  invocations : nat;
  draws : nat;
  slept : list Doubles.Double
}.

Definition init : World := {| invocations := 0; draws := 0; slept := [] |}.

Definition M (A : Type) : Type := World -> A * World.

Definition ret {A} (a : A) : M A := fun w => (a, w).

Definition bind {A B} (m : M A) (k : A -> M B) : M B :=
  fun w => let (a, w') := m w in k a w'.

Notation "x <- m ;; k" := (bind m (fun x => k))
  (at level 61, m at next level, right associativity).
Notation "m ;;; k" := (bind m (fun _ => k))
  (at level 61, right associativity).

(** [isRetryableError], the predicate of the three exported profiles. *)
Definition isRetryableError (error : Errors.unknown) : bool :=
  match error with
  | Errors.UBase e => Errors.retryable (Errors.metadata e)
  | Errors.UError e =>
      (Errors.err_name e =? "NetworkError")%string
      || Errors.includes (Errors.err_message e) "ECONNRESET"
      || Errors.includes (Errors.err_message e) "ECONNREFUSED"
      || Errors.includes (Errors.err_message e) "ENOTFOUND"
      || Errors.includes (Errors.err_message e) "timeout"
  | _ => false
  end.

Definition DEFAULT_RETRY_CONFIG : RetryConfig Errors.unknown :=
  {| maxAttempts := 3; initialDelay := Doubles.Num 1000;
     maxDelay := Doubles.Num 10000; backoffFactor := Doubles.Num 2;
     jitter := true; retryableErrors := isRetryableError |}.

Definition LIGHT_RETRY_CONFIG : RetryConfig Errors.unknown :=
  {| maxAttempts := 2; initialDelay := Doubles.Num 500;
     maxDelay := Doubles.Num 2000; backoffFactor := Doubles.Num (3 # 2);
     jitter := true; retryableErrors := isRetryableError |}.

Definition AGGRESSIVE_RETRY_CONFIG : RetryConfig Errors.unknown :=
  {| maxAttempts := 5; initialDelay := Doubles.Num 1000;
     maxDelay := Doubles.Num 30000; backoffFactor := Doubles.Num (5 # 2);
     jitter := true; retryableErrors := isRetryableError |}.

Section Mechanism.

Variables T E : Type.

(** The environment: the outcome of the [i]-th invocation of the operation
    and the value of the [i]-th read of [Math.random()] (both counted
    from 0), and the approximation of powers that [Math.pow] makes. *)
Variable operation : nat -> Outcome T E.
Variable random : nat -> Q.
Variable pow : Doubles.Double -> Z -> Doubles.Double.

Definition invoke : M (Outcome T E) :=
  fun w => (operation (invocations w),
            {| invocations := S (invocations w); draws := draws w;
               slept := slept w |}).

Definition mathRandom : M Q :=
  fun w => (random (draws w),
            {| invocations := invocations w; draws := S (draws w);
               slept := slept w |}).

Definition sleep (ms : Doubles.Double) : M unit :=
  fun w => (tt, {| invocations := invocations w; draws := draws w;
                   slept := ms :: slept w |}).

(** [Math.min(initialDelay * Math.pow(backoffFactor, attempt - 1), maxDelay)]. *)
Definition exponentialDelay (attempt : Z) (config : RetryConfig E)
    : Doubles.Double :=
  Doubles.min
    (Doubles.mul (initialDelay config)
       (Doubles.mathPow pow (backoffFactor config) (attempt - 1)))
    (maxDelay config).

(** [0.75 + Math.random() * 0.5]. *)
Definition jitterFactor (r : Q) : Doubles.Double :=
  Doubles.add (Doubles.Num (3 # 4))
    (Doubles.mul (Doubles.Num r) (Doubles.Num (1 # 2))).

(** [RetryMechanism.calculateDelay]. *)
Definition calculateDelay (attempt : Z) (config : RetryConfig E)
    : M Doubles.Double :=
  if negb (jitter config) then ret (exponentialDelay attempt config)
  else
    r <- mathRandom ;;
    ret (Doubles.floor
           (Doubles.mul (exponentialDelay attempt config) (jitterFactor r))).

(** The [for] loop of [RetryMechanism.execute], from the iteration with
    counter [attempt] on (logging is left out).  [None] is only returned
    when [fuel] runs out. *)
Fixpoint attemptLoop (fuel : nat) (config : RetryConfig E) (attempt : Z)
    (lastError : option E) : M (option (Settled T E)) :=
  match fuel with
  | O => ret None
  | S fuel' =>
      if (attempt <=? maxAttempts config)%Z then
        r <- invoke ;;
        match r with
        | Ok v => ret (Some (Resolved v))
        | Err error =>
            if (attempt =? maxAttempts config)%Z
               || negb (retryableErrors config error)
            then ret (Some (Rejected (Some error)))
            else
              delay <- calculateDelay attempt config ;;
              sleep delay ;;;
              attemptLoop fuel' config (attempt + 1) (Some error)
        end
      else ret (Some (Rejected lastError))
  end.

(** [RetryMechanism.execute]: at most [maxAttempts] iterations run, so
    that much fuel (plus one for the exit test) is enough. *)
Definition execute (config : RetryConfig E) : M (option (Settled T E)) :=
  attemptLoop (S (Z.to_nat (maxAttempts config))) config 1 None.

(** The delay slept after the failed attempt number [j + 1]; the draws of
    [Math.random()] are consumed one per sleep. *)
Definition sleptAfter (config : RetryConfig E) (j : nat) : Doubles.Double :=
  if jitter config
  then Doubles.floor
         (Doubles.mul (exponentialDelay (Z.of_nat (S j)) config)
            (jitterFactor (random j)))
  else exponentialDelay (Z.of_nat (S j)) config.

(** The state at the head of the loop: as many sleeps as invocations, one
    draw per sleep when jitter is on, and every sleep the right one. *)
Definition atLoopHead (config : RetryConfig E) (w : World) : Prop :=
  List.length (slept w) = invocations w /\
  draws w = (if jitter config then invocations w else 0%nat) /\
  forall j, (j < invocations w)%nat ->
    nth_error (rev (slept w)) j = Some (sleptAfter config j).

(** The world in which the loop continues after a failed attempt that is
    retried. *)
Definition afterRetry (config : RetryConfig E) (attempt : Z) (w : World)
    : World :=
  {| invocations := S (invocations w);
     draws := if jitter config then S (draws w) else draws w;
     slept := fst (calculateDelay attempt config
                     {| invocations := S (invocations w); draws := draws w;
                        slept := slept w |}) :: slept w |}.

(** The sum of the delays slept during a run, in milliseconds, when every
    one of them is a finite number. *)
Definition totalSlept (w : World) : option Q := Doubles.total (slept w).

End Mechanism.

Arguments invoke {T E}.
Arguments exponentialDelay {E}.
Arguments calculateDelay {E}.
Arguments attemptLoop {T E}.
Arguments execute {T E}.
Arguments sleptAfter {E}.
Arguments atLoopHead {E}.
Arguments afterRetry {E}.

End Retry.

(* ================================================================== *)
(** * Circuit breaker ([src/utils/retry.ts], [CircuitBreaker]) *)
(* ================================================================== *)

Module Breaker.

Local Open Scope Z_scope.

Inductive CircuitState := CLOSED | OPEN | HALF_OPEN.

Record CircuitBreakerConfig := mkConfig {
  failureThreshold : Z;
  recoveryTimeout : Z;
  monitoringPeriod : Z;
  minimumRequests : Z
}.

Definition DEFAULT_CIRCUIT_CONFIG : CircuitBreakerConfig :=
  {| failureThreshold := 5; recoveryTimeout := 60000;
     monitoringPeriod := 10000; minimumRequests := 10 |}.

(** The private [stats] object. *)
Record Stats := mkStats {
  requests : Z;
  failures : Z;
  lastFailureTime : Z;
  windowStart : Z
}.

(** A [CircuitBreaker] instance. *)
Record CircuitBreaker := mkBreaker {
  name : string;
  config : CircuitBreakerConfig;
  state : CircuitState;
  stats : Stats
}.

(** The breaker together with the environment counters: how many times
    [Date.now()] was read and how many times the wrapped operation was
    invoked. *)
Record World := mkWorld {
  this : CircuitBreaker;
  ticks : nat;
  invocations : nat
}.

Inductive Settled (T E : Type) :=
  | Resolved (v : T)
  | RejectedOpen (message : string)   (* the breaker's own [Error] *)
  | Rejected (e : E).                 (* the operation's error, rethrown *)
Arguments Resolved {T E} v.
Arguments RejectedOpen {T E} message.
Arguments Rejected {T E} e.

(** What the part of [execute] before [await] gives: the breaker's own
    error, thrown at once, or the promise returned by the operation, given
    by the outcome it will settle to. *)
Inductive Started (T E : Type) :=
  | Refused (message : string)
  | Pending (r : Retry.Outcome T E).
Arguments Refused {T E} message.
Arguments Pending {T E} r.

Definition M (A : Type) : Type := World -> A * World.

Definition ret {A} (a : A) : M A := fun w => (a, w).

Definition bind {A B} (m : M A) (k : A -> M B) : M B :=
  fun w => let (a, w') := m w in k a w'.

Notation "x <- m ;; k" := (bind m (fun x => k))
  (at level 61, m at next level, right associativity).
Notation "m ;;; k" := (bind m (fun _ => k))
  (at level 61, right associativity).

Definition get : M CircuitBreaker := fun w => (this w, w).

Definition put (b : CircuitBreaker) : M unit :=
  fun w => (tt, {| this := b; ticks := ticks w; invocations := invocations w |}).

Definition setState (s : CircuitState) (b : CircuitBreaker) : CircuitBreaker :=
  {| name := name b; config := config b; state := s; stats := stats b |}.

Definition setStats (s : Stats) (b : CircuitBreaker) : CircuitBreaker :=
  {| name := name b; config := config b; state := state b; stats := s |}.

Section Run.

Variables T E : Type.

(** The [i]-th reading of [Date.now()] and the outcome of the [i]-th
    invocation of the wrapped operation. *)
Variable clock : nat -> Z.
Variable operation : nat -> Retry.Outcome T E.

Definition dateNow : M Z :=
  fun w => (clock (ticks w),
            {| this := this w; ticks := S (ticks w);
               invocations := invocations w |}).

Definition invoke : M (Retry.Outcome T E) :=
  fun w => (operation (invocations w),
            {| this := this w; ticks := ticks w;
               invocations := S (invocations w) |}).

(** [new CircuitBreaker(name, config)]: the field initialisers read the
    clock once. *)
Definition create (nm : string) (cfg : CircuitBreakerConfig) (t n : nat)
    : World :=
  {| this := {| name := nm; config := cfg; state := CLOSED;
                stats := {| requests := 0; failures := 0;
                            lastFailureTime := 0;
                            windowStart := clock t |} |};
     ticks := S t; invocations := n |}.

(** [resetStats]. *)
Definition resetStats : M unit :=
  t <- dateNow ;;
  b <- get ;;
  put (setStats {| requests := 0; failures := 0; lastFailureTime := 0;
                   windowStart := t |} b).

(** [updateState]. *)
Definition updateState : M unit :=
  now <- dateNow ;;
  b <- get ;;
  (if monitoringPeriod (config b) <? now - windowStart (stats b)
   then resetStats else ret tt) ;;;
  b <- get ;;
  if match state b with OPEN => true | _ => false end
     && (recoveryTimeout (config b) <? now - lastFailureTime (stats b))
  then put (setState HALF_OPEN b)
  else ret tt.

(** [onSuccess]. *)
Definition onSuccess : M unit :=
  b <- get ;;
  match state b with
  | HALF_OPEN => put (setState CLOSED b) ;;; resetStats
  | _ => ret tt
  end.

(** [onFailure].  (The [failureRate] it also computes is only logged.) *)
Definition onFailure : M unit :=
  b <- get ;;
  put (setStats {| requests := requests (stats b);
                   failures := failures (stats b) + 1;
                   lastFailureTime := lastFailureTime (stats b);
                   windowStart := windowStart (stats b) |} b) ;;;
  t <- dateNow ;;
  b <- get ;;
  put (setStats {| requests := requests (stats b);
                   failures := failures (stats b);
                   lastFailureTime := t;
                   windowStart := windowStart (stats b) |} b) ;;;
  b <- get ;;
  if (failureThreshold (config b) <=? failures (stats b))
     && (minimumRequests (config b) <=? requests (stats b))
  then put (setState OPEN b)
  else ret tt.

(** [CircuitBreaker.execute] up to its [await]: the state update, the
    test of the state, the count of the request and the call of the
    operation run without interruption (logging is left out). *)
Definition start : M (Started T E) :=
  updateState ;;;
  b <- get ;;
  match state b with
  | OPEN =>
      ret (Refused ("Circuit breaker is OPEN for: " ++ name b)%string)
  | _ =>
      put (setStats {| requests := requests (stats b) + 1;
                       failures := failures (stats b);
                       lastFailureTime := lastFailureTime (stats b);
                       windowStart := windowStart (stats b) |} b) ;;;
      r <- invoke ;;
      ret (Pending r)
  end.

(** [CircuitBreaker.execute] from its [await] on, when the promise of the
    operation has settled: it runs on the breaker as it is at that time,
    which other calls may have changed since [start]. *)
Definition settle (r : Retry.Outcome T E) : M (Settled T E) :=
  match r with
  | Retry.Ok v => onSuccess ;;; ret (Resolved v)
  | Retry.Err e => onFailure ;;; ret (Rejected e)
  end.

(** One call of [CircuitBreaker.execute] during which nothing else touches
    the breaker: the operation settles before any other call begins. *)
Definition execute : M (Settled T E) :=
  s <- start ;;
  match s with
  | Refused message => ret (RejectedOpen message)
  | Pending r => settle r
  end.

(** [n] calls of [execute], one after the other. *)
Fixpoint executeMany (n : nat) (w : World) : World :=
  match n with
  | O => w
  | S n' => executeMany n' (snd (execute w))
  end.

(** Calls that overlap.  The breaker with the calls that have begun and
    whose operation has not settled yet, oldest first. *)
Record Calls := mkCalls {
  world : World;
  pending : list (Retry.Outcome T E)
}.

(** What the event loop can run next: the synchronous part of a new call,
    or the continuation of the [i]-th pending call. *)
Inductive Event :=
  | Begin
  | Finish (i : nat).

Fixpoint removeAt {A : Type} (i : nat) (l : list A) : list A :=
  match l, i with
  | [], _ => []
  | _ :: rest, O => rest
  | x :: rest, S i' => x :: removeAt i' rest
  end.

Definition step (ev : Event) (c : Calls) : Calls :=
  match ev with
  | Begin =>
      match start (world c) with
      | (Refused _, w) => {| world := w; pending := pending c |}
      | (Pending r, w) => {| world := w; pending := pending c ++ [r] |}
      end
  | Finish i =>
      match nth_error (pending c) i with
      | Some r => {| world := snd (settle r (world c));
                     pending := removeAt i (pending c) |}
      | None => c
      end
  end.

(** A schedule: the events in the order in which they run. *)
Fixpoint run (schedule : list Event) (c : Calls) : Calls :=
  match schedule with
  | [] => c
  | ev :: rest => run rest (step ev c)
  end.

End Run.

Arguments dateNow : clear implicits.
Arguments invoke {T E}.
Arguments start {T E}.
Arguments settle {T E}.
Arguments execute {T E}.
Arguments executeMany {T E}.
Arguments world {T E}.
Arguments pending {T E}.
Arguments mkCalls {T E}.
Arguments step {T E}.
Arguments run {T E}.

(** The interface [CircuitStats], as returned by [getStats]. *)
Record CircuitStats := mkCircuitStats {
  statsState : CircuitState;
  statsRequests : Z;
  statsFailures : Z;
  successRate : Q;
  statsLastFailureTime : Z
}.

(** [CircuitBreaker.getStats]. *)
Definition getStats (b : CircuitBreaker) : CircuitStats :=
  {| statsState := state b;
     statsRequests := requests (stats b);
     statsFailures := failures (stats b);
     successRate :=
       if 0 <? requests (stats b)
       then (inject_Z (requests (stats b) - failures (stats b))
             / inject_Z (requests (stats b)))%Q
       else 0%Q;
     statsLastFailureTime := lastFailureTime (stats b) |}.

(** The counters of a breaker make sense: no more failures than requests. *)
Definition countersOk (b : CircuitBreaker) : Prop :=
  0 <= failures (stats b) <= requests (stats b).

End Breaker.

(* ================================================================== *)
(** * Graceful shutdown ([src/utils/graceful-shutdown.ts]) *)
(* ================================================================== *)

Module Shutdown.

Local Open Scope Z_scope.

Inductive ShutdownReason :=
  | SIGTERM | SIGINT | UNCAUGHT_EXCEPTION | UNHANDLED_REJECTION | MANUAL.

Section Manager.

(** The cleanup closures, [() => Promise<void>]. *)
Variable ShutdownHandler : Type.

(** An element of the [shutdownHandlers] array. *)
Record Entry := mkEntry {
  name : string;
  handler : ShutdownHandler;
  timeout : Z
}.

(** The fields of [GracefulShutdownManager]. *)
Record Manager := mkManager {
  shutdownHandlers : list Entry;
  isShuttingDown : bool;
  shutdownTimeout : Z
}.

(** The process: the singleton manager, the handler calls made so far
    (oldest first, each with the array index of the entry it was taken
    from), the [shutdown] calls that passed the guard and are waiting for
    the batch, and the exit status once [process.exit] ran. *)
Record Process := mkProcess {
  manager : Manager;
  called : list (nat * Entry);
  waiting : list ShutdownReason;
  exited : option Z
}.

(** [new GracefulShutdownManager()] in a fresh process. *)
Definition start : Process :=
  {| manager := {| shutdownHandlers := []; isShuttingDown := false;
                   shutdownTimeout := 30000 |};
     called := []; waiting := []; exited := None |}.

(** [registerHandler(name, handler, timeout = 10000)]. *)
Definition registerHandler (nm : string) (h : ShutdownHandler)
    (t : option Z) (p : Process) : Process :=
  let m := manager p in
  {| manager :=
       {| shutdownHandlers :=
            shutdownHandlers m ++
            [{| name := nm; handler := h;
                timeout := match t with Some x => x | None => 10000 end |}];
          isShuttingDown := isShuttingDown m;
          shutdownTimeout := shutdownTimeout m |};
     called := called p; waiting := waiting p; exited := exited p |}.

(** [setShutdownTimeout]. *)
Definition setShutdownTimeout (t : Z) (p : Process) : Process :=
  let m := manager p in
  {| manager := {| shutdownHandlers := shutdownHandlers m;
                   isShuttingDown := isShuttingDown m;
                   shutdownTimeout := t |};
     called := called p; waiting := waiting p; exited := exited p |}.

(** The array with its indices, as [Array.prototype.map] visits it. *)
Definition indexed (l : list Entry) : list (nat * Entry) :=
  combine (seq 0 (List.length l)) l.

(** [shutdown(reason)] up to its [await]: the guard, the flag, and the
    [map] that calls every handler (inside [executeHandlerWithTimeout]). *)
Definition shutdown (reason : ShutdownReason) (p : Process) : Process :=
  let m := manager p in
  if isShuttingDown m then p
  else
    {| manager := {| shutdownHandlers := shutdownHandlers m;
                     isShuttingDown := true;
                     shutdownTimeout := shutdownTimeout m |};
       called := called p ++ indexed (shutdownHandlers m);
       waiting := waiting p ++ [reason];
       exited := exited p |}.

(** The status given to [process.exit] in the [finally] block. *)
Definition exitStatus (reason : ShutdownReason) : Z :=
  match reason with
  | UNCAUGHT_EXCEPTION | UNHANDLED_REJECTION => 1
  | _ => 0
  end.

(** The rest of [shutdown] after the [await] (the batch settled or the
    global timeout fired): [process.exit]. *)
Definition settle (p : Process) : Process :=
  match waiting p with
  | [] => p
  | reason :: rest =>
      {| manager := manager p; called := called p; waiting := rest;
         exited := Some (exitStatus reason) |}
  end.

(** What can happen to the process. *)
Inductive Event :=
  | Register (nm : string) (h : ShutdownHandler) (t : option Z)
  | SetTimeout (t : Z)
  | CallShutdown (reason : ShutdownReason)
  | Settle.

(** One event; nothing runs once the process has exited. *)
Definition step (p : Process) (ev : Event) : Process :=
  match exited p with
  | Some _ => p
  | None =>
      match ev with
      | Register nm h t => registerHandler nm h t p
      | SetTimeout t => setShutdownTimeout t p
      | CallShutdown reason => shutdown reason p
      | Settle => settle p
      end
  end.

Definition run (evs : list Event) (p : Process) : Process :=
  fold_left step evs p.

(** How many times the handler of array index [i] has been called. *)
Definition timesCalled (i : nat) (p : Process) : nat :=
  List.length (filter (fun c => Nat.eqb (fst c) i) (called p)).

(** What holds of every process state: before the flag is set no handler
    has been called; afterwards the calls made are those of one pass over
    an array. *)
Definition consistent (p : Process) : Prop :=
  if isShuttingDown (manager p)
  then exists l, called p = indexed l
  else called p = [].

(** The reason given to the first [shutdown] call of an event sequence. *)
Fixpoint firstShutdown (evs : list Event) : option ShutdownReason :=
  match evs with
  | [] => None
  | CallShutdown reason :: _ => Some reason
  | _ :: rest => firstShutdown rest
  end.

(** The entries registered before the first [shutdown] call of an event
    sequence, in registration order. *)
Fixpoint registeredBefore (evs : list Event) : list Entry :=
  match evs with
  | [] => []
  | CallShutdown _ :: _ => []
  | Register nm h t :: rest =>
      {| name := nm; handler := h;
         timeout := match t with Some x => x | None => 10000 end |}
      :: registeredBefore rest
  | _ :: rest => registeredBefore rest
  end.

End Manager.

Arguments name {ShutdownHandler}.
Arguments handler {ShutdownHandler}.
Arguments timeout {ShutdownHandler}.
Arguments shutdownHandlers {ShutdownHandler}.
Arguments isShuttingDown {ShutdownHandler}.
Arguments shutdownTimeout {ShutdownHandler}.
Arguments manager {ShutdownHandler}.
Arguments called {ShutdownHandler}.
Arguments waiting {ShutdownHandler}.
Arguments exited {ShutdownHandler}.
Arguments start {ShutdownHandler}.
Arguments registerHandler {ShutdownHandler}.
Arguments indexed {ShutdownHandler}.
Arguments shutdown {ShutdownHandler}.
Arguments settle {ShutdownHandler}.
Arguments step {ShutdownHandler}.
Arguments run {ShutdownHandler}.
Arguments timesCalled {ShutdownHandler}.
Arguments consistent {ShutdownHandler}.
Arguments firstShutdown {ShutdownHandler}.
Arguments registeredBefore {ShutdownHandler}.
Arguments setShutdownTimeout {ShutdownHandler}.
Arguments Register {ShutdownHandler}.
Arguments SetTimeout {ShutdownHandler}.
Arguments CallShutdown {ShutdownHandler}.
Arguments Settle {ShutdownHandler}.

End Shutdown.

(* ================================================================== *)
(** * Timeout manager and robust executor ([src/utils/retry.ts]) *)
(* ================================================================== *)

Module Robust.

Local Open Scope string_scope.

(** What [Promise.race([operation(), timeoutPromise])] sees for one
    invocation of the operation: it settles before the timer does, or the
    timer fires first. *)
Inductive Raced (T : Type) :=
  | Settles (o : Retry.Outcome T Errors.unknown)
  | TimerFirst.
Arguments Settles {T} o.
Arguments TimerFirst {T}.

(** The private [circuitBreakers] map of [RobustExecutor]. *)
Definition Breakers := list (string * Breaker.CircuitBreaker).

(** [Map.prototype.get] / [has]. *)
Fixpoint lookup (name : string) (m : Breakers)
    : option Breaker.CircuitBreaker :=
  match m with
  | [] => None
  | (k, b) :: rest => if (k =? name) then Some b else lookup name rest
  end.

(** The breaker stored under [name] changes state: the map holds the
    object itself. *)
Fixpoint store (name : string) (b : Breaker.CircuitBreaker) (m : Breakers)
    : Breakers :=
  match m with
  | [] => []
  | (k, b0) :: rest =>
      if (k =? name) then (k, b) :: rest else (k, b0) :: store name b rest
  end.

(** The executor with its environment counters: the breakers, the number
    of [Date.now()] reads, the number of invocations of the caller's
    operation, and the retry loop's own counters (how often it invoked the
    wrapped operation, draws of [Math.random()], sleeps). *)
Record World := mkWorld {
  circuitBreakers : Breakers;
  ticks : nat;
  calls : nat;
  attempts : Retry.World
}.

(** The [config] argument of [RobustExecutor.execute]. *)
Record Options := mkOptions {
  operationName : string;
  timeoutMs : option Z;
  retryConfig : option (Retry.RetryConfig Errors.unknown);
  circuitConfig : option Breaker.CircuitBreakerConfig;
  enableCircuitBreaker : option bool
}.

Definition M (A : Type) : Type := World -> A * World.

Definition ret {A} (a : A) : M A := fun w => (a, w).

Definition bind {A B} (m : M A) (k : A -> M B) : M B :=
  fun w => let (a, w') := m w in k a w'.

Notation "x <- m ;; k" := (bind m (fun x => k))
  (at level 61, m at next level, right associativity).
Notation "m ;;; k" := (bind m (fun _ => k))
  (at level 61, right associativity).

(** A step of the retry mechanism run on the executor's world. *)
Definition lift {A} (m : Retry.M A) : M A :=
  fun w => let (a, r) := m (attempts w) in
           (a, {| circuitBreakers := circuitBreakers w; ticks := ticks w;
                  calls := calls w; attempts := r |}).

(** What a [CircuitBreaker.execute] call settles to, as the retry loop's
    [catch] receives it: the circuit-open rejection is a plain [Error]. *)
Definition toOutcome {T} (s : Breaker.Settled T Errors.unknown)
    : Retry.Outcome T Errors.unknown :=
  match s with
  | Breaker.Resolved v => Retry.Ok v
  | Breaker.RejectedOpen msg =>
      Retry.Err (Errors.UError {| Errors.err_name := "Error";
                                  Errors.err_message := msg;
                                  Errors.err_json := Errors.Rendered "{}" |})
  | Breaker.Rejected e => Retry.Err e
  end.

Section Executor.

Variable T : Type.

(** The environment: the clock, what the race of the [i]-th invocation of
    the caller's operation against its timer gives, the ISO timestamp taken
    when the timer of that invocation fires, and [Math.random()]. *)
Variable clock : nat -> Z.
Variable raced : nat -> Raced T.
Variable firedAt : nat -> string.
Variable random : nat -> Q.
Variable pow : Doubles.Double -> Z -> Doubles.Double.

(** What [TimeoutManager.execute(operation, timeoutMs, operationName)]
    settles to when it makes the [i]-th invocation of the operation. *)
Definition timeoutOutcome (ms : Z) (opName : string) (i : nat)
    : Retry.Outcome T Errors.unknown :=
  match raced i with
  | Settles o => o
  | TimerFirst =>
      Retry.Err (Errors.UBase
        (Errors.TimeoutError (firedAt i) ("Operation timed out: " ++ opName)
           ms "TIMEOUT_001" None))
  end.

(** [TimeoutManager.execute]. *)
Definition timeoutOperation (ms : Z) (opName : string)
    : M (Retry.Outcome T Errors.unknown) :=
  fun w => (timeoutOutcome ms opName (calls w),
            {| circuitBreakers := circuitBreakers w; ticks := ticks w;
               calls := S (calls w); attempts := attempts w |}).

(** [RobustExecutor.getCircuitBreaker]. *)
Definition getCircuitBreaker (name : string)
    (config : Breaker.CircuitBreakerConfig) : M Breaker.CircuitBreaker :=
  fun w =>
    match lookup name (circuitBreakers w) with
    | Some b => (b, w)
    | None =>
        let created := Breaker.create clock name config (ticks w) (calls w) in
        (Breaker.this created,
         {| circuitBreakers :=
              (circuitBreakers w ++ [(name, Breaker.this created)])%list;
            ticks := Breaker.ticks created;
            calls := calls w; attempts := attempts w |})
    end.

(** [circuitBreaker.execute(timeoutOperation)] on the breaker of [name]. *)
Definition throughBreaker (ms : Z) (name : string)
    (config : Breaker.CircuitBreakerConfig)
    : M (Retry.Outcome T Errors.unknown) :=
  b <- getCircuitBreaker name config ;;
  fun w =>
    let (s, bw) :=
      Breaker.execute clock (timeoutOutcome ms name)
        {| Breaker.this := b; Breaker.ticks := ticks w;
           Breaker.invocations := calls w |} in
    (toOutcome s,
     {| circuitBreakers := store name (Breaker.this bw) (circuitBreakers w);
        ticks := Breaker.ticks bw;
        calls := Breaker.invocations bw;
        attempts := attempts w |}).

(** One invocation of [finalOperation] by the retry loop. *)
Definition finalOperation (enabled : bool) (ms : Z) (name : string)
    (config : Breaker.CircuitBreakerConfig)
    : M (Retry.Outcome T Errors.unknown) :=
  lift (fun r => (tt, {| Retry.invocations := S (Retry.invocations r);
                         Retry.draws := Retry.draws r;
                         Retry.slept := Retry.slept r |})) ;;;
  if enabled then throughBreaker ms name config
  else timeoutOperation ms name.

(** The loop of [RetryMechanism.execute] around [finalOperation]. *)
Fixpoint attemptLoop (fuel : nat) (enabled : bool) (ms : Z) (name : string)
    (breakerConfig : Breaker.CircuitBreakerConfig)
    (config : Retry.RetryConfig Errors.unknown) (attempt : Z)
    (lastError : option Errors.unknown)
    : M (option (Retry.Settled T Errors.unknown)) :=
  match fuel with
  | O => ret None
  | S fuel' =>
      if (attempt <=? Retry.maxAttempts config)%Z then
        r <- finalOperation enabled ms name breakerConfig ;;
        match r with
        | Retry.Ok v => ret (Some (Retry.Resolved v))
        | Retry.Err error =>
            if (attempt =? Retry.maxAttempts config)%Z
               || negb (Retry.retryableErrors config error)
            then ret (Some (Retry.Rejected (Some error)))
            else
              delay <- lift (Retry.calculateDelay random pow attempt config) ;;
              lift (Retry.sleep delay) ;;;
              attemptLoop fuel' enabled ms name breakerConfig config
                (attempt + 1)%Z (Some error)
        end
      else ret (Some (Retry.Rejected lastError))
  end.

(** [RobustExecutor.execute], with the defaults of its destructuring. *)
Definition execute (options : Options)
    : M (option (Retry.Settled T Errors.unknown)) :=
  let ms := match timeoutMs options with Some x => x | None => 30000%Z end in
  let config := match retryConfig options with
                | Some c => c
                | None => Retry.DEFAULT_RETRY_CONFIG
                end in
  let breakerConfig := match circuitConfig options with
                       | Some c => c
                       | None => Breaker.DEFAULT_CIRCUIT_CONFIG
                       end in
  let enabled := match enableCircuitBreaker options with
                 | Some b => b
                 | None => true
                 end in
  attemptLoop (S (Z.to_nat (Retry.maxAttempts config))) enabled ms
    (operationName options) breakerConfig config 1%Z None.

End Executor.

(** The defaults [execute] fills in. *)
Definition timeoutOf (options : Options) : Z :=
  match timeoutMs options with Some x => x | None => 30000%Z end.

Definition retryOf (options : Options) : Retry.RetryConfig Errors.unknown :=
  match retryConfig options with
  | Some c => c
  | None => Retry.DEFAULT_RETRY_CONFIG
  end.

Definition circuitOf (options : Options) : Breaker.CircuitBreakerConfig :=
  match circuitConfig options with
  | Some c => c
  | None => Breaker.DEFAULT_CIRCUIT_CONFIG
  end.

Definition enabledOf (options : Options) : bool :=
  match enableCircuitBreaker options with Some b => b | None => true end.

(** The [Error] an open breaker named [name] throws. *)
Definition circuitOpenError (name : string) : Errors.unknown :=
  Errors.UError {| Errors.err_name := "Error";
                   Errors.err_message :=
                     "Circuit breaker is OPEN for: " ++ name;
                   Errors.err_json := Errors.Rendered "{}" |}.

(** The breaker configuration in force for [name]: that of the breaker the
    map holds, else the one passed in. *)
Definition configInForce (name : string)
    (config : Breaker.CircuitBreakerConfig) (w : World)
    : Breaker.CircuitBreakerConfig :=
  match lookup name (circuitBreakers w) with
  | Some b => Breaker.config b
  | None => config
  end.

Arguments timeoutOutcome {T}.
Arguments timeoutOperation {T}.
Arguments throughBreaker {T}.
Arguments finalOperation {T}.
Arguments attemptLoop {T}.
Arguments execute {T}.

(** [new RobustExecutor()] with nothing run yet. *)
Definition fresh : World :=
  {| circuitBreakers := []; ticks := 0; calls := 0; attempts := Retry.init |}.

End Robust.

(* ================================================================== *)
(** * Error responses of the handlers ([src/handlers/base-handler.ts]) *)
(* ================================================================== *)

Module Handler.

Local Open Scope string_scope.

(** The interface [MCPResponse]; every element of [content] has type
    ['text'], so only its [text] is kept. *)
Record MCPResponse := mkResponse {
  content : list string;
  isError : option bool
}.

(** The two line feeds of the template literal. *)
Definition blankLine : string :=
  String (ascii_of_nat 10) (String (ascii_of_nat 10) EmptyString).

Section Format.

(** [new Date().toISOString()] at the time of the call,
    [process.env.NODE_ENV === 'production'], and [String(error)] for a
    value that is neither an [Error] nor a string: it calls the value's own
    [toString], which can throw (it does for [Object.create(null)]). *)
Variable now : string.
Variable production : bool.
Variable stringOf : Errors.unknown -> Errors.Completion string.

(** [error instanceof Error ? error.message : String(error)]. *)
Definition debugInfo (error : Errors.unknown) : Errors.Completion string :=
  match error with
  | Errors.UBase e => Errors.Returns (Errors.message e)
  | Errors.UError e => Errors.Returns (Errors.err_message e)
  | Errors.UString s => Errors.Returns s
  | Errors.UOther _ => stringOf error
  end.

(** [BaseHandler.formatErrorResponse]: the classification comes first, so
    the call throws when the classification or [String(error)] does. *)
Definition formatErrorResponse (operation : string) (error : Errors.unknown)
    : Errors.Completion MCPResponse :=
  match Errors.fromGenericError now error (Some operation) with
  | Errors.Throws => Errors.Throws
  | Errors.Returns classifiedError =>
      let userMessage :=
        if production then Errors.getSafeMessage classifiedError
        else Errors.message classifiedError in
      match debugInfo error with
      | Errors.Throws => Errors.Throws
      | Errors.Returns raw =>
          Errors.Returns
            {| content := ["Error " ++ operation ++ ": " ++ userMessage
                           ++ blankLine ++ "Debug info: " ++ raw];
               isError := Some true |}
      end
  end.

End Format.

End Handler.

(* ================================================================== *)
(** * Concrete configurations, operations and environments *)
(* ================================================================== *)

Module Scenarios.

Local Open Scope Q_scope.

(** A connection failure, which [isRetryableError] accepts, and a thrown
    string, which it does not. *)
Definition networkDown : Errors.unknown :=
  Errors.UError {| Errors.err_name := "Error";
                   Errors.err_message := "connect ECONNREFUSED 10.0.0.1:443";
                   Errors.err_json := Errors.Rendered "{}" |}.


Definition alwaysDown : nat -> Retry.Outcome nat Errors.unknown :=
  fun _ => Retry.Err networkDown.



(** The default profile with six attempts instead of three. *)
Definition sixAttempts : Retry.RetryConfig Errors.unknown :=
  {| Retry.maxAttempts := 6; Retry.initialDelay := Doubles.Num 1000;
     Retry.maxDelay := Doubles.Num 10000; Retry.backoffFactor := Doubles.Num 2;
     Retry.jitter := true; Retry.retryableErrors := Retry.isRetryableError |}.

(** The default profile with an initial delay of 1001 ms. *)
Definition oddInitialDelay : Retry.RetryConfig Errors.unknown :=
  {| Retry.maxAttempts := 3; Retry.initialDelay := Doubles.Num 1001;
     Retry.maxDelay := Doubles.Num 10000; Retry.backoffFactor := Doubles.Num 2;
     Retry.jitter := true; Retry.retryableErrors := Retry.isRetryableError |}.

(** [Math.random()] returning always 0, always 0.5, always 0.75. *)
Definition lowDraw : nat -> Q := fun _ => 0.
Definition midDraw : nat -> Q := fun _ => 1 # 2.
Definition highDraw : nat -> Q := fun _ => 3 # 4.

(** A clock that advances 500 ms between consecutive readings. *)
Definition steadyClock : nat -> Z :=
  fun i => (1000000 + 500 * Z.of_nat i)%Z.

(** A breaker with the default configuration, created at the first clock
    reading, and the same breaker after ten failing calls. *)
Definition freshBreaker : Breaker.World :=
  Breaker.create steadyClock "getCase" Breaker.DEFAULT_CIRCUIT_CONFIG 0 0.

Definition trippedBreaker : Breaker.World :=
  Breaker.executeMany steadyClock alwaysDown 10 freshBreaker.

(** Three registered handlers, and a shutdown requested three times before
    the process exits. *)
Definition threeHandlers : list (Shutdown.Event nat) :=
  [Shutdown.Register "http" 0%nat None;
   Shutdown.Register "db" 1%nat (Some 5000%Z);
   Shutdown.Register "cache" 2%nat None].

Definition signalStorm : list (Shutdown.Event nat) :=
  threeHandlers ++
  [Shutdown.CallShutdown Shutdown.SIGTERM;
   Shutdown.CallShutdown Shutdown.SIGINT;
   Shutdown.CallShutdown Shutdown.UNCAUGHT_EXCEPTION;
   Shutdown.Settle].

(** The same breaker after nine failing calls only. *)
Definition nineFailures : Breaker.World :=
  Breaker.executeMany steadyClock alwaysDown 9 freshBreaker.

(** An operation that always succeeds, and a clock whose readings are
    1000 s later than those of [steadyClock]. *)
Definition alwaysUp : nat -> Retry.Outcome nat Errors.unknown :=
  fun _ => Retry.Ok 7%nat.

Definition lateClock : nat -> Z :=
  fun i => (steadyClock i + 1000000)%Z.

(** A clock that advances 100 ms between readings, and a breaker that saw
    ten failing calls under it. *)
Definition fastClock : nat -> Z :=
  fun i => (1000000 + 100 * Z.of_nat i)%Z.

Definition quicklyTripped : Breaker.World :=
  Breaker.executeMany fastClock alwaysDown 10
    (Breaker.create fastClock "getCase" Breaker.DEFAULT_CIRCUIT_CONFIG 0 0).

(** The tripped breaker after the call that found its window expired: it is
    [HALF_OPEN] with one request and one failure. *)
Definition probing : Breaker.World :=
  snd (Breaker.execute steadyClock alwaysDown trippedBreaker).

(** Three calls that overlap: a clock that stands still for the creation
    of the breaker and the first two calls and reads 20 s later from then
    on, and a schedule in which three calls begin before the two oldest
    settle. *)
Definition windowPasses : nat -> Z :=
  fun i => if (i <? 3)%nat then 1000000%Z else 1020000%Z.

Definition threeOverlapping : list Breaker.Event :=
  [Breaker.Begin; Breaker.Begin; Breaker.Begin;
   Breaker.Finish 0; Breaker.Finish 0].

Definition noCalls : Breaker.Calls nat Errors.unknown :=
  {| Breaker.world :=
       Breaker.create windowPasses "getCase" Breaker.DEFAULT_CIRCUIT_CONFIG
         0 0;
     Breaker.pending := [] |}.

(** The breaker after nine failing calls, with a tenth call begun. *)
Definition tenthPending : Breaker.Calls nat Errors.unknown :=
  Breaker.step steadyClock alwaysDown Breaker.Begin
    {| Breaker.world := nineFailures; Breaker.pending := [] |}.

(** What [fetch] throws when the connection cannot be made. *)
Definition fetchFailed : Errors.unknown :=
  Errors.UError {| Errors.err_name := "TypeError";
                   Errors.err_message := "fetch failed";
                   Errors.err_json := Errors.Rendered "{}" |}.

(** The default profile without jitter. *)
(** Two thousand attempts without any delay between them. *)
Definition noInitialDelay : Retry.RetryConfig Errors.unknown :=
  {| Retry.maxAttempts := 2000; Retry.initialDelay := Doubles.Num 0;
     Retry.maxDelay := Doubles.Num 10000;
     Retry.backoffFactor := Doubles.Num (5 # 2);
     Retry.jitter := false; Retry.retryableErrors := Retry.isRetryableError |}.

Definition plainBackoff : Retry.RetryConfig Errors.unknown :=
  {| Retry.maxAttempts := 3; Retry.initialDelay := Doubles.Num 1000;
     Retry.maxDelay := Doubles.Num 10000; Retry.backoffFactor := Doubles.Num 2;
     Retry.jitter := false; Retry.retryableErrors := Retry.isRetryableError |}.

(** For the robust executor: an operation that hangs on its first two
    invocations and then resolves, one that always resolves, and the
    timestamp every timer firing gets. *)
Definition hangsTwice : nat -> Robust.Raced nat :=
  fun i => if (i <? 2)%nat then Robust.TimerFirst
           else Robust.Settles (Retry.Ok 42%nat).

Definition settlesAtOnce : nat -> Robust.Raced nat :=
  fun _ => Robust.Settles (Retry.Ok 7%nat).

Definition firedAtNoon : nat -> string :=
  fun _ => "2025-01-01T12:00:00.000Z"%string.

(** The options of [BaseHandler] in a test environment (breaker off) but
    with the default retry profile, and options that only name the operation
    and pass a stricter breaker configuration. *)
Definition withoutBreaker : Robust.Options :=
  {| Robust.operationName := "getCase";
     Robust.timeoutMs := Some 30000%Z;
     Robust.retryConfig := None;
     Robust.circuitConfig := None;
     Robust.enableCircuitBreaker := Some false |}.

Definition strictBreaker : Robust.Options :=
  {| Robust.operationName := "getCase";
     Robust.timeoutMs := None;
     Robust.retryConfig := None;
     Robust.circuitConfig :=
       Some {| Breaker.failureThreshold := 1; Breaker.recoveryTimeout := 5000;
               Breaker.monitoringPeriod := 1000;
               Breaker.minimumRequests := 1 |};
     Robust.enableCircuitBreaker := None |}.

(** An executor whose breaker for [getCase] is the one tripped under
    [fastClock]. *)
Definition executorWithOpenBreaker : Robust.World :=
  {| Robust.circuitBreakers := [("getCase"%string,
                                 Breaker.this quicklyTripped)];
     Robust.ticks := Breaker.ticks quicklyTripped;
     Robust.calls := Breaker.invocations quicklyTripped;
     Robust.attempts := Retry.init |}.

End Scenarios.

(** Unfolding one call of the breaker in a goal. *)
Ltac breaker_unfold :=
  cbv [Breaker.execute Breaker.start Breaker.settle
       Breaker.updateState Breaker.onSuccess
       Breaker.onFailure Breaker.resetStats Breaker.bind Breaker.ret
       Breaker.get Breaker.put Breaker.dateNow Breaker.invoke
       Breaker.setState Breaker.setStats];
  cbn [Breaker.this Breaker.ticks Breaker.invocations Breaker.state
       Breaker.stats Breaker.config Breaker.name Breaker.requests
       Breaker.failures Breaker.lastFailureTime Breaker.windowStart
       fst snd].

Ltac breaker_step :=
  cbn [Breaker.this Breaker.ticks Breaker.invocations Breaker.state
       Breaker.stats Breaker.config Breaker.name Breaker.requests
       Breaker.failures Breaker.lastFailureTime Breaker.windowStart
       fst snd andb].

(** Case analysis on every test a call of the breaker makes. *)
Ltac breaker_cases :=
  repeat (breaker_step;
          match goal with
          | |- context [if ?c then _ else _] => destruct c eqn:?
          | |- context [match Breaker.state ?b with _ => _ end] =>
              destruct (Breaker.state b) eqn:?
          | |- context [match ?o with Retry.Ok _ => _ | Retry.Err _ => _ end] =>
              destruct o eqn:?
          end);
  breaker_step.

(* ================================================================== *)
(** * Properties of the error classifier *)
(* ================================================================== *)

Section ClassifierFacts.

Import Errors.
Local Open Scope string_scope.
Local Open Scope Z_scope.

Variables (now statusText : string) (body : option string)
          (originalError : option JsError).

Let classify (s : Z) : ErrorMetadata :=
  metadata (fromHttpResponse now s statusText body originalError).

(** A status outside the [switch] reaches the [default] branch, whose two
    arms build the same [ApiClientError]. *)
Lemma fromHttpResponse_default (s : Z) :
  namedStatus s = false ->
  fromHttpResponse now s statusText body originalError =
  ApiClientError now ("HTTP " ++ numToString s ++ ": " ++ statusText)
    (Some s) body ("HTTP_" ++ numToString s) originalError.
Proof.
  unfold namedStatus, fromHttpResponse; cbn [existsb].
  intros H.
  repeat (apply orb_false_elim in H; destruct H as [? H]).
  repeat match goal with
         | h : (s =? ?k) = false |- _ => rewrite h; clear h
         end.
  cbn [orb]. destruct (500 <=? s); reflexivity.
Qed.

(** C3, as amended: every 4xx status other than 400, 401, 403, 404, 408,
    422 and 429 is classified as [API_CLIENT], and its metadata has
    [retryable = false] (only 429 and the statuses from 500 on are
    retryable [ApiClientError]s). *)
Theorem other_4xx_api_client_not_retryable (s : Z) :
  400 <= s < 500 ->
  namedStatus s = false ->
  category (classify s) = API_CLIENT /\ retryable (classify s) = false.
Proof.
  intros Hrange Hnamed. unfold classify.
  rewrite fromHttpResponse_default by assumption.
  cbn. split; [reflexivity|].
  assert (Hs429 : (s =? 429) = false).
  { unfold namedStatus in Hnamed; cbn [existsb] in Hnamed.
    repeat (apply orb_false_elim in Hnamed; destruct Hnamed as [? Hnamed]).
    assumption. }
  rewrite Hs429.
  replace (s =? 0) with false by (symmetry; apply Z.eqb_neq; lia).
  replace (500 <=? s) with false by (symmetry; apply Z.leb_gt; lia).
  reflexivity.
Qed.

(** C7: the status table of [fromHttpResponse].  The statuses from 500 on
    are all retryable; they are [API_CLIENT] except 504, which the table
    lists as [TIMEOUT]. *)
Theorem status_table :
  (category (classify 401) = AUTHENTICATION /\ retryable (classify 401) = false) /\
  (category (classify 403) = AUTHORIZATION /\ retryable (classify 403) = false) /\
  (category (classify 400) = VALIDATION /\ retryable (classify 400) = false) /\
  (category (classify 422) = VALIDATION /\ retryable (classify 422) = false) /\
  (category (classify 429) = API_CLIENT /\ retryable (classify 429) = true) /\
  (category (classify 408) = TIMEOUT /\ retryable (classify 408) = true) /\
  (category (classify 504) = TIMEOUT /\ retryable (classify 504) = true) /\
  (category (classify 404) = RESOURCE /\ retryable (classify 404) = true) /\
  (forall s, 500 <= s ->
     category (classify s) = (if s =? 504 then TIMEOUT else API_CLIENT) /\
     retryable (classify s) = true).
Proof.
  repeat (split; [split; reflexivity|]).
  intros s Hs. unfold classify.
  destruct (s =? 504) eqn:H504.
  - apply Z.eqb_eq in H504; subst s. split; reflexivity.
  - rewrite fromHttpResponse_default.
    + cbn. replace (s =? 0) with false by (symmetry; apply Z.eqb_neq; lia).
      replace (500 <=? s) with true by (symmetry; apply Z.leb_le; lia).
      split; reflexivity.
    + unfold namedStatus; cbn [existsb]. rewrite H504.
      repeat match goal with
             | |- context [s =? ?k] =>
                 replace (s =? k) with false by (symmetry; apply Z.eqb_neq; lia)
             end.
      reflexivity.
Qed.

(** C8: an error that is already a [BaseError] is returned as it is,
    without anything being built or serialised, so classifying the result of
    a classification changes nothing, whatever the clock and the context
    string of the second call are (a classification that throws has no
    result to classify again). *)
Theorem fromGenericError_idempotent :
  (forall (e : BaseError) (ctx : option string),
      fromGenericError now (UBase e) ctx = Returns e) /\
  (forall (now' : string) (error : unknown) (ctx ctx' : option string),
      match fromGenericError now error ctx with
      | Returns e =>
          fromGenericError now' (UBase e) ctx' = fromGenericError now error ctx
      | Throws => True
      end).
Proof.
  split; intros; [reflexivity|].
  destruct (fromGenericError now error ctx); [reflexivity | exact I].
Qed.

End ClassifierFacts.

(** C3 as stated fails at status 402: the error is an [API_CLIENT] error
    but its metadata says [retryable = false]. *)
Lemma other_4xx_retryable_counterexample :
  400 <= 402 < 500 /\
  Errors.namedStatus 402 = false /\
  Errors.category (Errors.metadata
    (Errors.fromHttpResponse "2025-01-01T00:00:00.000Z" 402
       "Payment Required" None None)) = Errors.API_CLIENT /\
  Errors.retryable (Errors.metadata
    (Errors.fromHttpResponse "2025-01-01T00:00:00.000Z" 402
       "Payment Required" None None)) <> true.
Proof.
  split; [lia|]. split; [reflexivity|]. split; [reflexivity|].
  cbn. discriminate.
Qed.

(** The amended C3 at status 418. *)
Lemma other_4xx_api_client_not_retryable_witness :
  Errors.category (Errors.metadata
    (Errors.fromHttpResponse "2025-01-01T00:00:00.000Z" 418
       "I'm a teapot" None None)) = Errors.API_CLIENT /\
  Errors.retryable (Errors.metadata
    (Errors.fromHttpResponse "2025-01-01T00:00:00.000Z" 418
       "I'm a teapot" None None)) = false.
Proof.
  apply (other_4xx_api_client_not_retryable
           "2025-01-01T00:00:00.000Z" "I'm a teapot" None None 418).
  - lia.
  - reflexivity.
Defined.

(** The last row of the table at status 503. *)
Lemma status_table_witness :
  Errors.category (Errors.metadata
    (Errors.fromHttpResponse "2025-01-01T00:00:00.000Z" 503
       "Service Unavailable" (Some "busy"%string) None)) = Errors.API_CLIENT /\
  Errors.retryable (Errors.metadata
    (Errors.fromHttpResponse "2025-01-01T00:00:00.000Z" 503
       "Service Unavailable" (Some "busy"%string) None)) = true.
Proof.
  apply (status_table "2025-01-01T00:00:00.000Z" "Service Unavailable"
           (Some "busy"%string) None).
  lia.
Defined.

(* ================================================================== *)
(** * Properties of double-precision arithmetic *)
(* ================================================================== *)

Section DoubleFacts.

Import Doubles.
Local Open Scope Q_scope.

Lemma pow2_pos (k : Z) : 0 < pow2 k.
Proof. apply Qpower_0_lt. reflexivity. Qed.

Lemma pow2_plus (a b : Z) : pow2 (a + b) == pow2 a * pow2 b.
Proof. apply Qpower_plus. discriminate. Qed.

Lemma pow2_le (a b : Z) : (a <= b)%Z -> pow2 a <= pow2 b.
Proof. intros H. apply Qpower_le_compat_l; [exact H | discriminate]. Qed.

Lemma pow2_lt (a b : Z) : (a < b)%Z -> pow2 a < pow2 b.
Proof. intros H. apply Qpower_lt_compat_l; [exact H | reflexivity]. Qed.

Lemma pow2_lt_inv (a b : Z) : pow2 a < pow2 b -> (a < b)%Z.
Proof. intros H. apply (Qpower_lt_compat_l_inv 2); [exact H | reflexivity]. Qed.

Lemma pow2_Z (k : Z) : (0 <= k)%Z -> pow2 k == inject_Z (2 ^ k).
Proof. intros H. unfold pow2. rewrite Zpower_Qpower by exact H. reflexivity. Qed.

Lemma pow2_minus (a b : Z) : pow2 (a - b) == pow2 a / pow2 b.
Proof. apply Qpower_minus. discriminate. Qed.

(** [ilog2 q] is the exponent of the binade of [q]. *)
Lemma ilog2_spec (q : Q) :
  0 < q -> pow2 (ilog2 q) <= q /\ q < pow2 (ilog2 q + 1).
Proof.
  intros Hq. destruct q as [a b]. unfold ilog2. cbn [Qnum Qden].
  assert (Ha : (0 < a)%Z) by (unfold Qlt in Hq; cbn in Hq; lia).
  pose proof (Z.log2_spec a Ha) as [Hla1 Hla2].
  pose proof (Z.log2_spec (Zpos b) (Pos2Z.is_pos b)) as [Hlb1 Hlb2].
  pose proof (Z.log2_nonneg a) as Hla0.
  pose proof (Z.log2_nonneg (Zpos b)) as Hlb0.
  set (la := Z.log2 a) in *. set (lb := Z.log2 (Zpos b)) in *.
  assert (Hq' : a # b == inject_Z a / inject_Z (Zpos b)) by apply Qmake_Qdiv.
  assert (Hbpos : 0 < inject_Z (Zpos b)) by reflexivity.
  assert (Hlow : pow2 (la - lb - 1) < a # b).
  { replace (la - lb - 1)%Z with (la - (lb + 1))%Z by lia.
    rewrite pow2_minus, Hq'.
    apply Qlt_shift_div_l; [exact Hbpos|].
    unfold Qdiv. rewrite <- Qmult_assoc, (Qmult_comm (/ _)), Qmult_assoc.
    apply Qlt_shift_div_r; [apply pow2_pos|].
    rewrite !pow2_Z by lia. rewrite <- !inject_Z_mult, <- Zlt_Qlt.
    replace (Z.succ la) with (la + 1)%Z in * by lia.
    replace (Z.succ lb) with (lb + 1)%Z in * by lia.
    nia. }
  assert (Hhigh : a # b < pow2 (la - lb + 1)).
  { replace (la - lb + 1)%Z with ((la + 1) - lb)%Z by lia.
    rewrite pow2_minus, Hq'.
    apply Qlt_shift_div_r; [exact Hbpos|].
    unfold Qdiv. rewrite <- Qmult_assoc, (Qmult_comm (/ _)), Qmult_assoc.
    apply Qlt_shift_div_l; [apply pow2_pos|].
    rewrite !pow2_Z by lia. rewrite <- !inject_Z_mult, <- Zlt_Qlt.
    replace (Z.succ la) with (la + 1)%Z in * by lia.
    replace (Z.succ lb) with (lb + 1)%Z in * by lia.
    nia. }
  destruct (Qle_bool (pow2 (la - lb)) (a # b)) eqn:Hk.
  - apply Qle_bool_iff in Hk. split; [exact Hk | exact Hhigh].
  - split; [apply Qlt_le_weak; exact Hlow|].
    replace (la - lb - 1 + 1)%Z with (la - lb)%Z by lia.
    apply Qnot_le_lt. intros Hle. apply Qle_bool_iff in Hle. congruence.
Qed.

Lemma ilog2_mono (x y : Q) : 0 < x -> x <= y -> (ilog2 x <= ilog2 y)%Z.
Proof.
  intros Hx Hxy.
  assert (Hy : 0 < y) by (eapply Qlt_le_trans; eassumption).
  destruct (ilog2_spec x Hx) as [Hx1 _].
  destruct (ilog2_spec y Hy) as [_ Hy2].
  assert (H : pow2 (ilog2 x) < pow2 (ilog2 y + 1)).
  { eapply Qle_lt_trans; [exact Hx1|].
    eapply Qle_lt_trans; [exact Hxy | exact Hy2]. }
  apply pow2_lt_inv in H. lia.
Qed.

Lemma nearestEven_bounds (x : Q) :
  (Qfloor x <= nearestEven x <= Qfloor x + 1)%Z.
Proof.
  unfold nearestEven.
  destruct (Qcompare (x - inject_Z (Qfloor x)) (1 # 2));
    try destruct (Z.even (Qfloor x)); lia.
Qed.

Lemma nearestEven_mono (x y : Q) : x <= y -> (nearestEven x <= nearestEven y)%Z.
Proof.
  intros Hxy.
  pose proof (Qfloor_resp_le x y Hxy) as Hf.
  pose proof (nearestEven_bounds x) as Hx.
  pose proof (nearestEven_bounds y) as Hy.
  destruct (Z.eq_dec (Qfloor x) (Qfloor y)) as [Heq|Hne]; [|lia].
  unfold nearestEven. rewrite <- Heq.
  destruct (Qcompare_spec (x - inject_Z (Qfloor x)) (1 # 2)) as [Hx1|Hx1|Hx1];
    destruct (Qcompare_spec (y - inject_Z (Qfloor x)) (1 # 2)) as [Hy1|Hy1|Hy1];
    try destruct (Z.even (Qfloor x)); try lia; exfalso; lra.
Qed.

Lemma nearestEven_Z (x : Q) (n : Z) : x == inject_Z n -> nearestEven x = n.
Proof.
  intros Hx. unfold nearestEven.
  assert (Hf : Qfloor x = n) by (rewrite Hx; apply Qfloor_Z).
  rewrite Hf.
  destruct (Qcompare_spec (x - inject_Z n) (1 # 2)) as [H|H|H];
    [exfalso; lra | reflexivity | exfalso; lra].
Qed.

Lemma quantum_pos (q : Q) : 0 < quantum q.
Proof. apply pow2_pos. Qed.

Lemma roundPos_upper (x : Q) :
  0 < x -> roundPos x <= pow2 (expo x + 1).
Proof.
  intros Hx. unfold roundPos, quantum.
  destruct (ilog2_spec x Hx) as [_ Hhigh].
  assert (Hle : x <= pow2 (expo x + 1)).
  { apply Qlt_le_weak. eapply Qlt_le_trans; [exact Hhigh|].
    apply pow2_le. unfold expo. lia. }
  assert (Hq : pow2 (expo x + 1) == inject_Z (2 ^ 53) * pow2 (expo x - 52)).
  { rewrite <- pow2_Z by lia. rewrite <- pow2_plus.
    replace (53 + (expo x - 52))%Z with (expo x + 1)%Z by lia. reflexivity. }
  rewrite Hq. apply Qmult_le_compat_r; [|apply Qlt_le_weak, pow2_pos].
  rewrite <- Zle_Qle.
  apply Z.le_trans with (nearestEven (inject_Z (2 ^ 53))).
  - apply nearestEven_mono.
    apply Qle_shift_div_r; [apply pow2_pos|].
    rewrite <- Hq. exact Hle.
  - rewrite (nearestEven_Z _ (2 ^ 53)) by reflexivity. apply Z.le_refl.
Qed.

Lemma roundPos_lower (x : Q) :
  0 < x -> (-1022 <= ilog2 x)%Z -> pow2 (expo x) <= roundPos x.
Proof.
  intros Hx Hnormal. unfold roundPos, quantum.
  destruct (ilog2_spec x Hx) as [Hlow _].
  assert (He : expo x = ilog2 x) by (unfold expo; lia).
  assert (Hq : pow2 (expo x) == inject_Z (2 ^ 52) * pow2 (expo x - 52)).
  { rewrite <- pow2_Z by lia. rewrite <- pow2_plus.
    replace (52 + (expo x - 52))%Z with (expo x) by lia. reflexivity. }
  rewrite Hq at 1. apply Qmult_le_compat_r; [|apply Qlt_le_weak, pow2_pos].
  rewrite <- Zle_Qle.
  apply Z.le_trans with (nearestEven (inject_Z (2 ^ 52))).
  - rewrite (nearestEven_Z _ (2 ^ 52)) by reflexivity. apply Z.le_refl.
  - apply nearestEven_mono.
    apply Qle_shift_div_l; [apply pow2_pos|].
    rewrite <- Hq. rewrite He. exact Hlow.
Qed.

Lemma roundPos_mono (x y : Q) : 0 < x -> x <= y -> roundPos x <= roundPos y.
Proof.
  intros Hx Hxy.
  assert (Hy : 0 < y) by (eapply Qlt_le_trans; eassumption).
  pose proof (ilog2_mono x y Hx Hxy) as Hlog.
  destruct (Z.eq_dec (expo x) (expo y)) as [Heq|Hne].
  - unfold roundPos, quantum. rewrite Heq.
    apply Qmult_le_compat_r; [|apply Qlt_le_weak, pow2_pos].
    rewrite <- Zle_Qle. apply nearestEven_mono.
    apply Qmult_le_compat_r; [exact Hxy|].
    apply Qlt_le_weak, Qinv_lt_0_compat, pow2_pos.
  - assert (Hlt : (expo x < expo y)%Z) by (unfold expo in *; lia).
    eapply Qle_trans; [apply roundPos_upper; exact Hx|].
    eapply Qle_trans; [|apply roundPos_lower; [exact Hy | unfold expo in *; lia]].
    apply pow2_le. lia.
Qed.

Lemma roundPos_nonneg (x : Q) : 0 < x -> 0 <= roundPos x.
Proof.
  intros Hx. unfold roundPos.
  apply Qmult_le_0_compat; [|apply Qlt_le_weak, quantum_pos].
  change 0 with (inject_Z 0). rewrite <- Zle_Qle.
  pose proof (nearestEven_bounds (x / quantum x)) as Hb.
  assert (0 <= Qfloor (x / quantum x))%Z; [|lia].
  rewrite <- (Qfloor_Z 0). apply Qfloor_resp_le.
  apply Qle_shift_div_l; [apply quantum_pos|].
  change (inject_Z 0) with 0. rewrite Qmult_0_l. apply Qlt_le_weak, Hx.
Qed.

(** Rounding moves a number by at most half the distance between the
    doubles around it. *)
Lemma roundPos_error (x : Q) :
  Qabs (roundPos x - x) <= quantum x * (1 # 2).
Proof.
  unfold roundPos. pose proof (quantum_pos x) as Hq.
  set (y := x / quantum x).
  assert (Hx : x == y * quantum x).
  { unfold y. field. intros Hc. rewrite Hc in Hq. discriminate Hq. }
  assert (Hy : Qabs (inject_Z (nearestEven y) - y) <= 1 # 2).
  { pose proof (Qfloor_le y) as Hlo. pose proof (Qlt_floor y) as Hhi.
    rewrite inject_Z_plus in Hhi. change (inject_Z 1) with 1 in Hhi.
    unfold nearestEven.
    destruct (Qcompare_spec (y - inject_Z (Qfloor y)) (1 # 2)) as [H|H|H];
      try destruct (Z.even (Qfloor y));
      rewrite ?inject_Z_plus; change (inject_Z 1) with 1;
      apply Qabs_Qle_condition; split; lra. }
  setoid_replace (inject_Z (nearestEven y) * quantum x - x)
    with ((inject_Z (nearestEven y) - y) * quantum x)
    by (rewrite Hx at 2; ring).
  rewrite Qabs_Qmult, (Qabs_pos (quantum x)) by (apply Qlt_le_weak, Hq).
  rewrite (Qmult_comm (quantum x)).
  apply Qmult_le_compat_r; [exact Hy | apply Qlt_le_weak, Hq].
Qed.

(** Rounding never reverses the order of two numbers. *)
Lemma ofQ_mono (x y : Q) : x <= y -> le (ofQ x) (ofQ y).
Proof.
  intros Hxy. unfold le, ofQ.
  destruct (Qcompare_spec x 0) as [Hx|Hx|Hx];
    destruct (Qcompare_spec y 0) as [Hy|Hy|Hy];
    try (exfalso; lra); cbv zeta.
  - reflexivity.
  - destruct (Qle_bool (pow2 1024) (roundPos y)); [reflexivity|].
    unfold leb. apply Qle_bool_iff. rewrite Qred_correct.
    apply roundPos_nonneg. exact Hy.
  - destruct (Qle_bool (pow2 1024) (roundPos (- x))); [reflexivity|].
    unfold leb. apply Qle_bool_iff. rewrite Qred_correct.
    assert (0 <= roundPos (- x)) by (apply roundPos_nonneg; lra). lra.
  - assert (Hm : roundPos (- y) <= roundPos (- x))
      by (apply roundPos_mono; lra).
    destruct (Qle_bool (pow2 1024) (roundPos (- x))) eqn:Hox;
      destruct (Qle_bool (pow2 1024) (roundPos (- y))) eqn:Hoy;
      try reflexivity.
    + apply Qle_bool_iff in Hoy.
      assert (Hc : Qle_bool (pow2 1024) (roundPos (- x)) = true)
        by (apply Qle_bool_iff; lra).
      congruence.
    + unfold leb. apply Qle_bool_iff. rewrite !Qred_correct. lra.
  - destruct (Qle_bool (pow2 1024) (roundPos (- x)));
      destruct (Qle_bool (pow2 1024) (roundPos y)); try reflexivity.
    unfold leb. apply Qle_bool_iff. rewrite !Qred_correct.
    assert (0 <= roundPos (- x)) by (apply roundPos_nonneg; lra).
    assert (0 <= roundPos y) by (apply roundPos_nonneg; lra). lra.
  - assert (Hm : roundPos x <= roundPos y) by (apply roundPos_mono; lra).
    destruct (Qle_bool (pow2 1024) (roundPos y)) eqn:Hoy;
      destruct (Qle_bool (pow2 1024) (roundPos x)) eqn:Hox;
      try reflexivity.
    + apply Qle_bool_iff in Hox.
      assert (Hc : Qle_bool (pow2 1024) (roundPos y) = true)
        by (apply Qle_bool_iff; lra).
      congruence.
    + unfold leb. apply Qle_bool_iff. rewrite !Qred_correct. exact Hm.
Qed.

Lemma le_Num (a b : Q) : le (Num a) (Num b) <-> a <= b.
Proof. unfold le, leb. apply Qle_bool_iff. Qed.

Lemma le_not_NaN_l (a b : Double) : le a b -> a <> NaN.
Proof. destruct a, b; cbv [le leb]; congruence. Qed.

Lemma le_not_NaN_r (a b : Double) : le a b -> b <> NaN.
Proof. destruct a, b; cbv [le leb]; congruence. Qed.

Lemma dle_refl (d : Double) : d <> NaN -> le d d.
Proof.
  destruct d; intros H; try reflexivity; [|congruence].
  apply le_Num. apply Qle_refl.
Qed.

Lemma dle_trans (a b c : Double) : le a b -> le b c -> le a c.
Proof.
  destruct a, b, c; cbv [le leb]; try congruence.
  rewrite !Qle_bool_iff. apply Qle_trans.
Qed.

Lemma le_PosInfinity (d : Double) : d <> NaN -> le d PosInfinity.
Proof. destruct d; intros H; try reflexivity; congruence. Qed.

Lemma NegInfinity_le (d : Double) : d <> NaN -> le NegInfinity d.
Proof. destruct d; intros H; try reflexivity; congruence. Qed.

Lemma ofQ_not_NaN (q : Q) : ofQ q <> NaN.
Proof.
  unfold ofQ. destruct (Qcompare q 0); cbv zeta;
    try destruct (Qle_bool _ _); discriminate.
Qed.

(** A double between two finite doubles is finite. *)
Lemma between_Num (a b : Q) (d : Double) :
  le (Num a) d -> le d (Num b) -> exists q, d = Num q /\ a <= q /\ q <= b.
Proof.
  destruct d; cbv [le leb]; try congruence.
  rewrite !Qle_bool_iff. intros Ha Hb. exists q. auto.
Qed.

Lemma floor_NaN (d : Double) : floor d = NaN <-> d = NaN.
Proof. destruct d; cbn; split; congruence. Qed.

Lemma floor_le (d : Double) : d <> NaN -> le (floor d) d.
Proof.
  destruct d; intros H; try reflexivity; [|congruence].
  apply le_Num. apply Qfloor_le.
Qed.

Lemma floor_mono (a b : Double) : le a b -> le (floor a) (floor b).
Proof.
  destruct a, b; cbv [le leb floor]; try congruence.
  rewrite !Qle_bool_iff. intros H. rewrite <- Zle_Qle.
  apply Qfloor_resp_le. exact H.
Qed.

Lemma floor_nonneg (d : Double) : le (Num 0) d -> le (Num 0) (floor d).
Proof. intros H. apply (floor_mono (Num 0) d H). Qed.

Lemma min_NaN (a b : Double) : min a b = NaN <-> a = NaN \/ b = NaN.
Proof.
  destruct a, b; cbn; try destruct (Qle_bool _ _);
    split; intros H; try destruct H; congruence || auto.
Qed.

Lemma min_le_r (a b : Double) : min a b <> NaN -> le (min a b) b.
Proof.
  destruct a, b; cbn; intros H; try reflexivity; try congruence.
  - destruct (Qle_bool q q0) eqn:Hle.
    + exact Hle.
    + apply le_Num. apply Qle_refl.
  - apply le_Num. apply Qle_refl.
Qed.

Lemma min_le_l (a b : Double) : min a b <> NaN -> le (min a b) a.
Proof.
  destruct a, b; cbn; intros H; try reflexivity; try congruence.
  - destruct (Qle_bool q q0) eqn:Hle.
    + apply le_Num. apply Qle_refl.
    + apply le_Num. apply Qlt_le_weak. apply Qnot_le_lt.
      intros Hc. apply Qle_bool_iff in Hc. congruence.
  - apply le_Num. apply Qle_refl.
Qed.

(** [Math.min] is the greatest lower bound. *)
Lemma min_glb (a b c : Double) : le c a -> le c b -> le c (min a b).
Proof.
  destruct a as [x| | |], b as [y| | |], c as [z| | |];
    cbv [le leb min]; try congruence.
  all: intros Hx Hy; try destruct (Qle_bool x y); assumption.
Qed.

Lemma min_mono_l (a a' b : Double) :
  le a a' -> b <> NaN -> le (min a b) (min a' b).
Proof.
  intros Ha Hb.
  assert (Hmin : min a b <> NaN).
  { rewrite min_NaN. intros [H|H]; [|congruence].
    apply le_not_NaN_l in Ha. congruence. }
  apply min_glb.
  - eapply dle_trans; [apply min_le_l; exact Hmin | exact Ha].
  - apply min_le_r. exact Hmin.
Qed.

Lemma mul_NaN_pos (d : Double) (f : Q) :
  0 < f -> (mul d (Num f) = NaN <-> d = NaN).
Proof.
  intros Hf. apply Qgt_alt in Hf.
  destruct d; cbn; rewrite ?Hf; split; intros H;
    try congruence; try (exfalso; eapply ofQ_not_NaN; eassumption).
Qed.

Lemma mul_mono_r (a b : Double) (f : Q) :
  0 < f -> le a b -> le (mul a (Num f)) (mul b (Num f)).
Proof.
  intros Hf Hab. pose proof Hf as Hgt. apply Qgt_alt in Hgt.
  destruct a, b; cbv [le leb] in Hab; try congruence; cbn; rewrite ?Hgt;
    try reflexivity.
  - apply ofQ_mono. apply Qle_bool_iff in Hab.
    apply Qmult_le_compat_r; [exact Hab | apply Qlt_le_weak; exact Hf].
  - apply le_PosInfinity. apply ofQ_not_NaN.
  - apply NegInfinity_le. apply ofQ_not_NaN.
Qed.

Lemma mul_mono_factor (m : Double) (f g : Q) :
  le (Num 0) m -> 0 < f -> f <= g ->
  le (mul m (Num f)) (mul m (Num g)).
Proof.
  intros Hm Hf Hfg.
  assert (Hg : 0 < g) by (eapply Qlt_le_trans; eassumption).
  apply Qgt_alt in Hf, Hg.
  destruct m; cbv [le leb] in Hm; try congruence; cbn; rewrite ?Hf, ?Hg;
    try reflexivity.
  apply ofQ_mono. apply Qle_bool_iff in Hm.
  rewrite !(Qmult_comm q). apply Qmult_le_compat_r; assumption.
Qed.

Lemma ofQ_nonneg (q : Q) : 0 <= q -> le (Num 0) (ofQ q).
Proof. intros H. apply (ofQ_mono 0 q H). Qed.

Lemma mul_nonneg_factor (d : Double) (f : Q) :
  le (Num 0) d -> 0 < f -> le (Num 0) (mul d (Num f)).
Proof.
  intros Hd Hf. pose proof Hf as Hgt. apply Qgt_alt in Hgt.
  destruct d; cbv [le leb] in Hd; try congruence; cbn; rewrite ?Hgt;
    try reflexivity.
  apply ofQ_nonneg. apply Qle_bool_iff in Hd.
  apply Qmult_le_0_compat; [exact Hd | apply Qlt_le_weak; exact Hf].
Qed.

(** A product of two non-negative numbers is non-negative, unless it is
    [NaN] (zero times infinity). *)
Lemma mul_nonneg (a b : Double) :
  le (Num 0) a -> le (Num 0) b -> mul a b <> NaN -> le (Num 0) (mul a b).
Proof.
  destruct a, b; cbv [le leb]; try congruence; cbn;
    rewrite ?Qle_bool_iff; intros Ha Hb Hn.
  - apply ofQ_nonneg. apply Qmult_le_0_compat; assumption.
  - destruct (Qcompare_spec q 0); try reflexivity; [congruence|].
    exfalso. lra.
  - destruct (Qcompare_spec q 0); try reflexivity; [congruence|].
    exfalso. lra.
  - reflexivity.
Qed.

(** Scaling by a finite non-negative number keeps the order of two
    non-negative factors, unless the larger product is [NaN]. *)
Lemma mul_mono_l (x : Q) (p q : Double) :
  0 <= x -> le (Num 0) p -> le p q -> mul (Num x) q <> NaN ->
  le (mul (Num x) p) (mul (Num x) q).
Proof.
  intros Hx.
  destruct p as [y| | |], q as [z| | |];
    cbv [le leb]; try congruence; cbn;
    rewrite ?Qle_bool_iff; intros Hp Hpq Hn.
  - apply ofQ_mono. rewrite !(Qmult_comm x).
    apply Qmult_le_compat_r; assumption.
  - destruct (Qcompare_spec x 0); try congruence.
    + exfalso. lra.
    + apply le_PosInfinity. apply ofQ_not_NaN.
  - destruct (Qcompare_spec x 0); try congruence; reflexivity.
Qed.

(** [0.75 + r * 0.5] for [r] in [[0, 1)]: a finite double between 0.75 and
    1.25, both included. *)
Lemma jitter_range (r : Q) :
  0 <= r -> r < 1 ->
  exists f, add (Num (3 # 4)) (mul (Num r) (Num (1 # 2))) = Num f /\
            3 # 4 <= f /\ f <= 5 # 4.
Proof.
  intros Hlo Hhi. cbn [mul].
  assert (H0 : ofQ 0 = Num 0) by reflexivity.
  assert (Hhalf : ofQ (1 # 2) = Num (1 # 2)) by (vm_compute; reflexivity).
  assert (H34 : ofQ (3 # 4) = Num (3 # 4)) by (vm_compute; reflexivity).
  assert (H54 : ofQ (5 # 4) = Num (5 # 4)) by (vm_compute; reflexivity).
  destruct (between_Num 0 (1 # 2) (ofQ (r * (1 # 2)))) as [m [Hm [Hm0 Hm1]]].
  - rewrite <- H0. apply ofQ_mono. lra.
  - rewrite <- Hhalf. apply ofQ_mono. lra.
  - rewrite Hm. cbn [add].
    destruct (between_Num (3 # 4) (5 # 4) (ofQ ((3 # 4) + m)))
      as [f [Hf [Hf0 Hf1]]].
    + rewrite <- H34. apply ofQ_mono. lra.
    + rewrite <- H54. apply ofQ_mono. lra.
    + exists f. auto.
Qed.

Lemma total_le (bound : Q) (l : list Double) :
  Forall (fun d => d = NaN \/ le d (Num bound)) l ->
  forall t, total l = Some t ->
  t <= inject_Z (Z.of_nat (List.length l)) * bound.
Proof.
  induction 1 as [|d l Hd Hl IH]; intros t Ht.
  - cbn in Ht. injection Ht as <-. cbn [List.length Z.of_nat].
    change (inject_Z 0) with 0. rewrite Qmult_0_l. apply Qle_refl.
  - cbn [total] in Ht. destruct d as [q| | |]; try discriminate.
    destruct (total l) as [t'|]; [|discriminate]. injection Ht as <-.
    specialize (IH t' eq_refl).
    destruct Hd as [Hd|Hd]; [discriminate|]. apply le_Num in Hd.
    cbn [List.length]. rewrite Nat2Z.inj_succ. unfold Z.succ.
    rewrite inject_Z_plus. change (inject_Z 1) with 1. lra.
Qed.

Lemma total_None (bound : Q) (l : list Double) :
  Forall (fun d => d = NaN \/ le d (Num bound)) l ->
  total l = None ->
  exists d, In d l /\ (d = NaN \/ d = NegInfinity).
Proof.
  induction 1 as [|d l Hd Hl IH]; intros Ht.
  - discriminate Ht.
  - cbn [total] in Ht. destruct d as [q| | |].
    + destruct (total l); [discriminate|].
      destruct (IH eq_refl) as [d [Hin Hd']].
      exists d. split; [right; exact Hin | exact Hd'].
    + destruct Hd as [Hd|Hd]; discriminate Hd.
    + exists NegInfinity. split; [left; reflexivity | right; reflexivity].
    + exists NaN. split; [left; reflexivity | left; reflexivity].
Qed.

Lemma mathPow_exactPow (b : Q) (n : Z) :
  mathPow exactPow (Num b) n = ofQ (b ^ n).
Proof.
  unfold mathPow. destruct (Z.eqb_spec n 0) as [->|Hn]; reflexivity.
Qed.

(** The correctly rounded [Math.pow] is not negative for a base that is
    not negative. *)
Lemma exactPow_nonneg (b : Double) (n : Z) :
  le (Num 0) b -> le (Num 0) (mathPow exactPow b n).
Proof.
  destruct b as [q| | |]; cbv [le leb]; try congruence; intros Hb.
  - rewrite mathPow_exactPow. apply ofQ_nonneg. apply Qpower_0_le.
    apply Qle_bool_iff. exact Hb.
  - unfold mathPow. destruct n; reflexivity.
Qed.

(** For a base of at least 1 it does not decrease when the exponent
    grows. *)
Lemma exactPow_mono (b : Double) (m n : Z) :
  le (Num 1) b -> (m <= n)%Z ->
  le (Num 0) (mathPow exactPow b m) /\
  le (mathPow exactPow b m) (mathPow exactPow b n).
Proof.
  intros Hb Hmn. split.
  - apply exactPow_nonneg. eapply dle_trans; [|exact Hb]. reflexivity.
  - destruct b as [q| | |]; cbv [le leb] in Hb; try congruence.
    + rewrite !mathPow_exactPow. apply ofQ_mono.
      apply Qpower_le_compat_l; [exact Hmn|]. apply Qle_bool_iff. exact Hb.
    + unfold mathPow. destruct m, n; try reflexivity; lia.
Qed.

End DoubleFacts.

(* ================================================================== *)
(** * Properties of the retry delay *)
(* ================================================================== *)

Section DelayFacts.

Import Retry.
Local Open Scope Q_scope.

Variable E : Type.
Variable random : nat -> Q.
Variable pow : Doubles.Double -> Z -> Doubles.Double.

(** [Math.random()] returns a number in [[0, 1)]. *)
Hypothesis random_range : forall i, 0 <= random i /\ random i < 1.

Lemma jitterFactor_range (i : nat) :
  exists f, jitterFactor (random i) = Doubles.Num f /\
            3 # 4 <= f /\ f <= 5 # 4.
Proof.
  destruct (random_range i) as [Hlo Hhi]. unfold jitterFactor.
  apply jitter_range; assumption.
Qed.

Lemma exponentialDelay_NaN (attempt : Z) (config : RetryConfig E) :
  exponentialDelay pow attempt config = Doubles.NaN <->
  Doubles.mul (initialDelay config)
    (Doubles.mathPow pow (backoffFactor config) (attempt - 1)) = Doubles.NaN
  \/ maxDelay config = Doubles.NaN.
Proof. unfold exponentialDelay. apply min_NaN. Qed.

Lemma exponentialDelay_le_max (attempt : Z) (config : RetryConfig E) :
  exponentialDelay pow attempt config <> Doubles.NaN ->
  Doubles.le (exponentialDelay pow attempt config) (maxDelay config).
Proof. unfold exponentialDelay. apply min_le_r. Qed.

Lemma calculateDelay_no_jitter (attempt : Z) (config : RetryConfig E) (w : World) :
  jitter config = false ->
  calculateDelay random pow attempt config w
  = (exponentialDelay pow attempt config, w).
Proof. intros H. unfold calculateDelay. rewrite H. reflexivity. Qed.

Lemma calculateDelay_jitter (attempt : Z) (config : RetryConfig E) (w : World) :
  jitter config = true ->
  calculateDelay random pow attempt config w =
  (Doubles.floor
     (Doubles.mul (exponentialDelay pow attempt config)
        (jitterFactor (random (draws w)))),
   {| invocations := invocations w; draws := S (draws w); slept := slept w |}).
Proof. intros H. unfold calculateDelay. rewrite H. reflexivity. Qed.

(** The jittered delay is [NaN] exactly when the capped delay is, and
    otherwise at most the double product of [maxDelay] and the factor, hence
    at most that of [maxDelay] and 1.25 when [maxDelay] is not negative. *)
Lemma jittered_bound (attempt : Z) (config : RetryConfig E) (i : nat) :
  let delay :=
    Doubles.floor
      (Doubles.mul (exponentialDelay pow attempt config)
         (jitterFactor (random i))) in
  (delay = Doubles.NaN <->
   exponentialDelay pow attempt config = Doubles.NaN) /\
  (delay <> Doubles.NaN ->
   Doubles.le delay
     (Doubles.mul (maxDelay config) (jitterFactor (random i))) /\
   (Doubles.le (Doubles.Num 0) (maxDelay config) ->
    Doubles.le delay
      (Doubles.mul (maxDelay config) (Doubles.Num (5 # 4))))).
Proof.
  cbv zeta. destruct (jitterFactor_range i) as [f [Hf [Hlo Hhi]]].
  rewrite Hf. assert (Hpos : 0 < f) by lra.
  assert (Hnan : Doubles.floor
                   (Doubles.mul (exponentialDelay pow attempt config)
                      (Doubles.Num f)) = Doubles.NaN <->
                 exponentialDelay pow attempt config = Doubles.NaN).
  { rewrite floor_NaN. apply mul_NaN_pos. exact Hpos. }
  split; [exact Hnan|]. intros Hdelay.
  assert (He : exponentialDelay pow attempt config <> Doubles.NaN)
    by (intros Hc; apply Hdelay, Hnan, Hc).
  assert (Hmain : Doubles.le
                    (Doubles.floor
                       (Doubles.mul (exponentialDelay pow attempt config)
                          (Doubles.Num f)))
                    (Doubles.mul (maxDelay config) (Doubles.Num f))).
  { eapply dle_trans.
    - apply floor_le. intros Hc. apply Hdelay. apply floor_NaN. exact Hc.
    - apply mul_mono_r; [exact Hpos|].
      apply exponentialDelay_le_max. exact He. }
  split; [exact Hmain|].
  intros Hmax. eapply dle_trans; [exact Hmain|].
  apply mul_mono_factor; assumption.
Qed.

Lemma delay_NaN (attempt : Z) (config : RetryConfig E) (w : World) :
  Doubles.mul (initialDelay config)
    (Doubles.mathPow pow (backoffFactor config) (attempt - 1)) = Doubles.NaN
  \/ maxDelay config = Doubles.NaN ->
  fst (calculateDelay random pow attempt config w) = Doubles.NaN.
Proof.
  intros H. apply exponentialDelay_NaN in H.
  destruct (jitter config) eqn:Hj.
  - rewrite calculateDelay_jitter by assumption. cbn [fst].
    apply (jittered_bound attempt config (draws w)). exact H.
  - rewrite calculateDelay_no_jitter by assumption. exact H.
Qed.

(** C2, as amended.  The delay is [NaN] exactly when [maxDelay] or the
    product [initialDelay * Math.pow(backoffFactor, attempt - 1)] is (zero
    times an overflowed power).  Otherwise, without jitter the delay is at
    most [maxDelay]; with jitter it is at most the double-precision product
    of [maxDelay] and the jitter factor that was drawn, hence at most the
    double-precision product [maxDelay * 1.25] for a non-negative
    [maxDelay]: it can exceed [maxDelay]. *)
Theorem delay_bound (attempt : Z) (config : RetryConfig E) (w : World) :
  let delay := fst (calculateDelay random pow attempt config w) in
  (delay = Doubles.NaN <->
   Doubles.mul (initialDelay config)
     (Doubles.mathPow pow (backoffFactor config) (attempt - 1)) = Doubles.NaN
   \/ maxDelay config = Doubles.NaN) /\
  (jitter config = false -> delay <> Doubles.NaN ->
   Doubles.le delay (maxDelay config)) /\
  (jitter config = true -> delay <> Doubles.NaN ->
   Doubles.le delay
     (Doubles.mul (maxDelay config) (jitterFactor (random (draws w)))) /\
   (Doubles.le (Doubles.Num 0) (maxDelay config) ->
    Doubles.le delay
      (Doubles.mul (maxDelay config) (Doubles.Num (5 # 4))))).
Proof.
  cbv zeta. destruct (jitter config) eqn:Hj.
  - rewrite calculateDelay_jitter by assumption. cbn [fst].
    destruct (jittered_bound attempt config (draws w)) as [Hnan Hbound].
    split; [|split].
    + rewrite Hnan. apply exponentialDelay_NaN.
    + intros Hc. discriminate Hc.
    + intros _. exact Hbound.
  - rewrite calculateDelay_no_jitter by assumption. cbn [fst].
    split; [|split].
    + apply exponentialDelay_NaN.
    + intros _. apply exponentialDelay_le_max.
    + intros Hc. discriminate Hc.
Qed.

End DelayFacts.

(* ================================================================== *)
(** * Properties of [RetryMechanism.execute] *)
(* ================================================================== *)

Section ExecuteFacts.

Import Retry.

Variables T E : Type.
Variable operation : nat -> Outcome T E.
Variable random : nat -> Q.
Variable pow : Doubles.Double -> Z -> Doubles.Double.
Variable config : RetryConfig E.

Local Abbreviation loop := (attemptLoop operation random pow).

(** Computing the delay and sleeping do not touch the invocation count. *)
Lemma calculateDelay_invocations (attempt : Z) (w : World) :
  invocations (snd (calculateDelay random pow attempt config w)) = invocations w.
Proof.
  unfold calculateDelay. destruct (jitter config); reflexivity.
Qed.

(** One failed, retried iteration: the recursive call starts from a world
    with one more invocation. *)
Lemma loop_retry (fuel : nat) (attempt : Z) (lastError : option E)
    (w : World) (error : E) :
  (attempt <=? maxAttempts config)%Z = true ->
  operation (invocations w) = Err error ->
  (attempt =? maxAttempts config)%Z = false ->
  retryableErrors config error = true ->
  exists w1,
    invocations w1 = S (invocations w) /\
    loop (S fuel) config attempt lastError w =
    loop fuel config (attempt + 1)%Z (Some error) w1.
Proof.
  intros Hle Hop Hne Hretry.
  cbn [attemptLoop]. rewrite Hle.
  unfold bind at 1. unfold invoke at 1. rewrite Hop.
  rewrite Hne, Hretry. cbn [negb orb].
  unfold bind.
  destruct (calculateDelay random pow attempt config
              {| invocations := S (invocations w); draws := draws w;
                 slept := slept w |}) as [delay w2] eqn:Hd.
  pose proof (calculateDelay_invocations attempt
                {| invocations := S (invocations w); draws := draws w;
                   slept := slept w |}) as Hinv.
  rewrite Hd in Hinv. cbn in Hinv.
  eexists. split; [|reflexivity]. cbn. exact Hinv.
Qed.

(** The fuel given by [execute] is enough: the loop never stops for lack
    of it. *)
Lemma loop_enough_fuel (fuel : nat) :
  forall (attempt : Z) (lastError : option E) (w : World),
    (Z.to_nat (maxAttempts config - attempt) < fuel)%nat ->
    fst (loop fuel config attempt lastError w) <> None.
Proof.
  induction fuel as [|fuel IH]; intros attempt lastError w Hfuel; [lia|].
  cbn [attemptLoop].
  destruct (attempt <=? maxAttempts config)%Z eqn:Hle; [|cbn; discriminate].
  unfold bind at 1. unfold invoke at 1.
  destruct (operation (invocations w)) as [v|error]; [cbn; discriminate|].
  destruct ((attempt =? maxAttempts config)%Z
            || negb (retryableErrors config error)) eqn:Hstop;
    [cbn; discriminate|].
  apply orb_false_elim in Hstop. destruct Hstop as [Hne _].
  unfold bind.
  destruct (calculateDelay random pow attempt config _) as [delay w2].
  cbn [sleep]. apply IH.
  apply Z.leb_le in Hle. apply Z.eqb_neq in Hne. lia.
Qed.

Theorem execute_total (w : World) :
  exists r, fst (execute operation random pow config w) = Some r.
Proof.
  destruct (fst (execute operation random pow config w)) as [r|] eqn:Hr.
  - exists r; reflexivity.
  - exfalso. revert Hr. apply loop_enough_fuel. lia.
Qed.

(** [k] retryable failures followed by a success, seen from any iteration
    of the loop that still has [k] further attempts available. *)
Lemma loop_fail_then_succeed (k : nat) :
  forall (fuel : nat) (attempt : Z) (lastError : option E) (w : World) (v : T),
    (k < fuel)%nat ->
    (attempt + Z.of_nat k <= maxAttempts config)%Z ->
    (forall i, (i < k)%nat ->
       exists e, operation (invocations w + i)%nat = Err e /\
                 retryableErrors config e = true) ->
    operation (invocations w + k)%nat = Ok v ->
    fst (loop fuel config attempt lastError w) = Some (Resolved v) /\
    invocations (snd (loop fuel config attempt lastError w)) =
    (invocations w + k + 1)%nat.
Proof.
  induction k as [|k IH]; intros fuel attempt lastError w v Hfuel Hatt Hfail Hok.
  - destruct fuel as [|fuel]; [lia|].
    cbn [attemptLoop].
    replace (attempt <=? maxAttempts config)%Z with true
      by (symmetry; apply Z.leb_le; lia).
    unfold bind, invoke. rewrite Nat.add_0_r in Hok. rewrite Hok.
    cbn. split; [reflexivity | lia].
  - destruct fuel as [|fuel]; [lia|].
    destruct (Hfail 0%nat) as [e [He Hretry]]; [lia|].
    rewrite Nat.add_0_r in He.
    destruct (loop_retry fuel attempt lastError w e) as [w1 [Hinv Heq]];
      try assumption.
    + apply Z.leb_le; lia.
    + apply Z.eqb_neq; lia.
    + rewrite Heq.
      destruct (IH fuel (attempt + 1)%Z (Some e) w1 v) as [Hres Hcount].
      * lia.
      * lia.
      * intros i Hi. rewrite Hinv.
        replace (S (invocations w) + i)%nat
          with (invocations w + S i)%nat by lia.
        apply Hfail. lia.
      * rewrite Hinv.
        replace (S (invocations w) + k)%nat
          with (invocations w + S k)%nat by lia.
        exact Hok.
      * split; [exact Hres|]. rewrite Hcount, Hinv. lia.
Qed.




Local Abbreviation sleptAfter := (Retry.sleptAfter random pow config).
Local Abbreviation atLoopHead := (Retry.atLoopHead random pow config).

Lemma loop_slept (fuel : nat) :
  forall (attempt : Z) (lastError : option E) (w : World)
         (r : option (Settled T E)) (w' : World),
    atLoopHead w ->
    attempt = Z.of_nat (S (invocations w)) ->
    loop fuel config attempt lastError w = (r, w') ->
    forall j, (S j < invocations w')%nat ->
      nth_error (rev (slept w')) j = Some (sleptAfter j).
Proof.
  induction fuel as [|fuel IH]; intros attempt lastError w r w' Hw Hatt Hrun.
  - cbn in Hrun. inversion Hrun; subst. intros j Hj. apply Hw. lia.
  - pose proof Hw as [Hlen [Hdraws Hnth]].
    cbn [attemptLoop] in Hrun.
    destruct (attempt <=? maxAttempts config)%Z;
      [|inversion Hrun; subst; intros j Hj; apply Hnth; lia].
    unfold bind at 1 in Hrun. unfold invoke at 1 in Hrun.
    destruct (operation (invocations w)) as [v|error];
      [inversion Hrun; subst; cbn; intros j Hj; apply Hnth; lia|].
    destruct ((attempt =? maxAttempts config)%Z
              || negb (retryableErrors config error));
      [inversion Hrun; subst; cbn; intros j Hj; apply Hnth; lia|].
    unfold bind at 1 in Hrun.
    assert (Hcases : jitter config = true \/ jitter config = false)
      by (destruct (jitter config); auto).
    destruct Hcases as [Hjit|Hjit].
    + rewrite calculateDelay_jitter in Hrun by assumption.
      unfold bind at 1 in Hrun. cbn [sleep invocations draws slept] in Hrun.
      revert Hrun. apply IH; [|cbn [invocations]; lia].
      unfold Retry.atLoopHead. cbn [invocations draws slept].
      rewrite Hjit. cbn [List.length rev]. rewrite Hjit in Hdraws.
      split; [lia|]. split; [lia|].
      intros i Hi. destruct (Nat.eq_dec i (invocations w)) as [->|Hne].
      * rewrite nth_error_app2 by (rewrite length_rev; lia).
        rewrite length_rev, Hlen, Nat.sub_diag. cbn [nth_error].
        unfold Retry.sleptAfter. rewrite Hjit, Hdraws, Hatt. reflexivity.
      * rewrite nth_error_app1 by (rewrite length_rev; lia).
        apply Hnth. lia.
    + rewrite calculateDelay_no_jitter in Hrun by assumption.
      unfold bind at 1 in Hrun. cbn [sleep invocations draws slept] in Hrun.
      revert Hrun. apply IH; [|cbn [invocations]; lia].
      unfold Retry.atLoopHead. cbn [invocations draws slept].
      rewrite Hjit. cbn [List.length rev].
      split; [lia|]. split; [rewrite Hjit in Hdraws; exact Hdraws|].
      intros i Hi. destruct (Nat.eq_dec i (invocations w)) as [->|Hne].
      * rewrite nth_error_app2 by (rewrite length_rev; lia).
        rewrite length_rev, Hlen, Nat.sub_diag. cbn [nth_error].
        unfold Retry.sleptAfter. rewrite Hjit. rewrite Hatt. reflexivity.
      * rewrite nth_error_app1 by (rewrite length_rev; lia).
        apply Hnth. lia.
Qed.

(** C4, as amended: in a run of [execute], the delay slept after the
    failed attempt [a] (before attempt [a + 1]) is
    [Math.min(initialDelay * Math.pow(backoffFactor, a - 1), maxDelay)],
    computed in double precision, when jitter is off; when jitter is on it
    is the FLOOR of the double-precision product of that quantity and the
    factor [0.75 + Math.random() * 0.5], a double between 0.75 and 1.25,
    both included. *)
Theorem slept_delay_formula (a : nat) :
  (forall i, (0 <= random i /\ random i < 1)%Q) ->
  (1 <= a < invocations (snd (execute operation random pow config init)))%nat ->
  let base :=
    Doubles.min
      (Doubles.mul (initialDelay config)
         (Doubles.mathPow pow (backoffFactor config) (Z.of_nat a - 1)))
      (maxDelay config) in
  let factor :=
    Doubles.add (Doubles.Num (3 # 4))
      (Doubles.mul (Doubles.Num (random (a - 1)%nat))
         (Doubles.Num (1 # 2))) in
  nth_error (rev (slept (snd (execute operation random pow config init)))) (a - 1)
  = Some (if jitter config then Doubles.floor (Doubles.mul base factor)
          else base)
  /\ exists f, factor = Doubles.Num f /\ ((3 # 4) <= f /\ f <= (5 # 4))%Q.
Proof.
  intros Hrange Ha. cbv zeta. split.
  - unfold execute in *.
    destruct (loop (S (Z.to_nat (maxAttempts config))) config 1%Z None init)
      as [r w'] eqn:Hrun.
    cbn [snd] in *.
    assert (Hhead : atLoopHead init).
    { unfold Retry.atLoopHead. cbn.
      split; [reflexivity|]. split; [destruct (jitter config); reflexivity|].
      intros j Hj; lia. }
    rewrite (loop_slept _ _ _ _ _ _ Hhead eq_refl Hrun (a - 1)%nat) by lia.
    unfold Retry.sleptAfter, exponentialDelay, jitterFactor.
    replace (S (a - 1)) with a by lia. reflexivity.
  - apply (jitterFactor_range random Hrange).
Qed.

End ExecuteFacts.

(* ================================================================== *)
(** * Properties of the circuit breaker *)
(* ================================================================== *)

Section BreakerFacts.

Import Breaker.

Variables T E : Type.
Variable clock : nat -> Z.
Variable operation : nat -> Retry.Outcome T E.

(** A failure that brings the counters to the thresholds opens the
    breaker. *)
Lemma onFailure_opens (w : World) :
  failureThreshold (config (this w)) <= failures (stats (this w)) + 1 ->
  minimumRequests (config (this w)) <= requests (stats (this w)) ->
  state (this (snd (onFailure clock w))) = OPEN.
Proof.
  intros Hf Hr. breaker_unfold.
  apply Z.leb_le in Hf, Hr. rewrite Hf, Hr. reflexivity.
Qed.

(** A success while [HALF_OPEN] closes the breaker and zeroes the
    counters. *)
Lemma onSuccess_recovers (w : World) :
  state (this w) = HALF_OPEN ->
  state (this (snd (onSuccess clock w))) = CLOSED /\
  requests (stats (this (snd (onSuccess clock w)))) = 0 /\
  failures (stats (this (snd (onSuccess clock w)))) = 0.
Proof.
  intros Hs. breaker_unfold. rewrite Hs. breaker_step.
  repeat split.
Qed.

(** X29: inside the monitoring window and inside the recovery timeout an
    open breaker rejects the call and leaves the operation alone. *)
Lemma execute_rejects_while_open (w : World) :
  state (this w) = OPEN ->
  clock (ticks w) - windowStart (stats (this w))
    <= monitoringPeriod (config (this w)) ->
  clock (ticks w) - lastFailureTime (stats (this w))
    <= recoveryTimeout (config (this w)) ->
  fst (execute clock operation w) =
    RejectedOpen ("Circuit breaker is OPEN for: " ++ name (this w)) /\
  invocations (snd (execute clock operation w)) = invocations w /\
  state (this (snd (execute clock operation w))) = OPEN.
Proof.
  intros Hs Hwin Hrec. breaker_unfold.
  apply Z.ltb_ge in Hwin, Hrec. rewrite Hwin. breaker_step.
  rewrite Hs, Hrec. breaker_step. rewrite Hs. breaker_step.
  repeat split; assumption.
Qed.

(** Once more than [recoveryTimeout] has passed since the last failure,
    the next call moves an open breaker to [HALF_OPEN]. *)
Lemma updateState_half_opens (w : World) :
  state (this w) = OPEN ->
  0 <= lastFailureTime (stats (this w)) ->
  recoveryTimeout (config (this w))
    < clock (ticks w) - lastFailureTime (stats (this w)) ->
  state (this (snd (updateState clock w))) = HALF_OPEN.
Proof.
  intros Hs Hpos Hrec. breaker_unfold.
  destruct (monitoringPeriod (config (this w))
            <? clock (ticks w) - windowStart (stats (this w)));
    breaker_step; rewrite Hs; breaker_step.
  - replace (recoveryTimeout (config (this w)) <? clock (ticks w) - 0)
      with true by (symmetry; apply Z.ltb_lt; lia).
    reflexivity.
  - apply Z.ltb_lt in Hrec. rewrite Hrec. reflexivity.
Qed.

(** C10: when a call finds the breaker [OPEN] and the monitoring window
    expired, the window reset zeroes [lastFailureTime]; if the clock
    reading itself exceeds [recoveryTimeout], the breaker goes to
    [HALF_OPEN] and the operation is invoked in that same call, whatever
    [lastFailureTime] was. *)
Theorem window_reset_half_opens (w : World) :
  state (this w) = OPEN ->
  monitoringPeriod (config (this w))
    < clock (ticks w) - windowStart (stats (this w)) ->
  recoveryTimeout (config (this w)) < clock (ticks w) ->
  lastFailureTime (stats (this (snd (updateState clock w)))) = 0 /\
  state (this (snd (updateState clock w))) = HALF_OPEN /\
  invocations (snd (execute clock operation w)) = S (invocations w) /\
  fst (execute clock operation w) =
    match operation (invocations w) with
    | Retry.Ok v => Resolved v
    | Retry.Err e => Rejected e
    end.
Proof.
  intros Hs Hwin Hrec.
  apply Z.ltb_lt in Hwin.
  assert (Hrec' : (recoveryTimeout (config (this w)) <? clock (ticks w) - 0) = true)
    by (apply Z.ltb_lt; lia).
  repeat split; breaker_unfold; rewrite Hwin; breaker_step;
    rewrite Hs; breaker_step; rewrite Hrec'; breaker_step;
    try reflexivity.
  - destruct (operation (invocations w)); breaker_step.
    + reflexivity.
    + match goal with
      | |- context [if ?c then _ else _] => destruct c
      end; reflexivity.
  - destruct (operation (invocations w)); breaker_step.
    + reflexivity.
    + match goal with
      | |- context [if ?c then _ else _] => destruct c
      end; reflexivity.
Qed.

End BreakerFacts.

(** C1, on the code: a breaker with the default configuration
    ([recoveryTimeout] 60 s, [monitoringPeriod] 10 s) opens on the tenth
    failing call; the next call comes 500 ms after that failure, finds the
    monitoring window expired, and invokes the operation instead of
    rejecting. *)
Theorem recovery_timeout_cut_short_by_window_reset :
  let w := Scenarios.trippedBreaker in
  let now := Scenarios.steadyClock (Breaker.ticks w) in
  Breaker.state (Breaker.this w) = Breaker.OPEN /\
  now - Breaker.lastFailureTime (Breaker.stats (Breaker.this w)) = 500 /\
  Breaker.recoveryTimeout (Breaker.config (Breaker.this w)) = 60000 /\
  fst (Breaker.execute Scenarios.steadyClock Scenarios.alwaysDown w)
    = Breaker.Rejected Scenarios.networkDown /\
  Breaker.invocations
    (snd (Breaker.execute Scenarios.steadyClock Scenarios.alwaysDown w))
    = S (Breaker.invocations w).
Proof.
  vm_compute. repeat split.
Qed.

(** C10 on the tripped breaker of the scenario above. *)
Lemma window_reset_half_opens_witness :
  Breaker.state
    (Breaker.this
       (snd (Breaker.updateState Scenarios.steadyClock
               Scenarios.trippedBreaker))) = Breaker.HALF_OPEN /\
  Breaker.invocations
    (snd (Breaker.execute Scenarios.steadyClock Scenarios.alwaysDown
            Scenarios.trippedBreaker)) = 11%nat.
Proof.
  destruct (window_reset_half_opens nat Errors.unknown Scenarios.steadyClock
              Scenarios.alwaysDown Scenarios.trippedBreaker)
    as [_ [Hstate [Hcount _]]].
  - reflexivity.
  - vm_compute. reflexivity.
  - vm_compute. reflexivity.
  - split; [exact Hstate | exact Hcount].
Defined.

(* ================================================================== *)
(** * Properties of the graceful shutdown manager *)
(* ================================================================== *)

Section ShutdownFacts.

Import Shutdown.

Variable ShutdownHandler : Type.

Local Abbreviation Entry := (Entry ShutdownHandler).
Local Abbreviation Process := (Process ShutdownHandler).
Local Abbreviation Event := (Event ShutdownHandler).

(** In an array paired with its indices every index occurs at most once,
    and the indices below the first one do not occur. *)
Lemma index_occurs_once (i : nat) (l : list Entry) :
  forall s : nat,
    (List.length (filter (fun c => Nat.eqb (fst c) i)
                    (combine (seq s (List.length l)) l)) <= 1)%nat /\
    ((i < s)%nat ->
     filter (fun c => Nat.eqb (fst c) i)
       (combine (seq s (List.length l)) l) = []).
Proof.
  induction l as [|a l IH]; intros s; cbn [List.length seq combine filter fst].
  - split; [cbn; lia | reflexivity].
  - destruct (IH (S s)) as [Hle Hnone].
    destruct (Nat.eqb s i) eqn:Hsi.
    + apply Nat.eqb_eq in Hsi. subst i.
      rewrite Hnone by lia. split; [cbn; lia | lia].
    + apply Nat.eqb_neq in Hsi.
      split; [exact Hle|]. intros Hlt. apply Hnone. lia.
Qed.

Lemma step_consistent (p : Process) (ev : Event) :
  consistent p -> consistent (step p ev).
Proof.
  unfold consistent, step. intros Hp.
  destruct (exited p); [exact Hp|].
  destruct ev as [nm h t|t|reason|]; cbn.
  - exact Hp.
  - exact Hp.
  - unfold shutdown.
    destruct (isShuttingDown (manager p)) eqn:Hflag.
    + rewrite Hflag. exact Hp.
    + cbn. rewrite Hp. cbn. eexists; reflexivity.
  - unfold settle. destruct (waiting p); [exact Hp|]. cbn. exact Hp.
Qed.

Lemma run_consistent (evs : list Event) :
  forall p, consistent p -> consistent (run evs p).
Proof.
  induction evs as [|ev evs IH]; intros p Hp; cbn.
  - exact Hp.
  - apply IH. apply step_consistent. exact Hp.
Qed.

(** C9: after any sequence of registrations and [shutdown] calls in a
    process, a further call to [shutdown] calls the handlers (all of them,
    in array order) exactly when it finds the flag unset, and calls none
    when it finds it set; the flag is set afterwards; and no array entry
    has had its handler called more than once. *)
Theorem shutdown_runs_handlers_once (evs : list Event)
    (reason : ShutdownReason) (i : nat) :
  called (shutdown reason (run evs start)) =
    (if isShuttingDown (manager (run evs start))
     then called (run evs start)
     else indexed (shutdownHandlers (manager (run evs start)))) /\
  isShuttingDown (manager (shutdown reason (run evs start))) = true /\
  (timesCalled i (shutdown reason (run evs start)) <= 1)%nat.
Proof.
  assert (Hstart : consistent (@start ShutdownHandler)) by reflexivity.
  pose proof (run_consistent evs start Hstart) as Hp.
  pose proof (step_consistent (run evs start) (CallShutdown reason) Hp) as Hq.
  split; [|split].
  - unfold shutdown. unfold consistent in Hp.
    destruct (isShuttingDown (manager (run evs start))); [reflexivity|].
    cbn. rewrite Hp. reflexivity.
  - unfold shutdown.
    destruct (isShuttingDown (manager (run evs start))) eqn:Hflag;
      [exact Hflag | reflexivity].
  - assert (Hc : consistent (shutdown reason (run evs start))).
    { unfold step in Hq. destruct (exited (run evs start)) eqn:Hex.
      - unfold consistent, shutdown.
        unfold consistent in Hq.
        destruct (isShuttingDown (manager (run evs start))) eqn:Hflag.
        + rewrite Hflag. exact Hq.
        + cbn. rewrite Hq. cbn. eexists; reflexivity.
      - exact Hq. }
    unfold consistent in Hc. unfold timesCalled.
    destruct (isShuttingDown (manager (shutdown reason (run evs start)))).
    + destruct Hc as [l Hl]. rewrite Hl. unfold indexed.
      apply index_occurs_once.
    + rewrite Hc. cbn. lia.
Qed.

End ShutdownFacts.

(* ================================================================== *)
(** * Concrete runs *)
(* ================================================================== *)

Lemma lowDraw_range : forall i, (0 <= Scenarios.lowDraw i /\ Scenarios.lowDraw i < 1)%Q.
Proof. intros i. split; [discriminate | reflexivity]. Qed.

Lemma midDraw_range : forall i, (0 <= Scenarios.midDraw i /\ Scenarios.midDraw i < 1)%Q.
Proof. intros i. split; [discriminate | reflexivity]. Qed.

Lemma highDraw_range : forall i, (0 <= Scenarios.highDraw i /\ Scenarios.highDraw i < 1)%Q.
Proof. intros i. split; [discriminate | reflexivity]. Qed.

(** C2 as stated fails: with six attempts, [maxDelay = 10000] and a draw of
    0.75 (jitter factor 1.125), the delay computed after the fifth failed
    attempt is 11250 ms, and [execute] does sleep it.  Every number involved
    is a double and every product exact. *)
Lemma delay_exceeds_maxDelay_counterexample :
  (forall i, (0 <= Scenarios.highDraw i /\ Scenarios.highDraw i < 1)%Q) /\
  fst (Retry.calculateDelay Scenarios.highDraw Doubles.exactPow 5
         Scenarios.sixAttempts Retry.init) = Doubles.Num 11250 /\
  ~ Doubles.le
      (fst (Retry.calculateDelay Scenarios.highDraw Doubles.exactPow 5
              Scenarios.sixAttempts Retry.init))
      (Retry.maxDelay Scenarios.sixAttempts) /\
  nth_error
    (rev (Retry.slept
            (snd (Retry.execute Scenarios.alwaysDown Scenarios.highDraw
                    Doubles.exactPow Scenarios.sixAttempts Retry.init)))) 4
  = Some (Doubles.Num 11250).
Proof.
  split; [exact highDraw_range|]. split; [vm_compute; reflexivity|]. split.
  - intros H. vm_compute in H. discriminate H.
  - vm_compute. reflexivity.
Qed.

(** C4 as stated fails: with [initialDelay = 1001] and a draw of 0 (jitter
    factor 0.75) the capped delay is 1001 and the delay slept after the
    first failed attempt is 750 ms, which is not 1001 times any factor in
    [[0.75, 1.25]], neither exactly nor rounded to a double. *)
Lemma delay_not_scaled_counterexample :
  (1 < Retry.maxAttempts Scenarios.oddInitialDelay) /\
  nth_error
    (rev (Retry.slept
            (snd (Retry.execute Scenarios.alwaysDown Scenarios.lowDraw
                    Doubles.exactPow Scenarios.oddInitialDelay Retry.init)))) 0
  = Some (Doubles.Num 750) /\
  Retry.exponentialDelay Doubles.exactPow 1 Scenarios.oddInitialDelay
  = Doubles.Num 1001 /\
  ~ (exists f : Q,
        ((3 # 4) <= f /\ f <= (5 # 4))%Q /\
        Doubles.mul
          (Retry.exponentialDelay Doubles.exactPow 1
             Scenarios.oddInitialDelay)
          (Doubles.Num f) = Doubles.Num 750) /\
  ~ (exists f : Q,
        ((3 # 4) <= f /\ f <= (5 # 4))%Q /\ (1001 * f == 750)%Q).
Proof.
  split; [reflexivity|]. split; [vm_compute; reflexivity|].
  assert (Hbase : Retry.exponentialDelay Doubles.exactPow 1
                    Scenarios.oddInitialDelay = Doubles.Num 1001)
    by (vm_compute; reflexivity).
  split; [exact Hbase|]. split.
  - intros [f [[Hlo Hhi] Heq]]. rewrite Hbase in Heq. cbn [Doubles.mul] in Heq.
    assert (Hle : Doubles.le (Doubles.ofQ (1001 * (3 # 4)))
                    (Doubles.ofQ (1001 * f))).
    { apply ofQ_mono.
      rewrite (Qmult_comm 1001 (3 # 4)), (Qmult_comm 1001 f).
      apply Qmult_le_compat_r; [exact Hlo | discriminate]. }
    rewrite Heq in Hle. vm_compute in Hle. discriminate Hle.
  - intros [f [[Hlo Hhi] Heq]].
    assert (Hbig : (1001 * (3 # 4) <= 1001 * f)%Q).
    { rewrite (Qmult_comm 1001 (3 # 4)), (Qmult_comm 1001 f).
      apply Qmult_le_compat_r; [exact Hlo | discriminate]. }
    rewrite Heq in Hbig. vm_compute in Hbig. apply Hbig. reflexivity.
Qed.

(** Rounding at work.  With [Math.random()] at 0.19999999999999996 the
    product of 10000 and the jitter factor rounds up to 8500, where the
    exact product lies below, and with a capped delay of 1000 the delay is
    850; the double nearest to 800.8 times 1.25 rounds to 1001, above the
    exact product. *)
Lemma rounding_examples :
  Doubles.floor
    (Doubles.mul (Doubles.Num 10000)
       (Retry.jitterFactor
          (900719925474099 # 4503599627370496))) = Doubles.Num 8500 /\
  (10000 * ((3 # 4) + (900719925474099 # 4503599627370496) * (1 # 2))
   < 8500)%Q /\
  Doubles.floor
    (Doubles.mul (Doubles.Num 1000)
       (Retry.jitterFactor
          (900719925474099 # 4503599627370496))) = Doubles.Num 850 /\
  Doubles.floor
    (Doubles.mul (Doubles.ofQ (8008 # 10)) (Doubles.Num (5 # 4)))
  = Doubles.Num 1001 /\
  (match Doubles.ofQ (8008 # 10) with
   | Doubles.Num m => m * (5 # 4) < 1001
   | _ => False
   end)%Q.
Proof.
  split; [vm_compute; reflexivity|]. split; [reflexivity|].
  split; [vm_compute; reflexivity|].
  split; [vm_compute; reflexivity|]. vm_compute. reflexivity.
Qed.

(** The jitter factor reaches 1.25: with [Math.random()] at its largest
    value, [1 - 2^-53], the sum [0.75 + 0.5 - 2^-54] rounds to 1.25. *)
Lemma jitterFactor_reaches_upper_end :
  ((9007199254740991 # 9007199254740992) < 1)%Q /\
  Retry.jitterFactor (9007199254740991 # 9007199254740992)
  = Doubles.Num (5 # 4).
Proof. split; [reflexivity | vm_compute; reflexivity]. Qed.

(** A delay that is [NaN]: with no initial delay and the backoff factor
    2.5, the power for attempt 1000 overflows, and zero times infinity is
    not a number. *)
Lemma nan_delay_example :
  Doubles.mathPow Doubles.exactPow (Doubles.Num (5 # 2)) 999
  = Doubles.PosInfinity /\
  fst (Retry.calculateDelay Scenarios.midDraw Doubles.exactPow 1000
         Scenarios.noInitialDelay Retry.init) = Doubles.NaN.
Proof. split; vm_compute; reflexivity. Qed.

(** The amended C2 on the run of the counterexample: 11250 <= 12500. *)
Lemma delay_bound_witness :
  Doubles.le
    (fst (Retry.calculateDelay Scenarios.highDraw Doubles.exactPow 5
            Scenarios.sixAttempts Retry.init))
    (Doubles.mul (Retry.maxDelay Scenarios.sixAttempts)
       (Doubles.Num (5 # 4))).
Proof.
  destruct (delay_bound Errors.unknown Scenarios.highDraw Doubles.exactPow
              highDraw_range 5 Scenarios.sixAttempts Retry.init)
    as [_ [_ Hjitter]].
  destruct (Hjitter eq_refl) as [_ Hbound].
  - vm_compute. discriminate.
  - apply Hbound. reflexivity.
Defined.

(** The amended C4 on the default profile: the second sleep, with a draw
    of 0.5 (factor 1), is [floor (min (1000 * 2^1) 10000 * 1) = 2000]. *)
Lemma slept_delay_formula_witness :
  nth_error
    (rev (Retry.slept
            (snd (Retry.execute Scenarios.alwaysDown Scenarios.midDraw
                    Doubles.exactPow Retry.DEFAULT_RETRY_CONFIG
                    Retry.init)))) 1
  = Some (Doubles.Num 2000).
Proof.
  destruct (slept_delay_formula nat Errors.unknown Scenarios.alwaysDown
              Scenarios.midDraw Doubles.exactPow Retry.DEFAULT_RETRY_CONFIG 2
              midDraw_range)
    as [Hnth _].
  - vm_compute. lia.
  - exact Hnth.
Defined.




(* ================================================================== *)
(** * Further properties of the error classifier *)
(* ================================================================== *)

Section ClassifierTable.

Import Errors.
Local Open Scope string_scope.
Local Open Scope Z_scope.

Variables (now statusText : string) (body : option string)
          (originalError : option JsError).

(** Every status is either one of the eight the [switch] names or falls to
    the [default] branch. *)
Lemma status_cases (s : Z) :
  s = 400 \/ s = 401 \/ s = 403 \/ s = 404 \/ s = 408 \/ s = 422 \/
  s = 429 \/ s = 504 \/ namedStatus s = false.
Proof.
  unfold namedStatus. cbn [existsb].
  destruct (Z.eqb_spec s 400); [lia|].
  destruct (Z.eqb_spec s 401); [lia|].
  destruct (Z.eqb_spec s 403); [lia|].
  destruct (Z.eqb_spec s 404); [lia|].
  destruct (Z.eqb_spec s 408); [lia|].
  destruct (Z.eqb_spec s 422); [lia|].
  destruct (Z.eqb_spec s 429); [lia|].
  destruct (Z.eqb_spec s 504); [lia|].
  repeat right. reflexivity.
Qed.

(** X1: [fromHttpResponse] marks an error retryable exactly for the
    statuses 0 (a falsy status code), 404, 408, 429 and those from 500
    on. *)
Theorem fromHttpResponse_retryable_iff (s : Z) :
  retryable (metadata (fromHttpResponse now s statusText body originalError)) = true <->
  (s = 0 \/ s = 404 \/ s = 408 \/ s = 429 \/ 500 <= s).
Proof.
  destruct (status_cases s) as
    [->|[->|[->|[->|[->|[->|[->|[->|Hdefault]]]]]]]];
    try (cbn; split;
         [ intros H; first [discriminate H | lia]
         | intros H; first [reflexivity | lia] ]).
  rewrite fromHttpResponse_default by assumption. cbn.
  assert (Hn : s <> 404 /\ s <> 408).
  { unfold namedStatus in Hdefault. cbn [existsb] in Hdefault.
    repeat (apply orb_false_elim in Hdefault; destruct Hdefault as [? Hdefault]).
    repeat match goal with
           | h : (s =? _) = false |- _ => apply Z.eqb_neq in h
           end.
    lia. }
  destruct (Z.eqb_spec s 0) as [->|Hz]; cbn.
  - split; [lia | reflexivity].
  - destruct (Z.leb_spec 500 s); destruct (Z.eqb_spec s 429); cbn;
      split; intros Hr;
      first [reflexivity | discriminate Hr | lia | exfalso; lia].
Qed.

(** X2: whatever the status, the error code is [HTTP_<status>], the message
    is [HTTP <status>: <statusText>], the cause is the error passed in and
    the timestamp is the time of the call. *)
Theorem fromHttpResponse_identifies_status (s : Z) :
  code (metadata (fromHttpResponse now s statusText body originalError)) = "HTTP_" ++ numToString s /\
  message (fromHttpResponse now s statusText body originalError) = "HTTP " ++ numToString s ++ ": " ++ statusText /\
  cause (fromHttpResponse now s statusText body originalError) = originalError /\
  timestamp (metadata (fromHttpResponse now s statusText body originalError)) = now.
Proof.
  destruct (status_cases s) as
    [->|[->|[->|[->|[->|[->|[->|[->|Hdefault]]]]]]]];
    try (repeat split; reflexivity).
  rewrite fromHttpResponse_default by assumption.
  repeat split; reflexivity.
Qed.

(** X3: the severity given to a status is [LOW] exactly for 400 and
    422, [HIGH] exactly for 401, 403, 404 and the statuses from 500 on
    other than 504, and [MEDIUM] for every other status (504 among them);
    it is never [CRITICAL]. *)
Theorem fromHttpResponse_severity (s : Z) :
  (severity (metadata (fromHttpResponse now s statusText body originalError)) = LOW <-> (s = 400 \/ s = 422)) /\
  (severity (metadata (fromHttpResponse now s statusText body originalError)) = HIGH <->
     (s = 401 \/ s = 403 \/ s = 404 \/ (500 <= s /\ s <> 504))) /\
  (severity (metadata (fromHttpResponse now s statusText body originalError)) = MEDIUM <->
     (s <> 400 /\ s <> 422 /\ s <> 401 /\ s <> 403 /\ s <> 404 /\
      (s < 500 \/ s = 504))) /\
  severity (metadata (fromHttpResponse now s statusText body originalError)) <> CRITICAL.
Proof.
  destruct (status_cases s) as
    [->|[->|[->|[->|[->|[->|[->|[->|Hdefault]]]]]]]];
    try (cbn; split; [|split; [|split]];
         [split; intros H; first [discriminate H | reflexivity | lia]
         |split; intros H; first [discriminate H | reflexivity | lia]
         |split; intros H; first [discriminate H | reflexivity | lia]
         |discriminate]).
  rewrite fromHttpResponse_default by assumption. cbn.
  assert (Hn : s <> 400 /\ s <> 401 /\ s <> 403 /\ s <> 404 /\ s <> 422 /\ s <> 504).
  { unfold namedStatus in Hdefault. cbn [existsb] in Hdefault.
    repeat (apply orb_false_elim in Hdefault; destruct Hdefault as [? Hdefault]).
    repeat match goal with
           | h : (s =? _) = false |- _ => apply Z.eqb_neq in h
           end.
    lia. }
  destruct (Z.eqb_spec s 0) as [->|Hz]; cbn.
  - split; [|split; [|split]];
      [split; intros Hsev; first [discriminate Hsev | exfalso; lia]
      |split; intros Hsev; first [discriminate Hsev | exfalso; lia]
      |split; intros Hsev; first [reflexivity | lia]
      |discriminate].
  - destruct (Z.leb_spec 500 s);
      (split; [|split; [|split]];
       [split; intros Hsev;
        first [discriminate Hsev | reflexivity | lia | exfalso; lia]
       |split; intros Hsev;
        first [discriminate Hsev | reflexivity | lia | exfalso; lia]
       |split; intros Hsev;
        first [discriminate Hsev | reflexivity | lia | exfalso; lia]
       |discriminate]).
Qed.

End ClassifierTable.

Section GenericErrors.

Import Errors.
Local Open Scope string_scope.

Variable now : string.

(** X4: for an error that is not a [BaseError], the classifier looks at
    nothing but [Error]s: a [TypeError] mentioning [fetch] is [NETWORK],
    otherwise an [AbortError] or a message mentioning [timeout] is
    [TIMEOUT], and everything else is [UNKNOWN].  The call throws, and
    builds no error, exactly when the error is [UNKNOWN] and rendering the
    original error ([JSON.stringify] of an object, [String] of anything
    else) throws.  When it returns, the result has that category, severity
    [MEDIUM] and the time of the call as timestamp, it is retryable exactly
    when it is not [UNKNOWN], an [Error] becomes its cause, and an [UNKNOWN]
    result keeps the rendering of the original error in its context
    ([undefined] when [JSON.stringify] gives [undefined]), never a constant
    in its place. *)
Theorem fromGenericError_fresh (error : unknown) (ctx : option string) :
  isBaseError error = false ->
  let kind :=
    match error with
    | UError je =>
        if (err_name je =? "TypeError") && includes (err_message je) "fetch"
        then NETWORK
        else if (err_name je =? "AbortError")
                || includes (err_message je) "timeout"
        then TIMEOUT
        else UNKNOWN
    | _ => UNKNOWN
    end in
  let original :=
    match error with
    | UError je => err_json je
    | UString s => Rendered s
    | UOther r => r
    | UBase _ => RenderedUndefined
    end in
  match fromGenericError now error ctx with
  | Throws => kind = UNKNOWN /\ original = RenderThrows
  | Returns e =>
      (kind = UNKNOWN -> original <> RenderThrows) /\
      category (metadata e) = kind /\
      severity (metadata e) = MEDIUM /\
      timestamp (metadata e) = now /\
      (retryable (metadata e) = true <-> kind <> UNKNOWN) /\
      cause e = match error with UError je => Some je | _ => None end /\
      (kind = UNKNOWN ->
       context (metadata e) =
         Some [("originalError",
                match original with
                | Rendered text => LStr text
                | _ => LUndefined
                end);
               ("context",
                LStr match ctx with Some c => c | None => "undefined" end)])
  end.
Proof.
  intros Hnot. destruct error as [b|je|s|r]; [discriminate Hnot| | |]; cbn.
  - destruct ((err_name je =? "TypeError") && includes (err_message je) "fetch");
      [|destruct ((err_name je =? "AbortError")
                  || includes (err_message je) "timeout")];
      cbn; try (repeat split; intros; congruence).
    destruct (err_json je), ctx; cbn; repeat split; intros; congruence.
  - destruct ctx; cbn; repeat split; intros; congruence.
  - destruct r, ctx; cbn; repeat split; intros; congruence.
Qed.

(** X5: two errors get the same safe message exactly when they have the
    same category, or one is [NETWORK] and the other [TIMEOUT]. *)
Theorem getSafeMessage_by_category (e1 e2 : BaseError) :
  getSafeMessage e1 = getSafeMessage e2 <->
  (category (metadata e1) = category (metadata e2) \/
   (category (metadata e1) = NETWORK /\ category (metadata e2) = TIMEOUT) \/
   (category (metadata e1) = TIMEOUT /\ category (metadata e2) = NETWORK)).
Proof.
  unfold getSafeMessage.
  destruct (category (metadata e1)), (category (metadata e2));
    split; intros H;
    first [ reflexivity
          | discriminate H
          | left; reflexivity
          | right; left; split; reflexivity
          | right; right; split; reflexivity
          | destruct H as [H|[[H1 H2]|[H1 H2]]]; discriminate ].
Qed.

End GenericErrors.

(* ================================================================== *)
(** * Properties of the error collector *)
(* ================================================================== *)

Section CollectorFacts.

Import Errors.
Local Open Scope string_scope.

(** X6: two errors are counted under the same key exactly when they have
    the same category and the same code. *)
Theorem metricsKey_injective (e1 e2 : BaseError) :
  metricsKey e1 = metricsKey e2 <->
  (category (metadata e1) = category (metadata e2) /\
   code (metadata e1) = code (metadata e2)).
Proof.
  unfold metricsKey. split.
  - destruct (category (metadata e1)), (category (metadata e2));
      cbn; intros H; first [discriminate H | split; congruence].
  - intros [Hc Hd]. rewrite Hc, Hd. reflexivity.
Qed.

Lemma mapGet_app (key k : string) (v : ErrorMetrics) (m : Metrics) :
  mapGet key (m ++ [(k, v)])%list =
  match mapGet key m with
  | Some x => Some x
  | None => if (k =? key) then Some v else None
  end.
Proof.
  induction m as [|[k0 v0] m IH]; cbn.
  - reflexivity.
  - destruct (k0 =? key); [reflexivity | exact IH].
Qed.

Lemma mapGet_update (key k : string) (f : ErrorMetrics -> ErrorMetrics)
    (m : Metrics) :
  mapGet key (mapUpdate k f m) =
  if (k =? key) then option_map f (mapGet k m) else mapGet key m.
Proof.
  induction m as [|[k0 v0] m IH]; cbn.
  - destruct (k =? key); reflexivity.
  - destruct (String.eqb_spec k0 k) as [->|Hk0].
    + cbn. destruct (String.eqb_spec k key); reflexivity.
    + cbn. rewrite IH.
      destruct (String.eqb_spec k key) as [->|Hk].
      * destruct (String.eqb_spec k0 key); [contradiction | reflexivity].
      * reflexivity.
Qed.

Lemma mapUpdate_keys (k : string) (f : ErrorMetrics -> ErrorMetrics)
    (m : Metrics) :
  map fst (mapUpdate k f m) = map fst m.
Proof.
  induction m as [|[k0 v0] m IH]; cbn; [reflexivity|].
  destruct (k0 =? k); cbn; [reflexivity | rewrite IH; reflexivity].
Qed.

Lemma mapGet_none (k : string) (m : Metrics) :
  mapGet k m = None -> ~ In k (map fst m).
Proof.
  induction m as [|[k0 v0] m IH]; cbn; [tauto|].
  destruct (String.eqb_spec k0 k) as [->|Hne]; [discriminate|].
  intros Hget [Heq|Hin]; [contradiction | exact (IH Hget Hin)].
Qed.

Lemma totalCount_app (m1 m2 : Metrics) :
  (totalCount (m1 ++ m2)%list = totalCount m1 + totalCount m2)%Z.
Proof.
  unfold totalCount. induction m1 as [|kv m1 IH]; cbn; [reflexivity|].
  rewrite IH. lia.
Qed.

Lemma totalCount_update (k : string) (f : ErrorMetrics -> ErrorMetrics)
    (m : Metrics) (v : ErrorMetrics) :
  mapGet k m = Some v ->
  (forall x, count (f x) = count x + 1)%Z ->
  (totalCount (mapUpdate k f m) = totalCount m + 1)%Z.
Proof.
  intros Hget Hf. revert Hget.
  induction m as [|[k0 v0] m IH]; cbn; [discriminate|].
  destruct (k0 =? k); cbn; intros Hget.
  - rewrite Hf. fold (totalCount m). lia.
  - fold (totalCount (mapUpdate k f m)) (totalCount m).
    rewrite (IH Hget). lia.
Qed.

Lemma wellKeyed_update (k : string) (f : ErrorMetrics -> ErrorMetrics)
    (m : Metrics) :
  (forall x, metricCategory (f x) = metricCategory x /\
             metricCode (f x) = metricCode x) ->
  wellKeyed m -> wellKeyed (mapUpdate k f m).
Proof.
  intros Hf. unfold wellKeyed.
  induction m as [|[k0 v0] m IH]; cbn; intros Hw k' v' Hin; [contradiction|].
  destruct (k0 =? k); cbn in Hin.
  - destruct Hin as [Heq|Hin].
    + inversion Heq; subst. destruct (Hf v0) as [-> ->].
      apply Hw. left; reflexivity.
    + apply Hw. right; exact Hin.
  - destruct Hin as [Heq|Hin].
    + apply Hw. left; exact Heq.
    + apply IH; [|exact Hin]. intros k2 v2 H2. apply Hw. right; exact H2.
Qed.

(** One [recordError] keeps the keys distinct and the entries under their
    own keys, and adds one to the total. *)
Lemma recordError_invariant (e : BaseError) (m : Metrics) :
  NoDup (map fst m) -> wellKeyed m ->
  NoDup (map fst (recordError e m)) /\
  wellKeyed (recordError e m) /\
  (totalCount (recordError e m) = totalCount m + 1)%Z.
Proof.
  intros Hnd Hw. unfold recordError.
  destruct (mapGet (metricsKey e) m) as [v|] eqn:Hget.
  - split; [|split].
    + rewrite mapUpdate_keys. exact Hnd.
    + apply wellKeyed_update; [|exact Hw]. intros x; split; reflexivity.
    + apply (totalCount_update _ _ _ v Hget). intros x; reflexivity.
  - split; [|split].
    + rewrite map_app. cbn.
      apply NoDup_app; [exact Hnd | repeat constructor; intros [] |].
      intros k Hin [Heq|[]]. subst k.
      exact (mapGet_none _ _ Hget Hin).
    + intros k v Hin. apply in_app_or in Hin. destruct Hin as [Hin|[Heq|[]]].
      * exact (Hw k v Hin).
      * inversion Heq; subst. reflexivity.
    + rewrite totalCount_app. cbn. lia.
Qed.

Lemma recordAll_snoc (es : list BaseError) (e : BaseError) (m : Metrics) :
  recordAll (es ++ [e])%list m = recordError e (recordAll es m).
Proof. unfold recordAll. rewrite fold_left_app. reflexivity. Qed.

(** X7: after any sequence of [recordError] calls on a fresh (or reset)
    collector, the keys of the map are pairwise distinct, every entry sits
    under the key of its own category and code, [getMetrics] has one element
    per key, and the counts add up to the number of calls. *)
Theorem recordAll_accounts_for_every_error (errors : list BaseError) :
  let m := recordAll errors (reset []) in
  NoDup (map fst m) /\
  wellKeyed m /\
  List.length (getMetrics m) = List.length (map fst m) /\
  totalCount m = Z.of_nat (List.length errors).
Proof.
  cbv zeta. unfold reset, getMetrics.
  induction errors as [|e es IH] using rev_ind.
  - cbn. repeat split; [constructor | intros k v []].
  - destruct IH as [Hnd [Hw [_ Htot]]].
    rewrite recordAll_snoc.
    destruct (recordError_invariant e _ Hnd Hw) as [Hnd' [Hw' Htot']].
    repeat split; try assumption.
    + rewrite !length_map. reflexivity.
    + rewrite Htot', Htot, length_app. cbn. lia.
Qed.

Lemma countedUnder_snoc (key : string) (es : list BaseError) (e : BaseError) :
  countedUnder key (es ++ [e])%list =
  (countedUnder key es ++ (if metricsKey e =? key then [e] else []))%list.
Proof.
  unfold countedUnder. rewrite filter_app. cbn.
  destruct (metricsKey e =? key); reflexivity.
Qed.

Lemma summary_snoc (l : list BaseError) (e : BaseError) :
  summary (l ++ [e])%list =
  match summary l with
  | None =>
      Some {| metricCategory := category (metadata e);
              metricCode := code (metadata e);
              count := 1;
              firstOccurrence := timestamp (metadata e);
              lastOccurrence := timestamp (metadata e) |}
  | Some existing =>
      Some {| metricCategory := metricCategory existing;
              metricCode := metricCode existing;
              count := (count existing + 1)%Z;
              firstOccurrence := firstOccurrence existing;
              lastOccurrence := timestamp (metadata e) |}
  end.
Proof.
  destruct l as [|e0 l]; [reflexivity|].
  unfold summary. cbn [app].
  change ((e0 :: l) ++ [e])%list with (e0 :: (l ++ [e]))%list.
  replace (last (e0 :: l ++ [e])%list e0) with e
    by (symmetry; apply (last_last (e0 :: l) e e0)).
  cbn [metricCategory metricCode count firstOccurrence].
  f_equal. f_equal.
  change (e0 :: l ++ [e])%list with ((e0 :: l) ++ [e])%list.
  rewrite length_app. cbn [List.length]. lia.
Qed.

(** X8: after any sequence of [recordError] calls on a fresh collector, the
    entry found under a key is absent when no recorded error has that key,
    and otherwise holds the number of recorded errors with that key, the
    timestamp of the first of them as [firstOccurrence] and the timestamp of
    the last as [lastOccurrence]. *)
Theorem recordAll_summary (errors : list BaseError) (key : string) :
  mapGet key (recordAll errors []) = summary (countedUnder key errors).
Proof.
  induction errors as [|e es IH] using rev_ind; [reflexivity|].
  rewrite recordAll_snoc, countedUnder_snoc.
  unfold recordError.
  destruct (String.eqb_spec (metricsKey e) key) as [Hk|Hk].
  - rewrite summary_snoc. subst key. rewrite <- IH.
    destruct (mapGet (metricsKey e) (recordAll es [])) as [v|] eqn:Hget.
    + rewrite mapGet_update, String.eqb_refl, Hget. reflexivity.
    + rewrite mapGet_app, Hget, String.eqb_refl. reflexivity.
  - rewrite app_nil_r, <- IH.
    destruct (mapGet (metricsKey e) (recordAll es [])) as [v|] eqn:Hget.
    + rewrite mapGet_update.
      destruct (String.eqb_spec (metricsKey e) key); [contradiction | reflexivity].
    + rewrite mapGet_app.
      destruct (String.eqb_spec (metricsKey e) key); [contradiction|].
      destruct (mapGet key (recordAll es [])); reflexivity.
Qed.

End CollectorFacts.

(* ================================================================== *)
(** * Further properties of [RetryMechanism.execute] *)
(* ================================================================== *)

Section RunFacts.

Import Retry.

Variables T E : Type.
Variable operation : nat -> Outcome T E.
Variable random : nat -> Q.
Variable pow : Doubles.Double -> Z -> Doubles.Double.
Variable config : RetryConfig E.

Local Abbreviation loop := (attemptLoop operation random pow).

Local Abbreviation afterRetry := (Retry.afterRetry random pow config).

Lemma loop_retry_world (fuel : nat) (attempt : Z) (lastError : option E)
    (w : World) (error : E) :
  (attempt <=? maxAttempts config)%Z = true ->
  operation (invocations w) = Err error ->
  (attempt =? maxAttempts config)%Z = false ->
  retryableErrors config error = true ->
  loop (S fuel) config attempt lastError w =
  loop fuel config (attempt + 1)%Z (Some error) (afterRetry attempt w).
Proof.
  intros Hle Hop Hne Hretry.
  cbn [attemptLoop]. rewrite Hle.
  unfold bind at 1. unfold invoke at 1. rewrite Hop.
  rewrite Hne, Hretry. cbn [negb orb].
  unfold bind, Retry.afterRetry, calculateDelay.
  destruct (jitter config); reflexivity.
Qed.

(** What a finished run of the loop looks like. *)
Lemma loop_run (fuel : nat) :
  forall (attempt : Z) (lastError : option E) (w : World)
         (r : Settled T E) (w' : World),
    attempt = Z.of_nat (S (invocations w)) ->
    loop fuel config attempt lastError w = (Some r, w') ->
    (w' = w /\ (maxAttempts config < attempt)%Z /\ r = Rejected lastError) \/
    exists k : nat,
      invocations w' = (invocations w + S k)%nat /\
      List.length (slept w') = (List.length (slept w) + k)%nat /\
      draws w' = (draws w + (if jitter config then k else 0))%nat /\
      (Z.of_nat (invocations w') <= maxAttempts config)%Z /\
      (forall i, (invocations w <= i < invocations w + k)%nat ->
         exists e, operation i = Err e /\ retryableErrors config e = true) /\
      match r with
      | Resolved v => operation (invocations w + k)%nat = Ok v
      | Rejected (Some e) =>
          operation (invocations w + k)%nat = Err e /\
          (retryableErrors config e = false \/
           Z.of_nat (invocations w') = maxAttempts config)
      | Rejected None => False
      end.
Proof.
  induction fuel as [|fuel IH]; intros attempt lastError w r w' Hatt Hrun.
  - cbn in Hrun. discriminate Hrun.
  - destruct (attempt <=? maxAttempts config)%Z eqn:Hle.
    2:{ cbn [attemptLoop] in Hrun. rewrite Hle in Hrun.
        inversion Hrun; subst. left. apply Z.leb_gt in Hle. auto. }
    destruct (operation (invocations w)) as [v|error] eqn:Hop.
    { cbn [attemptLoop] in Hrun. rewrite Hle in Hrun.
      unfold bind, invoke in Hrun. rewrite Hop in Hrun.
      inversion Hrun; subst. right. exists 0%nat. cbn [invocations slept draws].
      apply Z.leb_le in Hle.
      rewrite !Nat.add_0_r.
      split; [lia|]. split; [lia|]. split; [destruct (jitter config); lia|].
      split; [lia|]. split; [intros i Hi; lia | exact Hop]. }
    destruct ((attempt =? maxAttempts config)%Z
              || negb (retryableErrors config error)) eqn:Hstop.
    { cbn [attemptLoop] in Hrun. rewrite Hle in Hrun.
      unfold bind, invoke in Hrun. rewrite Hop, Hstop in Hrun.
      inversion Hrun; subst. right. exists 0%nat. cbn [invocations slept draws].
      apply Z.leb_le in Hle.
      rewrite !Nat.add_0_r.
      split; [lia|]. split; [lia|]. split; [destruct (jitter config); lia|].
      split; [lia|]. split; [intros i Hi; lia|]. split; [exact Hop|].
      apply orb_true_iff in Hstop. destruct Hstop as [Heq|Hnr].
      - right. apply Z.eqb_eq in Heq. lia.
      - left. apply negb_true_iff in Hnr. exact Hnr. }
    apply orb_false_elim in Hstop. destruct Hstop as [Hne Hretry].
    apply negb_false_iff in Hretry.
    rewrite (loop_retry_world fuel attempt lastError w error Hle Hop Hne Hretry)
      in Hrun.
    apply Z.leb_le in Hle. apply Z.eqb_neq in Hne.
    assert (Hnext : (attempt + 1)%Z
                    = Z.of_nat (S (invocations (afterRetry attempt w))))
      by (cbn [Retry.afterRetry invocations]; lia).
    destruct (IH _ _ _ _ _ Hnext Hrun)
      as [[_ [Hgt _]]|[k [Hinv [Hlen [Hdraws [Hmax [Hfail Hres]]]]]]];
      [lia|].
    cbn [Retry.afterRetry invocations slept draws List.length] in *.
    right. exists (S k).
    split; [lia|]. split; [lia|]. split; [destruct (jitter config); lia|].
    split; [exact Hmax|]. split.
    + intros i Hi. destruct (Nat.eq_dec i (invocations w)) as [->|Hni].
      * exists error. split; assumption.
      * apply Hfail. lia.
    + replace (invocations w + S k)%nat with (S (invocations w) + k)%nat by lia.
      exact Hres.
Qed.

(** X9: a run of [execute] never invokes the operation more than
    [maxAttempts] times; it sleeps once between two consecutive invocations
    and never after the last one, and reads [Math.random()] once per sleep
    when jitter is on and never when it is off. *)
Theorem execute_bounded :
  (Z.of_nat (invocations (snd (execute operation random pow config init)))
   <= Z.max 0 (maxAttempts config))%Z /\
  List.length (slept (snd (execute operation random pow config init))) =
    (invocations (snd (execute operation random pow config init)) - 1)%nat /\
  draws (snd (execute operation random pow config init)) =
    (if jitter config
     then List.length (slept (snd (execute operation random pow config init)))
     else 0%nat).
Proof.
  destruct (execute_total T E operation random pow config init) as [r Hr].
  unfold execute in *.
  destruct (loop (S (Z.to_nat (maxAttempts config))) config 1%Z None init)
    as [o w'] eqn:Hrun.
  cbn [fst snd] in *. subst o.
  destruct (loop_run _ 1%Z None init r w' eq_refl Hrun)
    as [[-> _]|[k [Hinv [Hlen [Hdraws [Hmax _]]]]]].
  - cbn. repeat split; try lia. destruct (jitter config); reflexivity.
  - cbn [init invocations slept draws List.length] in *.
    repeat split; try lia.
    destruct (jitter config); lia.
Qed.


End RunFacts.

Section SleepBudget.

Import Retry.
Local Open Scope Q_scope.

Variables T E : Type.
Variable operation : nat -> Outcome T E.
Variable random : nat -> Q.
Variable pow : Doubles.Double -> Z -> Doubles.Double.
Variable config : RetryConfig E.

(** [maxDelay] is a finite number [M], not negative, and the
    double-precision product [maxDelay * 1.25] is a finite number [B]. *)
Variables M B : Q.

Hypothesis random_range : forall i, 0 <= random i /\ random i < 1.
Hypothesis maxDelay_finite : maxDelay config = Doubles.Num M.
Hypothesis maxDelay_nonneg : 0 <= M.
Hypothesis no_overflow :
  Doubles.mul (Doubles.Num M) (Doubles.Num (5 # 4)) = Doubles.Num B.

Lemma sleptAfter_le (j : nat) :
  sleptAfter random pow config j = Doubles.NaN \/
  Doubles.le (sleptAfter random pow config j)
    (Doubles.Num (if jitter config then B else M)).
Proof.
  unfold sleptAfter. destruct (jitter config).
  - destruct (jittered_bound E random pow random_range (Z.of_nat (S j))
                config j) as [_ Hbound].
    cbv zeta in Hbound.
    destruct (Doubles.floor
                (Doubles.mul (exponentialDelay pow (Z.of_nat (S j)) config)
                   (jitterFactor (random j)))) as [d| | |] eqn:Hd;
      try (right; rewrite <- no_overflow, <- maxDelay_finite;
           apply Hbound; [discriminate|];
           rewrite maxDelay_finite; apply le_Num; exact maxDelay_nonneg).
    left. reflexivity.
  - destruct (exponentialDelay pow (Z.of_nat (S j)) config) as [d| | |] eqn:Hd;
      try (right; rewrite <- maxDelay_finite, <- Hd;
           apply exponentialDelay_le_max; rewrite Hd; discriminate).
    left. reflexivity.
Qed.

Lemma bound_nonneg : 0 <= (if jitter config then B else M).
Proof.
  destruct (jitter config); [|exact maxDelay_nonneg].
  apply le_Num. rewrite <- no_overflow. cbn [Doubles.mul].
  apply ofQ_nonneg. apply Qmult_le_0_compat; [exact maxDelay_nonneg|].
  discriminate.
Qed.

(** X11: with [Math.random()] in [[0, 1)], a finite non-negative
    [maxDelay] and [maxAttempts >= 1], a run of [execute] sleeps at most
    [maxAttempts - 1] times, and every delay slept is [NaN] or at most
    [maxDelay] without jitter and the double-precision product
    [maxDelay * 1.25] with jitter.  When every delay slept is a finite
    number, the delays sum to at most [maxAttempts - 1] times that bound;
    otherwise one of them is [NaN] or [-Infinity]. *)
Theorem total_sleep_bounded :
  (1 <= maxAttempts config)%Z ->
  let w' := snd (execute operation random pow config init) in
  let bound := if jitter config then B else M in
  (Z.of_nat (List.length (slept w')) <= maxAttempts config - 1)%Z /\
  Forall (fun d => d = Doubles.NaN \/ Doubles.le d (Doubles.Num bound))
    (slept w') /\
  match totalSlept w' with
  | Some total => total <= inject_Z (maxAttempts config - 1) * bound
  | None =>
      exists d, In d (slept w') /\
                (d = Doubles.NaN \/ d = Doubles.NegInfinity)
  end.
Proof.
  intros Hmax. cbv zeta.
  destruct (execute_total T E operation random pow config init) as [r Hr].
  unfold execute in *.
  destruct (attemptLoop operation random pow (S (Z.to_nat (maxAttempts config)))
              config 1%Z None init) as [o w'] eqn:Hrun.
  cbn [fst snd] in *. subst o. unfold totalSlept.
  assert (Hhead : atLoopHead random pow config init).
  { unfold atLoopHead. cbn.
    split; [reflexivity|]. split; [destruct (jitter config); reflexivity|].
    intros j Hj; lia. }
  pose proof (loop_slept T E operation random pow config _ _ _ _ _ _ Hhead eq_refl Hrun)
    as Hnth.
  assert (Hlength : (Z.of_nat (List.length (slept w'))
                     <= maxAttempts config - 1)%Z /\
                    (List.length (slept w') < invocations w'
                     \/ slept w' = [])%nat).
  { destruct (loop_run T E operation random pow config _ 1%Z None init r w' eq_refl Hrun)
      as [[-> _]|[k [Hinv [Hlen [_ [Hle _]]]]]].
    - cbn. split; [lia | right; reflexivity].
    - cbn [init invocations slept List.length] in Hinv, Hlen.
      split; [lia | left; lia]. }
  destruct Hlength as [Hlength Hfewer].
  assert (Hall : Forall (fun d => d = Doubles.NaN \/
                                  Doubles.le d
                                    (Doubles.Num
                                       (if jitter config then B else M)))
                   (slept w')).
  { apply Forall_forall. intros d Hin.
    destruct Hfewer as [Hfewer|Hnone]; [|rewrite Hnone in Hin; destruct Hin].
    apply in_rev in Hin. apply In_nth_error in Hin. destruct Hin as [j Hj].
    assert (Hlt : (j < List.length (rev (slept w')))%nat)
      by (apply nth_error_Some; rewrite Hj; discriminate).
    rewrite length_rev in Hlt.
    rewrite Hnth in Hj by lia. inversion Hj; subst d.
    apply sleptAfter_le. }
  split; [exact Hlength|]. split; [exact Hall|].
  destruct (Doubles.total (slept w')) as [t|] eqn:Htotal.
  - eapply Qle_trans; [apply (total_le _ _ Hall _ Htotal)|].
    apply Qmult_le_compat_r; [|apply bound_nonneg].
    rewrite <- Zle_Qle. exact Hlength.
  - apply (total_None _ _ Hall Htotal).
Qed.

End SleepBudget.

(** X11 on the aggressive profile with the operation always failing and
    every draw 0.75: four sleeps, which sum to at most 4 * 37500 ms. *)
Lemma total_sleep_bounded_witness :
  match Retry.totalSlept
          (snd (Retry.execute Scenarios.alwaysDown Scenarios.highDraw
                  Doubles.exactPow Retry.AGGRESSIVE_RETRY_CONFIG
                  Retry.init)) with
  | Some total => (total <= inject_Z (5 - 1) * 37500)%Q
  | None => False
  end.
Proof.
  destruct (total_sleep_bounded nat Errors.unknown Scenarios.alwaysDown
              Scenarios.highDraw Doubles.exactPow
              Retry.AGGRESSIVE_RETRY_CONFIG 30000 37500 highDraw_range)
    as [_ [_ Hsum]].
  - reflexivity.
  - discriminate.
  - vm_compute. reflexivity.
  - discriminate.
  - destruct (Retry.totalSlept
                (snd (Retry.execute Scenarios.alwaysDown Scenarios.highDraw
                        Doubles.exactPow Retry.AGGRESSIVE_RETRY_CONFIG
                        Retry.init))) as [total|] eqn:Htotal.
    + exact Hsum.
    + vm_compute in Htotal. discriminate Htotal.
Defined.


(* ================================================================== *)
(** * Further properties of the circuit breaker *)
(* ================================================================== *)

Section BreakerCalls.

Import Breaker.

Variables T E : Type.
Variable clock : nat -> Z.
Variable operation : nat -> Retry.Outcome T E.

Lemma execute_keeps_counters (w : World) :
  countersOk (this w) -> countersOk (this (snd (execute clock operation w))).
Proof.
  unfold countersOk. intros Hw. breaker_unfold. breaker_cases; lia.
Qed.

Lemma execute_keeps_identity (w : World) :
  name (this (snd (execute clock operation w))) = name (this w) /\
  config (this (snd (execute clock operation w))) = config (this w).
Proof.
  breaker_unfold. breaker_cases; split; reflexivity.
Qed.

Lemma executeMany_keeps (n : nat) :
  forall w, countersOk (this w) ->
    countersOk (this (executeMany clock operation n w)) /\
    name (this (executeMany clock operation n w)) = name (this w) /\
    config (this (executeMany clock operation n w)) = config (this w).
Proof.
  induction n as [|n IH]; intros w Hw; cbn [executeMany].
  - auto.
  - destruct (IH _ (execute_keeps_counters w Hw)) as [Hc [Hn Hcfg]].
    destruct (execute_keeps_identity w) as [Hn' Hcfg'].
    split; [exact Hc|]. split; congruence.
Qed.

Lemma successRate_range (b : CircuitBreaker) :
  countersOk b ->
  (0 <= successRate (getStats b) /\ successRate (getStats b) <= 1)%Q.
Proof.
  unfold countersOk, getStats. cbn [successRate]. intros Hb.
  destruct (Z.ltb_spec 0 (requests (stats b))) as [Hpos|Hnone].
  - assert (Hq : (0 < inject_Z (requests (stats b)))%Q)
      by (change 0%Q with (inject_Z 0); rewrite <- Zlt_Qlt; exact Hpos).
    split.
    + apply Qle_shift_div_l; [exact Hq|].
      rewrite Qmult_0_l. change 0%Q with (inject_Z 0).
      rewrite <- Zle_Qle. lia.
    + apply Qle_shift_div_r; [exact Hq|].
      rewrite Qmult_1_l. rewrite <- Zle_Qle. lia.
  - split; discriminate.
Qed.

Lemma start_keeps (w : World) :
  0 <= requests (stats (this w)) ->
  0 <= failures (stats (this w)) ->
  0 <= requests (stats (this (snd (start clock operation w)))) /\
  0 <= failures (stats (this (snd (start clock operation w)))) /\
  name (this (snd (start clock operation w))) = name (this w) /\
  config (this (snd (start clock operation w))) = config (this w).
Proof.
  intros Hr Hf. breaker_unfold.
  breaker_cases; repeat split; first [reflexivity | lia].
Qed.

Lemma settle_keeps (r : Retry.Outcome T E) (w : World) :
  0 <= requests (stats (this w)) ->
  0 <= failures (stats (this w)) ->
  0 <= requests (stats (this (snd (settle clock r w)))) /\
  0 <= failures (stats (this (snd (settle clock r w)))) /\
  name (this (snd (settle clock r w))) = name (this w) /\
  config (this (snd (settle clock r w))) = config (this w).
Proof.
  intros Hr Hf. destruct r; breaker_unfold;
    breaker_cases; repeat split; first [reflexivity | lia].
Qed.

Lemma step_keeps (ev : Event) (c : Calls T E) :
  0 <= requests (stats (this (world c))) ->
  0 <= failures (stats (this (world c))) ->
  0 <= requests (stats (this (world (step clock operation ev c)))) /\
  0 <= failures (stats (this (world (step clock operation ev c)))) /\
  name (this (world (step clock operation ev c))) = name (this (world c)) /\
  config (this (world (step clock operation ev c)))
    = config (this (world c)).
Proof.
  intros Hr Hf. destruct ev as [|i]; cbn [step].
  - pose proof (start_keeps (world c) Hr Hf) as Hk.
    destruct (start clock operation (world c)) as [[msg|r] w'];
      cbn [world snd] in *; exact Hk.
  - destruct (nth_error (pending c) i) as [r|]; cbn [world].
    + exact (settle_keeps r (world c) Hr Hf).
    + repeat split; assumption.
Qed.

Lemma run_keeps (schedule : list Event) :
  forall c : Calls T E,
    0 <= requests (stats (this (world c))) ->
    0 <= failures (stats (this (world c))) ->
    0 <= requests (stats (this (world (run clock operation schedule c)))) /\
    0 <= failures (stats (this (world (run clock operation schedule c)))) /\
    name (this (world (run clock operation schedule c)))
      = name (this (world c)) /\
    config (this (world (run clock operation schedule c)))
      = config (this (world c)).
Proof.
  induction schedule as [|ev rest IH]; intros c Hr Hf; cbn [run].
  - repeat split; assumption.
  - destruct (step_keeps ev c Hr Hf) as [Hr' [Hf' [Hn Hc]]].
    destruct (IH _ Hr' Hf') as [Hr2 [Hf2 [Hn2 Hc2]]].
    repeat split; congruence.
Qed.

Lemma successRate_le_1 (b : CircuitBreaker) :
  0 <= failures (stats b) -> (successRate (getStats b) <= 1)%Q.
Proof.
  unfold getStats. cbn [successRate]. intros Hb.
  destruct (Z.ltb_spec 0 (requests (stats b))) as [Hpos|Hnone].
  - assert (Hq : (0 < inject_Z (requests (stats b)))%Q)
      by (change 0%Q with (inject_Z 0); rewrite <- Zlt_Qlt; exact Hpos).
    apply Qle_shift_div_r; [exact Hq|].
    rewrite Qmult_1_l. rewrite <- Zle_Qle. lia.
  - discriminate.
Qed.

(** X12: on a freshly created breaker, whatever calls are made and however
    they overlap (any schedule of calls beginning and of pending calls
    settling), [requests] and [failures] never go below zero, the success
    rate reported by [getStats] never exceeds 1, and the breaker keeps the
    name and the configuration it was created with.  When no two calls
    overlap (each call settles before the next one begins), moreover
    [failures <= requests] and the success rate is not negative. *)
Theorem breaker_counters_consistent (schedule : list Event) (n : nat)
    (nm : string) (cfg : CircuitBreakerConfig) (t i : nat) :
  (let b := this (world (run clock operation schedule
                           {| world := create clock nm cfg t i;
                              pending := [] |})) in
   0 <= requests (stats b) /\ 0 <= failures (stats b) /\
   (successRate (getStats b) <= 1)%Q /\
   name b = nm /\ config b = cfg) /\
  (let b := this (executeMany clock operation n (create clock nm cfg t i)) in
   0 <= failures (stats b) <= requests (stats b) /\
   (0 <= successRate (getStats b) /\ successRate (getStats b) <= 1)%Q /\
   name b = nm /\ config b = cfg).
Proof.
  cbv zeta. split.
  - destruct (run_keeps schedule
                {| world := create clock nm cfg t i; pending := [] |})
      as [Hr [Hf [Hn Hc]]]; [cbn; lia | cbn; lia |].
    split; [exact Hr|]. split; [exact Hf|].
    split; [apply successRate_le_1; exact Hf|].
    split; [exact Hn | exact Hc].
  - assert (Hfresh : countersOk (this (create clock nm cfg t i)))
      by (unfold countersOk; cbn; lia).
    destruct (executeMany_keeps n _ Hfresh) as [Hc [Hn Hcfg]].
    split; [exact Hc|]. split; [apply successRate_range; exact Hc|].
    split; [exact Hn | exact Hcfg].
Qed.

(** X13: the part of a call before its [await] refuses with the
    circuit-open error only when it found the breaker [OPEN] and leaves it
    [OPEN], and then the operation is not invoked; otherwise it invokes the
    operation exactly once and leaves the breaker in a state other than
    [OPEN].  When the operation has settled, the call resolves with its
    result or rejects with its error and invokes nothing.  A success then
    leaves the breaker [CLOSED], except that it leaves it [OPEN] when
    another call has opened it in the meantime; a failure leaves the state
    as it is or opens the breaker. *)
Theorem execute_dispatch (w w' : World) (r : Retry.Outcome T E) :
  match fst (start clock operation w) with
  | Refused msg =>
      msg = ("Circuit breaker is OPEN for: " ++ name (this w))%string /\
      invocations (snd (start clock operation w)) = invocations w /\
      state (this w) = OPEN /\
      state (this (snd (start clock operation w))) = OPEN
  | Pending r0 =>
      r0 = operation (invocations w) /\
      invocations (snd (start clock operation w)) = S (invocations w) /\
      state (this (snd (start clock operation w))) <> OPEN
  end /\
  invocations (snd (settle clock r w')) = invocations w' /\
  match r with
  | Retry.Ok v =>
      fst (settle clock r w') = Resolved v /\
      state (this (snd (settle clock r w')))
        = match state (this w') with OPEN => OPEN | _ => CLOSED end
  | Retry.Err e =>
      fst (settle clock r w') = Rejected e /\
      (state (this (snd (settle clock r w'))) = state (this w') \/
       state (this (snd (settle clock r w'))) = OPEN)
  end.
Proof.
  split; [|split].
  - breaker_unfold. breaker_cases; repeat split; congruence.
  - destruct r; breaker_unfold; breaker_cases; reflexivity.
  - destruct r; breaker_unfold; breaker_cases;
      (split; [reflexivity|]);
      first [assumption | reflexivity | left; reflexivity
            | right; reflexivity].
Qed.

(** X14: however calls overlap, the only event that finds the breaker not
    [OPEN] and leaves it [OPEN] is the settling of a pending call whose
    operation failed, and both thresholds are met after it. *)
Theorem opens_only_at_thresholds (ev : Event) (c : Calls T E) :
  state (this (world c)) <> OPEN ->
  state (this (world (step clock operation ev c))) = OPEN ->
  (exists i e, ev = Finish i /\
               nth_error (pending c) i = Some (Retry.Err e)) /\
  failureThreshold (config (this (world c)))
    <= failures (stats (this (world (step clock operation ev c)))) /\
  minimumRequests (config (this (world c)))
    <= requests (stats (this (world (step clock operation ev c)))).
Proof.
  intros Hbefore. destruct ev as [|i]; cbn [step].
  - assert (Hstart : state (this (snd (start clock operation (world c))))
                     <> OPEN).
    { revert Hbefore. breaker_unfold. intros Hbefore.
      breaker_cases; congruence. }
    destruct (start clock operation (world c)) as [[msg|r] w1];
      cbn [world snd] in *; intros Hafter; contradiction.
  - destruct (nth_error (pending c) i) as [[v|e]|] eqn:Hnth; cbn [world].
    + revert Hbefore. breaker_unfold. intros Hbefore.
      breaker_cases; intros Hafter; congruence.
    + revert Hbefore. breaker_unfold. intros Hbefore.
      breaker_cases; intros Hafter; try congruence.
      match goal with
      | H : (_ && _)%bool = true |- _ =>
          apply andb_true_iff in H; destruct H as [Hf Hr];
          apply Z.leb_le in Hf, Hr
      end.
      split; [exists i, e; split; [reflexivity | exact Hnth]
             | split; assumption].
    + intros Hafter. contradiction.
Qed.

(** X15: when a call finds the breaker [CLOSED] inside the monitoring
    window, the operation fails, and that failure brings the counters to
    both thresholds, the breaker is [OPEN] afterwards and [lastFailureTime]
    is the clock reading taken after the operation. *)
Theorem failure_at_thresholds_opens (w : World) (e : E) :
  state (this w) = CLOSED ->
  clock (ticks w) - windowStart (stats (this w))
    <= monitoringPeriod (config (this w)) ->
  operation (invocations w) = Retry.Err e ->
  failureThreshold (config (this w)) <= failures (stats (this w)) + 1 ->
  minimumRequests (config (this w)) <= requests (stats (this w)) + 1 ->
  fst (execute clock operation w) = Rejected e /\
  state (this (snd (execute clock operation w))) = OPEN /\
  lastFailureTime (stats (this (snd (execute clock operation w))))
    = clock (S (ticks w)).
Proof.
  intros Hs Hwin Hop Hf Hr. breaker_unfold.
  apply Z.ltb_ge in Hwin. apply Z.leb_le in Hf, Hr.
  repeat (breaker_step;
          first [rewrite Hwin | rewrite Hs | rewrite Hop | rewrite Hf
                | rewrite Hr]).
  breaker_step. repeat split.
Qed.

(** X16: a call that finds the breaker [OPEN] with more than
    [recoveryTimeout] elapsed since a non-negative [lastFailureTime] moves
    it to [HALF_OPEN] and invokes the operation.  When the operation of a
    call succeeds and the breaker is [HALF_OPEN] at that time, the call
    resolves with the result and leaves the breaker [CLOSED] with
    [requests], [failures] and [lastFailureTime] zero and a new window; what
    calls that are still pending do to the counters afterwards is not
    undone. *)
Theorem probe_success_closes (w w' : World) (v : T) :
  state (this w) = OPEN ->
  0 <= lastFailureTime (stats (this w)) ->
  recoveryTimeout (config (this w))
    < clock (ticks w) - lastFailureTime (stats (this w)) ->
  state (this w') = HALF_OPEN ->
  (fst (start clock operation w) = Pending (operation (invocations w)) /\
   state (this (snd (start clock operation w))) = HALF_OPEN) /\
  fst (settle (E := E) clock (Retry.Ok v) w') = Resolved v /\
  state (this (snd (settle (E := E) clock (Retry.Ok v) w'))) = CLOSED /\
  requests (stats (this (snd (settle (E := E) clock (Retry.Ok v) w')))) = 0 /\
  failures (stats (this (snd (settle (E := E) clock (Retry.Ok v) w')))) = 0 /\
  lastFailureTime (stats (this (snd (settle (E := E) clock (Retry.Ok v) w')))) = 0 /\
  windowStart (stats (this (snd (settle (E := E) clock (Retry.Ok v) w'))))
    = clock (ticks w').
Proof.
  intros Hs Hpos Hrec Hs'. split.
  - breaker_unfold.
    destruct (monitoringPeriod (config (this w))
              <? clock (ticks w) - windowStart (stats (this w)));
      breaker_step; rewrite Hs; breaker_step.
    + replace (recoveryTimeout (config (this w)) <? clock (ticks w) - 0)
        with true by (symmetry; apply Z.ltb_lt; lia).
      breaker_step. split; reflexivity.
    + apply Z.ltb_lt in Hrec. rewrite Hrec.
      breaker_step. split; reflexivity.
  - breaker_unfold. rewrite Hs'. breaker_step. repeat split.
Qed.

End BreakerCalls.

(** X30: calls that overlap can leave the breaker with more failures than
    requests.  On a breaker with the default configuration three calls
    begin, the third one after the monitoring period has elapsed, so that
    it resets the counters and counts itself; the two older calls then
    fail.  The breaker ends with one request and two failures, and
    [getStats] reports the success rate -1. *)
Theorem overlapping_calls_break_counters :
  let b := Breaker.this (Breaker.world
             (Breaker.run Scenarios.windowPasses Scenarios.alwaysDown
                Scenarios.threeOverlapping Scenarios.noCalls)) in
  Breaker.requests (Breaker.stats b) = 1 /\
  Breaker.failures (Breaker.stats b) = 2 /\
  Breaker.state b = Breaker.CLOSED /\
  (Breaker.successRate (Breaker.getStats b) == -1)%Q.
Proof.
  vm_compute. repeat split.
Qed.

(** X14 on the tenth failing call of the scenario: it has begun on a
    breaker that is [CLOSED] with nine failures, and its settling opens the
    breaker. *)
Lemma opens_only_at_thresholds_witness :
  (exists i e, Breaker.Finish 0 = Breaker.Finish i /\
               nth_error (Breaker.pending Scenarios.tenthPending) i
               = Some (Retry.Err e)) /\
  (5 <= Breaker.failures (Breaker.stats (Breaker.this (Breaker.world
          (Breaker.step Scenarios.steadyClock Scenarios.alwaysDown
             (Breaker.Finish 0) Scenarios.tenthPending))))) /\
  (10 <= Breaker.requests (Breaker.stats (Breaker.this (Breaker.world
           (Breaker.step Scenarios.steadyClock Scenarios.alwaysDown
              (Breaker.Finish 0) Scenarios.tenthPending))))).
Proof.
  apply (opens_only_at_thresholds nat Errors.unknown Scenarios.steadyClock
           Scenarios.alwaysDown (Breaker.Finish 0) Scenarios.tenthPending).
  - vm_compute. discriminate.
  - vm_compute. reflexivity.
Defined.

(** X15 on the same call, run without interruption. *)
Lemma failure_at_thresholds_opens_witness :
  fst (Breaker.execute Scenarios.steadyClock Scenarios.alwaysDown
         Scenarios.nineFailures) = Breaker.Rejected Scenarios.networkDown /\
  Breaker.state (Breaker.this
    (snd (Breaker.execute Scenarios.steadyClock Scenarios.alwaysDown
            Scenarios.nineFailures))) = Breaker.OPEN /\
  Breaker.lastFailureTime (Breaker.stats (Breaker.this
    (snd (Breaker.execute Scenarios.steadyClock Scenarios.alwaysDown
            Scenarios.nineFailures)))) = 1010000.
Proof.
  apply (failure_at_thresholds_opens nat Errors.unknown Scenarios.steadyClock
           Scenarios.alwaysDown Scenarios.nineFailures Scenarios.networkDown).
  - vm_compute. reflexivity.
  - vm_compute. discriminate.
  - reflexivity.
  - vm_compute. discriminate.
  - vm_compute. discriminate.
Defined.

(** X16 on the tripped breaker, called again 1000 s later with an operation
    that succeeds while the breaker is still [HALF_OPEN]. *)
Lemma probe_success_closes_witness :
  (fst (Breaker.start Scenarios.lateClock Scenarios.alwaysUp
          Scenarios.trippedBreaker) = Breaker.Pending (Retry.Ok 7%nat) /\
   Breaker.state (Breaker.this
     (snd (Breaker.start Scenarios.lateClock Scenarios.alwaysUp
             Scenarios.trippedBreaker))) = Breaker.HALF_OPEN) /\
  fst (Breaker.settle (E := Errors.unknown) Scenarios.lateClock
         (Retry.Ok 7%nat)
         (snd (Breaker.start Scenarios.lateClock Scenarios.alwaysUp
                 Scenarios.trippedBreaker))) = Breaker.Resolved 7%nat /\
  Breaker.state (Breaker.this
    (snd (Breaker.settle (E := Errors.unknown) Scenarios.lateClock
            (Retry.Ok 7%nat)
            (snd (Breaker.start Scenarios.lateClock Scenarios.alwaysUp
                    Scenarios.trippedBreaker))))) = Breaker.CLOSED.
Proof.
  destruct (probe_success_closes nat Errors.unknown Scenarios.lateClock
              Scenarios.alwaysUp Scenarios.trippedBreaker
              (snd (Breaker.start Scenarios.lateClock Scenarios.alwaysUp
                      Scenarios.trippedBreaker)) 7%nat)
    as [Hstart [Hres [Hclosed _]]].
  - vm_compute. reflexivity.
  - vm_compute. discriminate.
  - vm_compute. reflexivity.
  - vm_compute. reflexivity.
  - split; [exact Hstart|]. split; [exact Hres | exact Hclosed].
Defined.

(** The rejection of an open breaker, on a breaker tripped 100 ms before
    the call. *)
Lemma execute_rejects_while_open_witness :
  fst (Breaker.execute Scenarios.fastClock Scenarios.alwaysDown
         Scenarios.quicklyTripped)
    = Breaker.RejectedOpen "Circuit breaker is OPEN for: getCase" /\
  Breaker.invocations
    (snd (Breaker.execute Scenarios.fastClock Scenarios.alwaysDown
            Scenarios.quicklyTripped)) = 10%nat /\
  Breaker.state (Breaker.this
    (snd (Breaker.execute Scenarios.fastClock Scenarios.alwaysDown
            Scenarios.quicklyTripped))) = Breaker.OPEN.
Proof.
  apply (execute_rejects_while_open nat Errors.unknown Scenarios.fastClock
           Scenarios.alwaysDown Scenarios.quicklyTripped).
  - vm_compute. reflexivity.
  - vm_compute. discriminate.
  - vm_compute. discriminate.
Defined.

(* ================================================================== *)
(** * Further properties of the graceful shutdown manager *)
(* ================================================================== *)

Section ShutdownRuns.

Import Shutdown.

Variable ShutdownHandler : Type.

Local Abbreviation Process := (Process ShutdownHandler).
Local Abbreviation Event := (Event ShutdownHandler).

Lemma run_cons (ev : Event) (evs : list Event) (p : Process) :
  run (ev :: evs) p = run evs (step p ev).
Proof. reflexivity. Qed.

(** Once the flag is set it stays set, and no event changes the calls
    made. *)
Lemma run_after_flag (evs : list Event) :
  forall p : Process,
    isShuttingDown (manager p) = true ->
    called (run evs p) = called p.
Proof.
  induction evs as [|ev evs IH]; intros p Hflag; [reflexivity|].
  rewrite run_cons.
  assert (Hstep : isShuttingDown (manager (step p ev)) = true /\
                  called (step p ev) = called p).
  { unfold step. destruct (exited p); [auto|].
    destruct ev as [nm h t|t|reason|]; cbn.
    - auto.
    - auto.
    - unfold shutdown. rewrite Hflag. auto.
    - unfold settle. destruct (waiting p); cbn; auto. }
  destruct Hstep as [Hflag' Hcalled].
  rewrite (IH _ Hflag'). exact Hcalled.
Qed.

(** Before the first [shutdown] call the process only collects entries. *)
Lemma run_before_flag (evs : list Event) :
  forall p : Process,
    isShuttingDown (manager p) = false ->
    exited p = None ->
    waiting p = [] ->
    called (run evs p) =
    (called p ++
     match firstShutdown evs with
     | Some _ => indexed (shutdownHandlers (manager p) ++ registeredBefore evs)
     | None => []
     end)%list.
Proof.
  induction evs as [|ev evs IH]; intros p Hflag Hex Hwait.
  - cbn. rewrite app_nil_r. reflexivity.
  - rewrite run_cons. unfold step. rewrite Hex.
    destruct ev as [nm h t|t|reason|].
    + rewrite IH by assumption. cbn.
      destruct (firstShutdown evs); [|reflexivity].
      rewrite <- app_assoc. reflexivity.
    + rewrite IH by assumption. reflexivity.
    + rewrite run_after_flag by (unfold shutdown; rewrite Hflag; reflexivity).
      unfold shutdown. rewrite Hflag. cbn. rewrite app_nil_r. reflexivity.
    + unfold settle. rewrite Hwait. rewrite IH by assumption. reflexivity.
Qed.

(** X17: in any run of a process, the handlers called are exactly the
    entries registered before the first call of [shutdown], each once, in
    registration order and with the timeout given at registration (10 s
    when none was given); without a [shutdown] call nothing is called, and
    an entry registered after the first [shutdown] call is never called. *)
Theorem handlers_called_are_those_registered_before (evs : list Event) :
  called (run evs start) =
  match firstShutdown evs with
  | Some _ => indexed (registeredBefore evs)
  | None => []
  end.
Proof.
  rewrite run_before_flag by reflexivity. reflexivity.
Qed.

(** The exit status, once there is one, is that of the reason at the head
    of a one-element waiting list set up by the first [shutdown] call. *)
Lemma run_exit_after_flag (evs : list Event) :
  forall (p : Process) (reason : ShutdownReason),
    isShuttingDown (manager p) = true ->
    (waiting p = [reason] /\ exited p = None) \/
    (waiting p = [] /\ exited p = Some (exitStatus reason)) ->
    exited (run evs p) = None \/
    exited (run evs p) = Some (exitStatus reason).
Proof.
  induction evs as [|ev evs IH]; intros p reason Hflag Hp.
  - cbn. destruct Hp as [[_ Hex]|[_ Hex]]; auto.
  - rewrite run_cons. apply IH.
    + unfold step. destruct (exited p); [exact Hflag|].
      destruct ev as [nm h t|t|r|]; cbn; try exact Hflag.
      * unfold shutdown. rewrite Hflag. exact Hflag.
      * unfold settle. destruct (waiting p); cbn; exact Hflag.
    + unfold step. destruct Hp as [[Hw Hex]|[Hw Hex]]; rewrite Hex.
      * destruct ev as [nm h t|t|r|]; cbn.
        -- left; auto.
        -- left; auto.
        -- unfold shutdown. rewrite Hflag. left; auto.
        -- unfold settle. rewrite Hw. cbn. right; auto.
      * right; auto.
Qed.

Lemma run_exit_before_flag (evs : list Event) :
  forall p : Process,
    isShuttingDown (manager p) = false ->
    exited p = None ->
    waiting p = [] ->
    match exited (run evs p) with
    | None => True
    | Some status => option_map exitStatus (firstShutdown evs) = Some status
    end.
Proof.
  induction evs as [|ev evs IH]; intros p Hflag Hex Hwait.
  - cbn. rewrite Hex. exact I.
  - rewrite run_cons. unfold step. rewrite Hex.
    destruct ev as [nm h t|t|reason|]; cbn [firstShutdown].
    + apply IH; assumption.
    + apply IH; assumption.
    + destruct (run_exit_after_flag evs (shutdown reason p) reason) as [Hn|Hs].
      * unfold shutdown. rewrite Hflag. reflexivity.
      * left. unfold shutdown. rewrite Hflag. cbn. rewrite Hwait, Hex. auto.
      * rewrite Hn. exact I.
      * rewrite Hs. reflexivity.
    + unfold settle. rewrite Hwait. apply IH; assumption.
Qed.

(** X18: when a process has exited, its exit status is the one of the
    reason given to the first call of [shutdown] (1 for an uncaught
    exception or an unhandled rejection, 0 otherwise); the reasons of later
    calls do not count. *)
Theorem exit_status_of_first_shutdown (evs : list Event) :
  match exited (run evs start) with
  | None => True
  | Some status => option_map exitStatus (firstShutdown evs) = Some status
  end.
Proof.
  apply run_exit_before_flag; reflexivity.
Qed.

End ShutdownRuns.

(* ================================================================== *)
(** * Properties of the robust executor *)
(* ================================================================== *)

Section ExecutorFacts.

Import Robust.

Variable T : Type.
Variable clock : nat -> Z.
Variable raced : nat -> Raced T.
Variable firedAt : nat -> string.
Variable random : nat -> Q.
Variable pow : Doubles.Double -> Z -> Doubles.Double.

Local Abbreviation timed ms name :=
  (timeoutOutcome raced firedAt ms name).
Local Abbreviation robustLoop :=
  (attemptLoop clock raced firedAt random pow).

(** Without the breaker, the executor's loop is the retry loop over the
    timed operation, whose invocations are counted from [base]. *)
Lemma loop_without_breaker (fuel : nat) (ms : Z) (name : string)
    (bc : Breaker.CircuitBreakerConfig)
    (config : Retry.RetryConfig Errors.unknown) (base : nat) :
  forall (attempt : Z) (lastError : option Errors.unknown) (w : World)
         (r : option (Retry.Settled T Errors.unknown)) (rw : Retry.World),
    calls w = (base + Retry.invocations (attempts w))%nat ->
    Retry.attemptLoop (fun i => timed ms name (base + i)%nat) random pow
      fuel config attempt lastError (attempts w) = (r, rw) ->
    robustLoop fuel false ms name bc config attempt lastError w =
    (r, {| circuitBreakers := circuitBreakers w;
           ticks := ticks w;
           calls := (base + Retry.invocations rw)%nat;
           attempts := rw |}).
Proof.
  induction fuel as [|fuel IH]; intros attempt lastError w r rw Hcalls Hrun.
  - cbn in *. unfold ret. inversion Hrun; subst.
    rewrite <- Hcalls. destruct w; reflexivity.
  - cbn [attemptLoop]. cbn [Retry.attemptLoop] in Hrun.
    destruct (attempt <=? Retry.maxAttempts config)%Z.
    2:{ cbn in *. unfold ret. inversion Hrun; subst.
        rewrite <- Hcalls. destruct w; reflexivity. }
    unfold Retry.bind at 1 in Hrun. unfold Retry.invoke at 1 in Hrun.
    cbn beta in Hrun.
    unfold bind at 1.
    unfold finalOperation, bind, lift, timeoutOperation.
    cbn [attempts calls circuitBreakers ticks Retry.invocations Retry.draws
         Retry.slept fst snd].
    rewrite Hcalls.
    destruct (timed ms name (base + Retry.invocations (attempts w))%nat)
      as [v|error].
    { cbn in *. unfold ret. inversion Hrun; subst. cbn.
      rewrite Nat.add_succ_r. reflexivity. }
    destruct ((attempt =? Retry.maxAttempts config)%Z
              || negb (Retry.retryableErrors config error)).
    { cbn in *. unfold ret. inversion Hrun; subst. cbn.
      rewrite Nat.add_succ_r. reflexivity. }
    unfold Retry.bind at 1 in Hrun.
    cbn [attempts calls circuitBreakers ticks].
    pose proof (calculateDelay_invocations Errors.unknown random pow config attempt
                  {| Retry.invocations := S (Retry.invocations (attempts w));
                     Retry.draws := Retry.draws (attempts w);
                     Retry.slept := Retry.slept (attempts w) |}) as Hinv.
    destruct (Retry.calculateDelay random pow attempt config
                {| Retry.invocations := S (Retry.invocations (attempts w));
                   Retry.draws := Retry.draws (attempts w);
                   Retry.slept := Retry.slept (attempts w) |})
      as [delay r1].
    cbn in Hinv.
    unfold Retry.bind at 1 in Hrun.
    cbn [attempts calls circuitBreakers ticks Retry.sleep fst snd] in *.
    rewrite (IH _ _ _ r rw); [reflexivity | cbn; lia | exact Hrun].
Qed.

Lemma execute_without_breaker_run (options : Options) (w : World) :
  enabledOf options = false ->
  attempts w = Retry.init ->
  execute clock raced firedAt random pow options w =
  (fst (Retry.execute
          (fun i => timed (timeoutOf options) (operationName options)
                      (calls w + i)%nat)
          random pow (retryOf options) Retry.init),
   {| circuitBreakers := circuitBreakers w;
      ticks := ticks w;
      calls := (calls w + Retry.invocations
                  (snd (Retry.execute
                          (fun i => timed (timeoutOf options)
                                      (operationName options) (calls w + i)%nat)
                          random pow (retryOf options) Retry.init)))%nat;
      attempts := snd (Retry.execute
                         (fun i => timed (timeoutOf options)
                                     (operationName options) (calls w + i)%nat)
                         random pow (retryOf options) Retry.init) |}).
Proof.
  intros Hoff Hinit.
  unfold execute. fold (timeoutOf options) (retryOf options)
    (circuitOf options) (enabledOf options).
  rewrite Hoff. unfold Retry.execute.
  destruct (Retry.attemptLoop
              (fun i => timed (timeoutOf options) (operationName options)
                          (calls w + i)%nat)
              random pow (S (Z.to_nat (Retry.maxAttempts (retryOf options))))
              (retryOf options) 1%Z None Retry.init) as [r rw] eqn:Hrun.
  cbn [fst snd].
  apply (loop_without_breaker _ _ _ _ _ (calls w)).
  - rewrite Hinit. cbn. lia.
  - rewrite Hinit. exact Hrun.
Qed.

(** X19: with [enableCircuitBreaker: false], [RobustExecutor.execute] is
    [RetryMechanism.execute] over the operation wrapped in its timeout: same
    result, same attempts, sleeps and draws, one invocation of the caller's
    operation per attempt, and the breakers and the clock are not touched. *)
Theorem execute_without_breaker (options : Options) (w : World) :
  enabledOf options = false ->
  attempts w = Retry.init ->
  execute clock raced firedAt random pow options w =
  (fst (Retry.execute
          (fun i => timed (timeoutOf options) (operationName options)
                      (calls w + i)%nat)
          random pow (retryOf options) Retry.init),
   {| circuitBreakers := circuitBreakers w;
      ticks := ticks w;
      calls := (calls w + Retry.invocations
                  (snd (Retry.execute
                          (fun i => timed (timeoutOf options)
                                      (operationName options) (calls w + i)%nat)
                          random pow (retryOf options) Retry.init)))%nat;
      attempts := snd (Retry.execute
                         (fun i => timed (timeoutOf options)
                                     (operationName options) (calls w + i)%nat)
                         random pow (retryOf options) Retry.init) |}).
Proof.
  exact (execute_without_breaker_run options w).
Qed.

(** X20: without the breaker and with [isRetryableError] as the retry
    predicate, an operation that loses the race against its timer on the
    first [k] attempts, [k < maxAttempts], and then resolves, is invoked
    [k + 1] times and the call resolves with its result: timeouts are
    retried. *)
Theorem timeouts_are_retried (options : Options) (w : World) (k : nat) (v : T) :
  enabledOf options = false ->
  attempts w = Retry.init ->
  Retry.retryableErrors (retryOf options) = Retry.isRetryableError ->
  (Z.of_nat k < Retry.maxAttempts (retryOf options))%Z ->
  (forall i, (i < k)%nat -> raced (calls w + i)%nat = TimerFirst) ->
  raced (calls w + k)%nat = Settles (Retry.Ok v) ->
  fst (execute clock raced firedAt random pow options w)
    = Some (Retry.Resolved v) /\
  calls (snd (execute clock raced firedAt random pow options w))
    = (calls w + k + 1)%nat.
Proof.
  intros Hoff Hinit Hpred Hk Hlost Hwon.
  destruct (loop_fail_then_succeed T Errors.unknown
              (fun i => timed (timeoutOf options) (operationName options)
                          (calls w + i)%nat)
              random pow (retryOf options) k
              (S (Z.to_nat (Retry.maxAttempts (retryOf options))))
              1%Z None Retry.init v) as [Hres Hcount].
  - lia.
  - lia.
  - intros i Hi. cbn [Retry.init Retry.invocations plus].
    unfold timeoutOutcome. rewrite (Hlost i Hi).
    eexists. split; [reflexivity|]. rewrite Hpred. reflexivity.
  - cbn [Retry.init Retry.invocations plus].
    unfold timeoutOutcome. rewrite Hwon. reflexivity.
  - rewrite (execute_without_breaker_run options w Hoff Hinit).
    cbn [fst snd calls]. unfold Retry.execute.
    split; [exact Hres|]. rewrite Hcount. cbn. lia.
Qed.

Lemma store_lookup_same (name : string) (b : Breaker.CircuitBreaker)
    (m : Breakers) :
  lookup name m = Some b -> store name b m = m.
Proof.
  induction m as [|[k b0] m IH]; cbn; [reflexivity|].
  destruct (k =? name)%string.
  - intros H; inversion H; reflexivity.
  - intros H. rewrite (IH H). reflexivity.
Qed.

Lemma lookup_store (key name : string) (b : Breaker.CircuitBreaker)
    (m : Breakers) :
  lookup key (store name b m) =
  if (name =? key)%string
  then match lookup name m with Some _ => Some b | None => None end
  else lookup key m.
Proof.
  induction m as [|[k b0] m IH]; cbn.
  - destruct (name =? key)%string; reflexivity.
  - destruct (String.eqb_spec k name) as [->|Hk]; cbn.
    + destruct (String.eqb_spec name key); reflexivity.
    + rewrite IH. destruct (String.eqb_spec name key) as [->|Hn].
      * destruct (String.eqb_spec k key); [contradiction | reflexivity].
      * reflexivity.
Qed.

Lemma lookup_app (key name : string) (b : Breaker.CircuitBreaker)
    (m : Breakers) :
  lookup key (m ++ [(name, b)])%list =
  match lookup key m with
  | Some x => Some x
  | None => if (name =? key)%string then Some b else None
  end.
Proof.
  induction m as [|[k b0] m IH]; cbn; [reflexivity|].
  destruct (k =? key)%string; [reflexivity | exact IH].
Qed.

(** An open breaker inside its window and its recovery timeout: the call
    reads the clock once and changes nothing else. *)
Lemma breaker_open_noop (operation : nat -> Retry.Outcome T Errors.unknown)
    (bw : Breaker.World) :
  Breaker.state (Breaker.this bw) = Breaker.OPEN ->
  (clock (Breaker.ticks bw)
   - Breaker.windowStart (Breaker.stats (Breaker.this bw))
   <= Breaker.monitoringPeriod (Breaker.config (Breaker.this bw)))%Z ->
  (clock (Breaker.ticks bw)
   - Breaker.lastFailureTime (Breaker.stats (Breaker.this bw))
   <= Breaker.recoveryTimeout (Breaker.config (Breaker.this bw)))%Z ->
  Breaker.execute clock operation bw =
  (Breaker.RejectedOpen
     ("Circuit breaker is OPEN for: " ++ Breaker.name (Breaker.this bw)),
   {| Breaker.this := Breaker.this bw;
      Breaker.ticks := S (Breaker.ticks bw);
      Breaker.invocations := Breaker.invocations bw |}).
Proof.
  intros Hs Hwin Hrec. breaker_unfold.
  apply Z.ltb_ge in Hwin, Hrec. rewrite Hwin. breaker_step.
  rewrite Hs, Hrec. breaker_step. rewrite Hs. reflexivity.
Qed.

(** X21: when the breaker of the operation is [OPEN], inside its monitoring
    window and its recovery timeout, and the retry predicate rejects the
    circuit-open error, [RobustExecutor.execute] fails fast: one attempt,
    rejected with the circuit-open error, the caller's operation not
    invoked, no sleep, and the breakers unchanged. *)
Theorem open_breaker_fails_fast (options : Options) (w : World)
    (b : Breaker.CircuitBreaker) :
  enabledOf options = true ->
  (1 <= Retry.maxAttempts (retryOf options))%Z ->
  lookup (operationName options) (circuitBreakers w) = Some b ->
  Breaker.state b = Breaker.OPEN ->
  (clock (ticks w) - Breaker.windowStart (Breaker.stats b)
   <= Breaker.monitoringPeriod (Breaker.config b))%Z ->
  (clock (ticks w) - Breaker.lastFailureTime (Breaker.stats b)
   <= Breaker.recoveryTimeout (Breaker.config b))%Z ->
  Retry.retryableErrors (retryOf options)
    (circuitOpenError (Breaker.name b)) = false ->
  execute clock raced firedAt random pow options w =
  (Some (Retry.Rejected (Some (circuitOpenError (Breaker.name b)))),
   {| circuitBreakers := circuitBreakers w;
      ticks := S (ticks w);
      calls := calls w;
      attempts := {| Retry.invocations := S (Retry.invocations (attempts w));
                     Retry.draws := Retry.draws (attempts w);
                     Retry.slept := Retry.slept (attempts w) |} |}).
Proof.
  intros Hon Hmax Hlookup Hs Hwin Hrec Hnot.
  unfold execute. fold (timeoutOf options) (retryOf options)
    (circuitOf options) (enabledOf options).
  rewrite Hon. cbn [attemptLoop].
  replace (1 <=? Retry.maxAttempts (retryOf options))%Z with true
    by (symmetry; apply Z.leb_le; exact Hmax).
  unfold bind at 1.
  unfold finalOperation, bind, lift, throughBreaker, getCircuitBreaker, bind.
  cbn [attempts calls circuitBreakers ticks fst snd].
  rewrite Hlookup.
  cbn [attempts calls circuitBreakers ticks fst snd].
  rewrite breaker_open_noop by assumption.
  cbn [Breaker.this Breaker.ticks Breaker.invocations toOutcome].
  rewrite (store_lookup_same _ _ _ Hlookup).
  fold (circuitOpenError (Breaker.name b)).
  rewrite Hnot. rewrite orb_true_r. reflexivity.
Qed.

(** X22: under [isRetryableError] the circuit-open error of a breaker is
    retryable exactly when the breaker's name contains [ECONNRESET],
    [ECONNREFUSED], [ENOTFOUND] or [timeout]. *)
Theorem circuit_open_error_retryable (name : string) :
  Retry.isRetryableError (circuitOpenError name) =
  Errors.includes name "ECONNRESET"
  || Errors.includes name "ECONNREFUSED"
  || Errors.includes name "ENOTFOUND"
  || Errors.includes name "timeout".
Proof.
  reflexivity.
Qed.

(** One call of the breaker invokes the operation at most once. *)
Lemma breaker_invokes_at_most_once
    (operation : nat -> Retry.Outcome T Errors.unknown) (bw : Breaker.World) :
  Breaker.invocations (snd (Breaker.execute clock operation bw))
    = Breaker.invocations bw \/
  Breaker.invocations (snd (Breaker.execute clock operation bw))
    = S (Breaker.invocations bw).
Proof.
  breaker_unfold. breaker_cases; auto.
Qed.

(** What one invocation of [finalOperation] does to the counters and to
    the breakers. *)
Lemma finalOperation_step (enabled : bool) (ms : Z) (name : string)
    (cfg : Breaker.CircuitBreakerConfig) (w : World) :
  let w' := snd (finalOperation clock raced firedAt enabled ms name cfg w) in
  attempts w' = {| Retry.invocations := S (Retry.invocations (attempts w));
                   Retry.draws := Retry.draws (attempts w);
                   Retry.slept := Retry.slept (attempts w) |} /\
  (calls w' = calls w \/ calls w' = S (calls w)) /\
  (forall other, other <> name ->
     lookup other (circuitBreakers w') = lookup other (circuitBreakers w)) /\
  configInForce name cfg w' = configInForce name cfg w /\
  (enabled = true -> lookup name (circuitBreakers w') <> None) /\
  (lookup name (circuitBreakers w) <> None ->
   lookup name (circuitBreakers w') <> None).
Proof.
  cbv zeta. unfold finalOperation, bind, lift.
  cbn [attempts calls circuitBreakers ticks fst snd].
  destruct enabled.
  - unfold throughBreaker, bind, getCircuitBreaker, configInForce.
    cbn [attempts calls circuitBreakers ticks fst snd].
    destruct (lookup name (circuitBreakers w)) as [b|] eqn:Hlookup.
    + cbn [attempts calls circuitBreakers ticks fst snd].
      pose proof (breaker_invokes_at_most_once (timed ms name)
                    {| Breaker.this := b; Breaker.ticks := ticks w;
                       Breaker.invocations := calls w |}) as Hcalls.
      pose proof (execute_keeps_identity T Errors.unknown clock (timed ms name)
                    {| Breaker.this := b; Breaker.ticks := ticks w;
                       Breaker.invocations := calls w |}) as [_ Hcfg].
      destruct (Breaker.execute clock (timed ms name)
                  {| Breaker.this := b; Breaker.ticks := ticks w;
                     Breaker.invocations := calls w |}) as [st bw].
      cbn [attempts calls circuitBreakers ticks fst snd] in *.
      split; [reflexivity|]. split; [exact Hcalls|].
      split; [|split; [|split]].
      * intros other Hne. rewrite lookup_store.
        destruct (String.eqb_spec name other); [congruence | reflexivity].
      * rewrite lookup_store, String.eqb_refl, Hlookup. exact Hcfg.
      * intros _. rewrite lookup_store, String.eqb_refl, Hlookup. discriminate.
      * intros _. rewrite lookup_store, String.eqb_refl, Hlookup. discriminate.
    + cbn [attempts calls circuitBreakers ticks fst snd Breaker.create
           Breaker.this Breaker.ticks].
      set (created := {| Breaker.name := name; Breaker.config := cfg;
                         Breaker.state := Breaker.CLOSED;
                         Breaker.stats :=
                           {| Breaker.requests := 0; Breaker.failures := 0;
                              Breaker.lastFailureTime := 0;
                              Breaker.windowStart := clock (ticks w) |} |}).
      pose proof (breaker_invokes_at_most_once (timed ms name)
                    {| Breaker.this := created; Breaker.ticks := S (ticks w);
                       Breaker.invocations := calls w |}) as Hcalls.
      pose proof (execute_keeps_identity T Errors.unknown clock (timed ms name)
                    {| Breaker.this := created; Breaker.ticks := S (ticks w);
                       Breaker.invocations := calls w |}) as [_ Hcfg].
      destruct (Breaker.execute clock (timed ms name)
                  {| Breaker.this := created; Breaker.ticks := S (ticks w);
                     Breaker.invocations := calls w |}) as [st bw].
      cbn [attempts calls circuitBreakers ticks fst snd] in *.
      assert (Hnew : lookup name (circuitBreakers w ++ [(name, created)])%list
                     = Some created)
        by (rewrite lookup_app, Hlookup, String.eqb_refl; reflexivity).
      split; [reflexivity|]. split; [exact Hcalls|].
      split; [|split; [|split]].
      * intros other Hne. rewrite lookup_store.
        destruct (String.eqb_spec name other); [congruence|].
        rewrite lookup_app.
        destruct (lookup other (circuitBreakers w)); [reflexivity|].
        destruct (String.eqb_spec name other); [congruence | reflexivity].
      * rewrite lookup_store, String.eqb_refl, Hnew. exact Hcfg.
      * intros _. rewrite lookup_store, String.eqb_refl, Hnew. discriminate.
      * intros _. rewrite lookup_store, String.eqb_refl, Hnew. discriminate.
  - unfold timeoutOperation, configInForce.
    cbn [attempts calls circuitBreakers ticks fst snd].
    repeat split; auto. intros Hoff; discriminate Hoff.
Qed.

(** The same for a whole run of the loop. *)
Lemma robustLoop_run (fuel : nat) (enabled : bool) (ms : Z) (name : string)
    (cfg : Breaker.CircuitBreakerConfig)
    (config : Retry.RetryConfig Errors.unknown) :
  forall (attempt : Z) (lastError : option Errors.unknown) (w : World)
         (res : option (Retry.Settled T Errors.unknown)) (w' : World),
    robustLoop fuel enabled ms name cfg config attempt lastError w
      = (res, w') ->
    (calls w <= calls w')%nat /\
    (calls w' - calls w
     <= Retry.invocations (attempts w') - Retry.invocations (attempts w))%nat /\
    (Retry.invocations (attempts w) <= Retry.invocations (attempts w'))%nat /\
    (Z.of_nat (Retry.invocations (attempts w')
               - Retry.invocations (attempts w))
     <= Z.max 0 (Retry.maxAttempts config - attempt + 1))%Z /\
    (forall other, other <> name ->
       lookup other (circuitBreakers w') = lookup other (circuitBreakers w)) /\
    configInForce name cfg w' = configInForce name cfg w /\
    (lookup name (circuitBreakers w) <> None \/
     (enabled = true /\ (attempt <=? Retry.maxAttempts config)%Z = true
      /\ fuel <> 0%nat) ->
     lookup name (circuitBreakers w') <> None).
Proof.
  induction fuel as [|fuel IH]; intros attempt lastError w res w' Hrun.
  - cbn in Hrun. inversion Hrun; subst. repeat split; try lia; auto.
    intros [H|[_ [_ H]]]; [exact H | congruence].
  - cbn [attemptLoop] in Hrun.
    destruct (attempt <=? Retry.maxAttempts config)%Z eqn:Hle.
    2:{ inversion Hrun; subst. repeat split; try lia; auto.
        intros [H|[_ [H _]]]; [exact H | discriminate H]. }
    apply Z.leb_le in Hle.
    unfold bind at 1 in Hrun.
    pose proof (finalOperation_step enabled ms name cfg w)
      as [Hatt [Hcalls [Hother [Hforce [Hnew Hkeep]]]]].
    destruct (finalOperation clock raced firedAt enabled ms name cfg w)
      as [r w1].
    cbn [snd] in Hatt, Hcalls, Hother, Hforce, Hnew, Hkeep.
    assert (Hdone :
      (calls w <= calls w1)%nat /\
      (calls w1 - calls w
       <= Retry.invocations (attempts w1) - Retry.invocations (attempts w))%nat /\
      (Retry.invocations (attempts w) <= Retry.invocations (attempts w1))%nat /\
      (Z.of_nat (Retry.invocations (attempts w1)
                 - Retry.invocations (attempts w))
       <= Z.max 0 (Retry.maxAttempts config - attempt + 1))%Z /\
      (forall other, other <> name ->
         lookup other (circuitBreakers w1) = lookup other (circuitBreakers w)) /\
      configInForce name cfg w1 = configInForce name cfg w /\
      (lookup name (circuitBreakers w) <> None \/
       (enabled = true /\ true = true /\ S fuel <> 0%nat) ->
       lookup name (circuitBreakers w1) <> None)).
    { rewrite Hatt. cbn [Retry.invocations].
      split; [lia|]. split; [lia|]. split; [lia|]. split; [lia|].
      split; [exact Hother|]. split; [exact Hforce|].
      intros [H|[H _]]; auto. }
    destruct r as [v|error]; [inversion Hrun; subst; exact Hdone|].
    destruct ((attempt =? Retry.maxAttempts config)%Z
              || negb (Retry.retryableErrors config error)) eqn:Hstop;
      [inversion Hrun; subst; exact Hdone|].
    apply orb_false_elim in Hstop. destruct Hstop as [Hne _].
    apply Z.eqb_neq in Hne.
    unfold bind at 1 in Hrun. unfold lift at 1 in Hrun.
    pose proof (calculateDelay_invocations Errors.unknown random pow config attempt
                  (attempts w1)) as Hinv.
    destruct (Retry.calculateDelay random pow attempt config (attempts w1))
      as [delay r1].
    cbn [snd] in Hinv.
    unfold bind at 1 in Hrun. unfold lift at 1 in Hrun.
    cbn [attempts calls circuitBreakers ticks fst snd Retry.sleep] in Hrun.
    apply IH in Hrun.
    destruct Hrun as [Hc [Hd [Hi [Hb [Ho [Hf Hk]]]]]].
    destruct Hdone as [Hc1 [Hd1 [Hi1 [Hb1 [Ho1 [Hf1 Hk1]]]]]].
    unfold configInForce in *.
    cbn [attempts calls circuitBreakers Retry.invocations] in *.
    rewrite Hatt in *. cbn [Retry.invocations] in *.
    split; [lia|]. split; [lia|]. split; [lia|]. split; [lia|].
    split; [|split].
    + intros other Hne'. rewrite Ho by assumption. apply Ho1; assumption.
    + rewrite Hf. exact Hf1.
    + intros Hpre. apply Hk. left. apply Hk1.
      destruct Hpre as [H|[H _]]; [left; exact H | right; auto].
Qed.

(** X23: with the breaker enabled and [maxAttempts >= 1], after
    [RobustExecutor.execute] the map holds a breaker for the operation name
    whose configuration is the one that breaker had before the call, the
    [circuitConfig] of the call being used only when the name had no breaker
    yet; the breakers of other names are not touched. *)
Theorem first_circuit_config_wins (options : Options) (w : World) :
  enabledOf options = true ->
  (1 <= Retry.maxAttempts (retryOf options))%Z ->
  (exists b,
      lookup (operationName options)
        (circuitBreakers (snd (execute clock raced firedAt random pow options w)))
        = Some b /\
      Breaker.config b
        = configInForce (operationName options) (circuitOf options) w) /\
  (forall other, other <> operationName options ->
     lookup other
       (circuitBreakers (snd (execute clock raced firedAt random pow options w)))
     = lookup other (circuitBreakers w)).
Proof.
  intros Hon Hmax.
  unfold execute. fold (timeoutOf options) (retryOf options)
    (circuitOf options) (enabledOf options).
  destruct (robustLoop (S (Z.to_nat (Retry.maxAttempts (retryOf options))))
              (enabledOf options) (timeoutOf options) (operationName options)
              (circuitOf options) (retryOf options) 1%Z None w)
    as [res w'] eqn:Hrun.
  apply robustLoop_run in Hrun.
  destruct Hrun as [_ [_ [_ [_ [Hother [Hforce Hsome]]]]]].
  cbn [snd]. split; [|exact Hother].
  assert (Hfound : lookup (operationName options) (circuitBreakers w') <> None).
  { apply Hsome. right. split; [exact Hon|]. split; [|discriminate].
    apply Z.leb_le. exact Hmax. }
  unfold configInForce in Hforce at 1.
  destruct (lookup (operationName options) (circuitBreakers w')) as [b|];
    [|congruence].
  exists b. split; [reflexivity | exact Hforce].
Qed.

(** X24: with or without the breaker, one call of [RobustExecutor.execute]
    makes at most [maxAttempts] attempts and invokes the caller's operation
    at most once per attempt. *)
Theorem execute_calls_bounded (options : Options) (w : World) :
  let w' := snd (execute clock raced firedAt random pow options w) in
  (calls w <= calls w')%nat /\
  (calls w' - calls w
   <= Retry.invocations (attempts w') - Retry.invocations (attempts w))%nat /\
  (Z.of_nat (Retry.invocations (attempts w')
             - Retry.invocations (attempts w))
   <= Z.max 0 (Retry.maxAttempts (retryOf options)))%Z.
Proof.
  cbv zeta.
  unfold execute. fold (timeoutOf options) (retryOf options)
    (circuitOf options) (enabledOf options).
  destruct (robustLoop (S (Z.to_nat (Retry.maxAttempts (retryOf options))))
              (enabledOf options) (timeoutOf options) (operationName options)
              (circuitOf options) (retryOf options) 1%Z None w)
    as [res w'] eqn:Hrun.
  apply robustLoop_run in Hrun.
  destruct Hrun as [Hc [Hd [_ [Hb _]]]].
  cbn [snd]. split; [exact Hc|]. split; [exact Hd|].
  replace (Retry.maxAttempts (retryOf options) - 1 + 1)%Z
    with (Retry.maxAttempts (retryOf options)) in Hb by lia.
  exact Hb.
Qed.

End ExecutorFacts.

(** X19 and X20 on the default retry profile without breaker: the
    operation hangs twice and resolves on the third attempt. *)
Lemma execute_without_breaker_witness :
  fst (Robust.execute Scenarios.steadyClock Scenarios.hangsTwice
         Scenarios.firedAtNoon Scenarios.midDraw Doubles.exactPow Scenarios.withoutBreaker
         Robust.fresh) = Some (Retry.Resolved 42%nat) /\
  Robust.circuitBreakers
    (snd (Robust.execute Scenarios.steadyClock Scenarios.hangsTwice
            Scenarios.firedAtNoon Scenarios.midDraw Doubles.exactPow Scenarios.withoutBreaker
            Robust.fresh)) = [].
Proof.
  rewrite (execute_without_breaker nat Scenarios.steadyClock
             Scenarios.hangsTwice Scenarios.firedAtNoon Scenarios.midDraw Doubles.exactPow
             Scenarios.withoutBreaker Robust.fresh eq_refl eq_refl).
  split; reflexivity.
Defined.

Lemma timeouts_are_retried_witness :
  fst (Robust.execute Scenarios.steadyClock Scenarios.hangsTwice
         Scenarios.firedAtNoon Scenarios.midDraw Doubles.exactPow Scenarios.withoutBreaker
         Robust.fresh) = Some (Retry.Resolved 42%nat) /\
  Robust.calls
    (snd (Robust.execute Scenarios.steadyClock Scenarios.hangsTwice
            Scenarios.firedAtNoon Scenarios.midDraw Doubles.exactPow Scenarios.withoutBreaker
            Robust.fresh)) = 3%nat.
Proof.
  apply (timeouts_are_retried nat Scenarios.steadyClock Scenarios.hangsTwice
           Scenarios.firedAtNoon Scenarios.midDraw Doubles.exactPow Scenarios.withoutBreaker
           Robust.fresh 2 42%nat).
  - reflexivity.
  - reflexivity.
  - reflexivity.
  - vm_compute. reflexivity.
  - intros i Hi. destruct i as [|[|i]]; [reflexivity | reflexivity | lia].
  - reflexivity.
Defined.

(** X21 on an executor whose breaker tripped 100 ms before the call. *)
Lemma open_breaker_fails_fast_witness :
  fst (Robust.execute Scenarios.fastClock Scenarios.settlesAtOnce
         Scenarios.firedAtNoon Scenarios.midDraw Doubles.exactPow Scenarios.strictBreaker
         Scenarios.executorWithOpenBreaker)
  = Some (Retry.Rejected (Some (Robust.circuitOpenError "getCase"))) /\
  Robust.calls
    (snd (Robust.execute Scenarios.fastClock Scenarios.settlesAtOnce
            Scenarios.firedAtNoon Scenarios.midDraw Doubles.exactPow Scenarios.strictBreaker
            Scenarios.executorWithOpenBreaker)) = 10%nat.
Proof.
  rewrite (open_breaker_fails_fast nat Scenarios.fastClock
             Scenarios.settlesAtOnce Scenarios.firedAtNoon Scenarios.midDraw Doubles.exactPow
             Scenarios.strictBreaker Scenarios.executorWithOpenBreaker
             (Breaker.this Scenarios.quicklyTripped)).
  - split; reflexivity.
  - reflexivity.
  - vm_compute. discriminate.
  - reflexivity.
  - vm_compute. reflexivity.
  - vm_compute. discriminate.
  - vm_compute. discriminate.
  - vm_compute. reflexivity.
Defined.

(** X23 on the same executor 1000 s later: the stricter configuration
    passed with the call is ignored, the breaker keeps the default one. *)
Lemma first_circuit_config_wins_witness :
  exists b,
    Robust.lookup "getCase"
      (Robust.circuitBreakers
         (snd (Robust.execute Scenarios.lateClock Scenarios.settlesAtOnce
                 Scenarios.firedAtNoon Scenarios.midDraw Doubles.exactPow
                 Scenarios.strictBreaker Scenarios.executorWithOpenBreaker)))
    = Some b /\
    Breaker.config b = Breaker.DEFAULT_CIRCUIT_CONFIG.
Proof.
  destruct (first_circuit_config_wins nat Scenarios.lateClock
              Scenarios.settlesAtOnce Scenarios.firedAtNoon Scenarios.midDraw Doubles.exactPow
              Scenarios.strictBreaker Scenarios.executorWithOpenBreaker)
    as [[b [Hb Hcfg]] _].
  - reflexivity.
  - vm_compute. discriminate.
  - exists b. split; [exact Hb|]. rewrite Hcfg. vm_compute. reflexivity.
Defined.

(* ================================================================== *)
(** * Shape of the backoff *)
(* ================================================================== *)

Section BackoffShape.

Import Retry.
Local Open Scope Q_scope.

Variable E : Type.
Variable random : nat -> Q.
Variable pow : Doubles.Double -> Z -> Doubles.Double.
Variable config : RetryConfig E.

Hypothesis random_range : forall i, 0 <= random i /\ random i < 1.

Lemma exponentialDelay_nonneg (attempt : Z) :
  Doubles.le (Doubles.Num 0) (initialDelay config) ->
  Doubles.le (Doubles.Num 0)
    (Doubles.mathPow pow (backoffFactor config) (attempt - 1)) ->
  Doubles.le (Doubles.Num 0) (maxDelay config) ->
  Doubles.mul (initialDelay config)
    (Doubles.mathPow pow (backoffFactor config) (attempt - 1))
  <> Doubles.NaN ->
  Doubles.le (Doubles.Num 0) (exponentialDelay pow attempt config).
Proof.
  intros Hi Hp Hm Hn. unfold exponentialDelay.
  apply min_glb; [|exact Hm].
  apply mul_nonneg; assumption.
Qed.

(** X25: with [Math.random()] in [[0, 1)], non-negative [initialDelay],
    [backoffFactor] and [maxDelay], and a [Math.pow] that is not negative
    for a non-negative base, the delay computed for any attempt is
    non-negative, with or without jitter; the one exception is the delay
    [NaN], which is computed when [initialDelay * Math.pow(...)] is [NaN]
    (a zero [initialDelay] and a power that overflowed). *)
Theorem delay_nonneg (attempt : Z) (w : World) :
  (forall base n, Doubles.le (Doubles.Num 0) base ->
                  Doubles.le (Doubles.Num 0) (Doubles.mathPow pow base n)) ->
  Doubles.le (Doubles.Num 0) (initialDelay config) ->
  Doubles.le (Doubles.Num 0) (backoffFactor config) ->
  Doubles.le (Doubles.Num 0) (maxDelay config) ->
  Doubles.le (Doubles.Num 0) (fst (calculateDelay random pow attempt config w))
  \/ (fst (calculateDelay random pow attempt config w) = Doubles.NaN /\
      Doubles.mul (initialDelay config)
        (Doubles.mathPow pow (backoffFactor config) (attempt - 1))
      = Doubles.NaN).
Proof.
  intros Hpow Hi Hb Hm.
  destruct (Doubles.mul (initialDelay config)
              (Doubles.mathPow pow (backoffFactor config) (attempt - 1)))
    as [product| | |] eqn:Hproduct.
  1-3: left;
    assert (Hed : Doubles.le (Doubles.Num 0)
                    (exponentialDelay pow attempt config))
      by (apply exponentialDelay_nonneg;
          [exact Hi | apply Hpow; exact Hb | exact Hm
          | rewrite Hproduct; discriminate]);
    destruct (jitter config) eqn:Hj;
    [ rewrite calculateDelay_jitter by assumption; cbn [fst];
      destruct (jitterFactor_range random random_range (draws w))
        as [f [Hf [Hlo _]]];
      rewrite Hf; apply floor_nonneg; apply mul_nonneg_factor;
      [exact Hed | lra]
    | rewrite calculateDelay_no_jitter by assumption; exact Hed ].
  right. split; [|reflexivity].
  apply (delay_NaN E random pow random_range attempt config w).
  left. exact Hproduct.
Qed.

(** X26: without jitter, with a finite [initialDelay >= 0], with
    [backoffFactor >= 1] and a [Math.pow] that, for a base of at least 1, is
    not negative and does not decrease when the exponent grows, the delay
    never shrinks from an attempt to a later one; the one exception is a
    later delay that is [NaN] (a zero [initialDelay] and a power that
    overflowed, or a [maxDelay] that is [NaN]). *)
Theorem backoff_nondecreasing (a b : Z) (w w' : World) (i : Q) :
  (forall base m n, Doubles.le (Doubles.Num 1) base -> (m <= n)%Z ->
     Doubles.le (Doubles.Num 0) (Doubles.mathPow pow base m) /\
     Doubles.le (Doubles.mathPow pow base m) (Doubles.mathPow pow base n)) ->
  jitter config = false ->
  initialDelay config = Doubles.Num i -> 0 <= i ->
  Doubles.le (Doubles.Num 1) (backoffFactor config) ->
  (a <= b)%Z ->
  Doubles.le (fst (calculateDelay random pow a config w))
    (fst (calculateDelay random pow b config w'))
  \/ fst (calculateDelay random pow b config w') = Doubles.NaN.
Proof.
  intros Hpow Hj Hi Hi0 Hb Hab.
  rewrite !calculateDelay_no_jitter by assumption. cbn [fst].
  unfold exponentialDelay. rewrite Hi.
  destruct (Hpow (backoffFactor config) (a - 1)%Z (b - 1)%Z Hb)
    as [Hnonneg Hmono]; [lia|].
  destruct (Doubles.min
              (Doubles.mul (Doubles.Num i)
                 (Doubles.mathPow pow (backoffFactor config) (b - 1)))
              (maxDelay config)) as [later| | |] eqn:Hlater;
    [left | left | left | right; reflexivity].
  all: rewrite <- Hlater.
  all: assert (Hnot : Doubles.min
                        (Doubles.mul (Doubles.Num i)
                           (Doubles.mathPow pow (backoffFactor config) (b - 1)))
                        (maxDelay config) <> Doubles.NaN)
         by (rewrite Hlater; discriminate).
  all: rewrite min_NaN in Hnot.
  all: apply min_mono_l; [|intros Hc; apply Hnot; right; exact Hc].
  all: apply mul_mono_l; [exact Hi0 | exact Hnonneg | exact Hmono|].
  all: intros Hc; apply Hnot; left; exact Hc.
Qed.

End BackoffShape.

(** X25 on the default profile, fourth attempt, draw 0.75. *)
Lemma delay_nonneg_witness :
  Doubles.le (Doubles.Num 0)
    (fst (Retry.calculateDelay Scenarios.highDraw Doubles.exactPow 4
            Retry.DEFAULT_RETRY_CONFIG Retry.init)).
Proof.
  destruct (delay_nonneg Errors.unknown Scenarios.highDraw Doubles.exactPow
              Retry.DEFAULT_RETRY_CONFIG highDraw_range 4 Retry.init)
    as [Hle|[Hnan _]].
  - exact exactPow_nonneg.
  - reflexivity.
  - reflexivity.
  - reflexivity.
  - exact Hle.
  - vm_compute in Hnan. discriminate Hnan.
Defined.

(** X26 on the default profile without jitter, attempts 1 and 2. *)
Lemma backoff_nondecreasing_witness :
  Doubles.le
    (fst (Retry.calculateDelay Scenarios.midDraw Doubles.exactPow 1
            Scenarios.plainBackoff Retry.init))
    (fst (Retry.calculateDelay Scenarios.midDraw Doubles.exactPow 2
            Scenarios.plainBackoff Retry.init)).
Proof.
  destruct (backoff_nondecreasing Errors.unknown Scenarios.midDraw
              Doubles.exactPow Scenarios.plainBackoff 1 2 Retry.init
              Retry.init 1000) as [Hle|Hnan].
  - exact exactPow_mono.
  - reflexivity.
  - reflexivity.
  - discriminate.
  - reflexivity.
  - lia.
  - exact Hle.
  - vm_compute in Hnan. discriminate Hnan.
Defined.

(* ================================================================== *)
(** * The half-open state and the error response *)
(* ================================================================== *)

Section HalfOpen.

Import Breaker.

Variables T E : Type.
Variable clock : nat -> Z.
Variable operation : nat -> Retry.Outcome T E.

(** X27: a call that finds the breaker [HALF_OPEN] always invokes the
    operation and leaves the breaker [HALF_OPEN] while the operation is
    pending.  When the operation of a call fails while the breaker is
    [HALF_OPEN] and the counters, with that failure, stay below one of the
    thresholds, the call rejects with the operation's error and the breaker
    stays [HALF_OPEN] instead of opening again. *)
Theorem failed_probe_below_thresholds (w w' : World) (e : E) :
  state (this w) = HALF_OPEN ->
  state (this w') = HALF_OPEN ->
  (failures (stats (this w')) + 1 < failureThreshold (config (this w')) \/
   requests (stats (this w')) < minimumRequests (config (this w'))) ->
  (fst (start clock operation w) = Pending (operation (invocations w)) /\
   invocations (snd (start clock operation w)) = S (invocations w) /\
   state (this (snd (start clock operation w))) = HALF_OPEN) /\
  fst (settle (T := T) clock (Retry.Err e) w') = Rejected e /\
  state (this (snd (settle (T := T) clock (Retry.Err e) w'))) = HALF_OPEN /\
  failures (stats (this (snd (settle (T := T) clock (Retry.Err e) w'))))
    = failures (stats (this w')) + 1.
Proof.
  intros Hs Hs' Hbelow. split.
  - breaker_unfold.
    destruct (monitoringPeriod (config (this w))
              <? clock (ticks w) - windowStart (stats (this w)));
      breaker_step; repeat (rewrite Hs; breaker_step); repeat split.
  - breaker_unfold.
    assert (Hno : ((failureThreshold (config (this w'))
                    <=? failures (stats (this w')) + 1)
                   && (minimumRequests (config (this w'))
                       <=? requests (stats (this w'))))%bool = false).
    { apply andb_false_iff. destruct Hbelow as [H|H]; [left | right];
        apply Z.leb_gt; exact H. }
    rewrite Hno. breaker_step. repeat split. exact Hs'.
Qed.

End HalfOpen.

(** X27 on the breaker that a failed probe left [HALF_OPEN] with one
    request and one failure: the next call is dispatched and fails too. *)
Lemma failed_probe_below_thresholds_witness :
  (fst (Breaker.start Scenarios.steadyClock Scenarios.alwaysDown
          Scenarios.probing)
   = Breaker.Pending (Retry.Err Scenarios.networkDown) /\
   Breaker.invocations
     (snd (Breaker.start Scenarios.steadyClock Scenarios.alwaysDown
             Scenarios.probing)) = 12%nat) /\
  Breaker.state (Breaker.this
    (snd (Breaker.settle (T := nat) Scenarios.steadyClock
            (Retry.Err Scenarios.networkDown)
            (snd (Breaker.start Scenarios.steadyClock Scenarios.alwaysDown
                    Scenarios.probing))))) = Breaker.HALF_OPEN /\
  Breaker.failures (Breaker.stats (Breaker.this
    (snd (Breaker.settle (T := nat) Scenarios.steadyClock
            (Retry.Err Scenarios.networkDown)
            (snd (Breaker.start Scenarios.steadyClock Scenarios.alwaysDown
                    Scenarios.probing)))))) = 2.
Proof.
  destruct (failed_probe_below_thresholds nat Errors.unknown
              Scenarios.steadyClock Scenarios.alwaysDown Scenarios.probing
              (snd (Breaker.start Scenarios.steadyClock Scenarios.alwaysDown
                      Scenarios.probing))
              Scenarios.networkDown)
    as [[Hstart [Hinv _]] [_ [Hstate Hfail]]].
  - vm_compute. reflexivity.
  - vm_compute. reflexivity.
  - left. vm_compute. reflexivity.
  - split; [split; [exact Hstart | exact Hinv]|].
    split; [exact Hstate | exact Hfail].
Defined.

Section ErrorResponse.

Import Errors Handler.
Local Open Scope string_scope.

Lemma append_assoc (a b c : string) : (a ++ b) ++ c = a ++ (b ++ c).
Proof.
  induction a as [|x a IH]; cbn; [reflexivity | rewrite IH; reflexivity].
Qed.

Lemma prefix_refl (s : string) : String.prefix s s = true.
Proof.
  induction s as [|c s IH]; cbn; [reflexivity|].
  destruct (ascii_dec c c); [exact IH | contradiction].
Qed.

Lemma prefix_append (s t : string) : String.prefix s (s ++ t) = true.
Proof.
  induction s as [|c s IH]; cbn; [destruct t; reflexivity|].
  destruct (ascii_dec c c); [exact IH | contradiction].
Qed.

Lemma includes_middle (p s t : string) : includes (p ++ s ++ t) s = true.
Proof.
  induction p as [|c p IH]; cbn [append].
  - pose proof (prefix_append s t) as Hpre.
    destruct (s ++ t); cbn [includes]; rewrite Hpre; reflexivity.
  - cbn [includes]. rewrite IH.
    destruct (String.prefix s (String c (p ++ s ++ t))); reflexivity.
Qed.

Lemma includes_suffix (p s : string) : includes (p ++ s) s = true.
Proof.
  induction p as [|c p IH]; cbn [append].
  - destruct s as [|c s]; cbn [includes]; [reflexivity|].
    rewrite prefix_refl. reflexivity.
  - cbn [includes]. rewrite IH.
    destruct (String.prefix s (String c (p ++ s))); reflexivity.
Qed.

Variable now : string.
Variable stringOf : unknown -> Completion string.

(** X28: [formatErrorResponse] throws exactly when the classification of
    the error throws (an unclassified error that [JSON.stringify] rejects)
    or [String(error)] does.  When it returns, the response is flagged as
    an error and has one text, which ends with [Debug info: ] followed by
    the raw message of the error (the message itself for a [BaseError], a
    plain [Error] and a thrown string); before it stands the message for the
    user, which in production mode is the safe message of the classified
    error: so the text contains the raw message in production mode too,
    next to the safe message. *)
Theorem formatErrorResponse_keeps_raw_message (production : bool)
    (operation : string) (error : unknown) :
  match formatErrorResponse now production stringOf operation error with
  | Throws =>
      fromGenericError now error (Some operation) = Throws \/
      debugInfo stringOf error = Throws
  | Returns response =>
      isError response = Some true /\
      exists (classified : BaseError) (raw text : string),
        fromGenericError now error (Some operation) = Returns classified /\
        debugInfo stringOf error = Returns raw /\
        match error with
        | UBase e => raw = message e
        | UError e => raw = err_message e
        | UString thrown => raw = thrown
        | UOther _ => stringOf error = Returns raw
        end /\
        content response = [text] /\
        text = "Error " ++ operation ++ ": "
               ++ (if production then getSafeMessage classified
                   else message classified)
               ++ blankLine ++ "Debug info: " ++ raw /\
        includes text raw = true /\
        (production = true ->
         includes text (getSafeMessage classified) = true)
  end.
Proof.
  unfold formatErrorResponse.
  destruct (fromGenericError now error (Some operation)) as [classified|];
    [|left; reflexivity].
  destruct (debugInfo stringOf error) as [raw|] eqn:Hraw;
    [|right; reflexivity].
  split; [reflexivity|].
  exists classified, raw. eexists.
  split; [reflexivity|]. split; [reflexivity|].
  split.
  { destruct error; cbn in Hraw; congruence. }
  split; [reflexivity|]. split; [reflexivity|].
  split.
  - rewrite <- !append_assoc. apply includes_suffix.
  - intros ->.
    rewrite <- (append_assoc "Error " operation).
    rewrite <- (append_assoc ("Error " ++ operation) ": ").
    apply includes_middle.
Qed.

End ErrorResponse.

(** X4 on the [TypeError] that [fetch] throws: it is a [NETWORK] error. *)
Lemma fromGenericError_fresh_witness :
  match Errors.fromGenericError "2025-01-01T12:00:00.000Z"
          Scenarios.fetchFailed (Some "getCase"%string) with
  | Errors.Returns e =>
      Errors.category (Errors.metadata e) = Errors.NETWORK /\
      Errors.cause e
      = Some {| Errors.err_name := "TypeError";
                Errors.err_message := "fetch failed";
                Errors.err_json := Errors.Rendered "{}" |}
  | Errors.Throws => False
  end.
Proof.
  pose proof (fromGenericError_fresh "2025-01-01T12:00:00.000Z"
                Scenarios.fetchFailed (Some "getCase"%string) eq_refl) as H.
  cbv zeta in H.
  destruct (Errors.fromGenericError "2025-01-01T12:00:00.000Z"
              Scenarios.fetchFailed (Some "getCase"%string)) as [e|].
  - destruct H as [_ [Hcat [_ [_ [_ [Hcause _]]]]]].
    split; [exact Hcat | exact Hcause].
  - destruct H as [Hkind _]. vm_compute in Hkind. discriminate Hkind.
Defined.
